(** * Idempotency Shield: the decision protocol, its record store, the
      duplicate reporter and the anomaly monitor, embedded from the Go
      sources and checked against the written specification.

    Layout (definitions first, theorems afterwards):
    - [Sha256], [Fmt]      crypto/sha256 and the two fmt verbs the code uses
    - [Domain]             internal/domain/models.go
    - [Storage]            internal/storage/repository.go (SQL statements
                           as functions on a table keyed by idempotency_key)
    - [Service]            internal/service/idempotency.go
    - [Reporting]          internal/service/reporting.go
    - [Monitor]            internal/monitor/metrics.go
    - [Server]             cmd/server/main.go (withMetrics) and the payment
                           handler of internal/handler
    - [Race]               interleavings of concurrent ProcessPayment calls *)

From Stdlib Require Import ZArith String Ascii List Bool Lia Permutation.
From Stdlib Require Import SpecFloat.
From stdpp Require Import base option list gmap strings pretty.

Local Open Scope Z_scope.

(* ===================================================================== *)
(** ** crypto/sha256 (FIPS 180-4), on 32-bit words kept in [Z]           *)
(* ===================================================================== *)

Module Sha256.

Definition mask32 : Z := 0xFFFFFFFF.
Definition w32 (x : Z) : Z := Z.land x mask32.
Definition add32 (x y : Z) : Z := w32 (x + y).
Definition not32 (x : Z) : Z := Z.lxor x mask32.
Definition rotr (n x : Z) : Z :=
  Z.lor (Z.shiftr x n) (w32 (Z.shiftl x (32 - n))).

Definition Ch (x y z : Z) : Z :=
  Z.lxor (Z.land x y) (Z.land (not32 x) z).
Definition Maj (x y z : Z) : Z :=
  Z.lxor (Z.lxor (Z.land x y) (Z.land x z)) (Z.land y z).
Definition bsig0 (x : Z) : Z := Z.lxor (Z.lxor (rotr 2 x) (rotr 13 x)) (rotr 22 x).
Definition bsig1 (x : Z) : Z := Z.lxor (Z.lxor (rotr 6 x) (rotr 11 x)) (rotr 25 x).
Definition ssig0 (x : Z) : Z := Z.lxor (Z.lxor (rotr 7 x) (rotr 18 x)) (Z.shiftr x 3).
Definition ssig1 (x : Z) : Z := Z.lxor (Z.lxor (rotr 17 x) (rotr 19 x)) (Z.shiftr x 10).

(** The constants are defined the way the standard derives them: the
  first 32 bits of the fractional parts of the cube roots (round
  constants) and square roots (initial hash value) of the first primes. *)
Definition is_prime (n : Z) : bool :=
  forallb (fun d => negb (n mod Z.of_nat d =? 0)) (seq 2 (Z.to_nat n - 2)).

Definition primes : list Z :=
  List.filter is_prime (map Z.of_nat (seq 2 310)).

(** The largest [r] below [2 ^ bits] with [r ^ k <= n], bit by bit. *)
Fixpoint iroot (k : Z) (bits : nat) (n r : Z) : Z :=
  match bits with
  | O => r
  | S b =>
    let r' := r + 2 ^ Z.of_nat b in
    iroot k b n (if r' ^ k <=? n then r' else r)
  end.

Definition frac_root (k p : Z) : Z :=
  w32 (iroot k 40 (p * 2 ^ (32 * k)) 0).

Definition K : list Z := Eval vm_compute in map (frac_root 3) (firstn 64 primes).

Definition H0 : list Z := Eval vm_compute in map (frac_root 2) (firstn 8 primes).

(** Big-endian encoding of [x] on [n] bytes. *)
Fixpoint be_bytes (n : nat) (x : Z) : list Z :=
  match n with
  | O => []
  | S n' => Z.land (Z.shiftr x (8 * Z.of_nat n')) 0xFF :: be_bytes n' x
  end.

(** Message padding: 0x80, zeros up to 56 mod 64, the bit length on 8 bytes. *)
Definition pad (msg : list Z) : list Z :=
  let len := Z.of_nat (length msg) in
  let zeros := Z.to_nat ((55 - len) mod 64) in
  msg ++ 0x80 :: repeat 0 zeros ++ be_bytes 8 (8 * len).

Fixpoint words (fuel : nat) (bs : list Z) : list Z :=
  match fuel, bs with
  | S f, b0 :: b1 :: b2 :: b3 :: rest =>
      (Z.shiftl b0 24 + Z.shiftl b1 16 + Z.shiftl b2 8 + b3) :: words f rest
  | _, _ => []
  end.

(** Message schedule; [recent] holds W[t-1], W[t-2], ..., W[t-16]. *)
Fixpoint schedule (n : nat) (recent : list Z) : list Z :=
  match n with
  | O => []
  | S n' =>
      let w := add32 (add32 (ssig1 (nth 1 recent 0)) (nth 6 recent 0))
                     (add32 (ssig0 (nth 14 recent 0)) (nth 15 recent 0)) in
      w :: schedule n' (w :: firstn 15 recent)
  end.

Record regs := Regs { ra : Z; rb : Z; rc : Z; rd : Z;
                      re : Z; rf : Z; rg : Z; rh : Z }.

Definition round (s : regs) (kw : Z * Z) : regs :=
  let t1 := add32 (add32 (add32 (rh s) (bsig1 (re s)))
                         (add32 (Ch (re s) (rf s) (rg s)) (fst kw))) (snd kw) in
  let t2 := add32 (bsig0 (ra s)) (Maj (ra s) (rb s) (rc s)) in
  Regs (add32 t1 t2) (ra s) (rb s) (rc s) (add32 (rd s) t1) (re s) (rf s) (rg s).

Definition regs_of (h : list Z) : regs :=
  Regs (nth 0 h 0) (nth 1 h 0) (nth 2 h 0) (nth 3 h 0)
       (nth 4 h 0) (nth 5 h 0) (nth 6 h 0) (nth 7 h 0).

Definition list_of (s : regs) : list Z :=
  [ra s; rb s; rc s; rd s; re s; rf s; rg s; rh s].

Definition compress (h : list Z) (block : list Z) : list Z :=
  let w16 := words 16 block in
  let w := w16 ++ schedule 48 (rev w16) in
  let s := fold_left round (combine K w) (regs_of h) in
  map (fun p => add32 (fst p) (snd p)) (combine h (list_of s)).

Fixpoint blocks (fuel : nat) (h : list Z) (bs : list Z) : list Z :=
  match fuel with
  | O => h
  | S f =>
      match bs with
      | [] => h
      | _ => blocks f (compress h (firstn 64 bs)) (skipn 64 bs)
      end
  end.

(** [Sum256]: the 32 digest bytes of a byte sequence. *)
Definition Sum256 (msg : list Z) : list Z :=
  let p := pad msg in
  flat_map (be_bytes 4) (blocks (length p) H0 p).

End Sha256.

(* ===================================================================== *)
(** ** fmt: the verbs [%d] (int64) and [%x] (byte array), and [[]byte(s)] *)
(* ===================================================================== *)

Module Fmt.

(** [[]byte(s)]: a Go string is its bytes. *)
Definition bytes_of_string (s : string) : list Z :=
  map (fun c => Z.of_N (N_of_ascii c)) (list_ascii_of_string s).

(** [%d]: signed decimal, no padding. *)
Definition d (x : Z) : string := pretty x.

Definition hex_digit (x : Z) : ascii :=
  match x with
  | 0 => "0" | 1 => "1" | 2 => "2" | 3 => "3" | 4 => "4" | 5 => "5"
  | 6 => "6" | 7 => "7" | 8 => "8" | 9 => "9" | 10 => "a" | 11 => "b"
  | 12 => "c" | 13 => "d" | 14 => "e" | _ => "f"
  end%char.

(** [%x] on a byte array: two lower-case digits per byte. *)
Fixpoint x (bs : list Z) : string :=
  match bs with
  | [] => EmptyString
  | b :: rest => String (hex_digit (Z.shiftr b 4)) (String (hex_digit (Z.land b 15)) (x rest))
  end.

End Fmt.

(* ===================================================================== *)
(** ** Machine integers: Go [int64] and [int] (64-bit), kept in [Z]      *)
(* ===================================================================== *)

Module Int64.

Definition min_int : Z := - 2 ^ 63.
Definition max_int : Z := 2 ^ 63 - 1.
Definition in_range (x : Z) : Prop := min_int <= x <= max_int.

(** Two's-complement wrap-around of an exact result. *)
Definition wrap (x : Z) : Z := (x + 2 ^ 63) mod 2 ^ 64 - 2 ^ 63.

Definition add (x y : Z) : Z := wrap (x + y).
Definition sub (x y : Z) : Z := wrap (x - y).
Definition mul (x y : Z) : Z := wrap (x * y).

End Int64.

(* ===================================================================== *)
(** ** float64, as IEEE-754 binary64 over [SpecFloat]                     *)
(* ===================================================================== *)

Module Float64.

Definition prec : Z := 53.
Definition emax : Z := 1024.

(** [float64(n)] for an integer [n]: round to nearest, ties to even. *)
Definition of_int (n : Z) : spec_float := binary_normalize prec emax n 0 false.
Definition div (x y : spec_float) : spec_float := SFdiv prec emax x y.
Definition mul (x y : spec_float) : spec_float := SFmul prec emax x y.
(** [x > y] *)
Definition gtb (x y : spec_float) : bool := SFltb y x.
Definition zero : spec_float := S754_zero false.

End Float64.

(* ===================================================================== *)
(** ** PostgreSQL's [jsonb]: what the column returns for a text written  *)
(* ===================================================================== *)

(** [response_body] is a JSONB column.  The text bound to it is parsed
    ([jsonb_in]) and the value is printed again when it is read
    ([jsonb_out]): white space between tokens is dropped, members and
    elements are separated by a comma and a space, keys and values by a
    colon and a space, the keys of an object are sorted by length and
    then by bytes with the last of equal keys kept, numbers are printed
    as [numeric] prints them, and strings are escaped anew.  The
    database is taken with encoding UTF8; its limits on nesting depth
    and on the size of a value are not modelled. *)
Module Jsonb.

(** The code of a character, and the double quote. *)
Definition code (c : ascii) : Z := Z.of_N (N_of_ascii c).
Definition quote : Z := 34.

Definition bytes_of (s : string) : list Z := map code (list_ascii_of_string s).
Definition string_of (bs : list Z) : string :=
  string_of_list_ascii (map (fun b => ascii_of_N (Z.to_N b)) bs).

(** *** Numbers *)

Definition is_ws (c : Z) : bool := (c =? 32) || (c =? 9) || (c =? 10) || (c =? 13).

Fixpoint skip_ws (s : list Z) : list Z :=
  match s with
  | c :: s' => if is_ws c then skip_ws s' else s
  | [] => []
  end.

Definition is_digit (c : Z) : bool := (48 <=? c) && (c <=? 57).

Fixpoint span_digits (s : list Z) : list Z * list Z :=
  match s with
  | c :: s' => if is_digit c then let '(d, r) := span_digits s' in (c :: d, r) else ([], s)
  | [] => ([], [])
  end.

Fixpoint digits_value (acc : Z) (ds : list Z) : Z :=
  match ds with
  | [] => acc
  | d :: ds' => digits_value (acc * 10 + (d - 48)) ds'
  end.

Fixpoint strip_zeros (ds : list Z) : list Z :=
  match ds with
  | d :: ds' => if d =? 48 then strip_zeros ds' else ds
  | [] => []
  end.

Definition zeros (n : Z) : list Z := repeat 48 (Z.to_nat n).

(** [numeric_in] followed by [numeric_out]: the digits [ip.fp] times
    ten to the [e], printed with max(0, |fp| - e) digits after the
    point and without an exponent; zero has no sign.  A [numeric] holds
    at most 131072 digits before the point and 16383 after it. *)
Definition numeric_text (neg : bool) (ip fp : list Z) (e : Z) : option (list Z) :=
  let D := ip ++ fp in
  let n := Z.of_nat (length D) in
  let pos := Z.of_nat (length ip) + e in
  let scale := Z.max 0 (Z.of_nat (length fp) - e) in
  let nonzero := negb (forallb (fun d => d =? 48) D) in
  let lead := n - Z.of_nat (length (strip_zeros D)) in
  if 1073741823 <=? Z.abs e then None
  else if 16383 <? scale then None
  else if nonzero && (131072 <? pos - lead) then None
  else
    let int_part :=
      if pos <=? 0 then []
      else if n <=? pos then D ++ zeros (pos - n)
      else firstn (Z.to_nat pos) D in
    let frac_part :=
      if n <=? pos then []
      else if pos <? 0 then zeros (- pos) ++ D
      else skipn (Z.to_nat pos) D in
    let int_text := match strip_zeros int_part with [] => [48] | t => t end in
    Some ((if neg && nonzero then [45] else [])
          ++ int_text
          ++ (if 0 <? scale then 46 :: frac_part else [])).

(** The sign of a number or of an exponent. *)
Definition lex_sign (plus : bool) (s : list Z) : bool * list Z :=
  match s with
  | c :: r =>
      if c =? 45 then (true, r)
      else if plus && (c =? 43) then (false, r)
      else (false, s)
  | [] => (false, s)
  end.

(** The fraction of a number, if it has one: a point and digits. *)
Definition lex_fraction (s : list Z) : option (list Z * list Z) :=
  match s with
  | c :: r =>
      if c =? 46 then
        let '(fp, r') := span_digits r in
        match fp with
        | [] => None
        | _ => Some (fp, r')
        end
      else Some ([], s)
  | [] => Some ([], s)
  end.

(** The exponent of a number, if it has one: e or E, a sign, digits. *)
Definition lex_exponent (s : list Z) : option (Z * list Z) :=
  match s with
  | c :: r =>
      if (c =? 101) || (c =? 69) then
        let '(eneg, r1) := lex_sign true r in
        let '(ed, r2) := span_digits r1 in
        match ed with
        | [] => None
        | _ => Some ((if eneg then - digits_value 0 ed else digits_value 0 ed), r2)
        end
      else Some (0, s)
  | [] => Some (0, s)
  end.

(** A number token (a minus sign, an integer part without a leading
    zero, a fraction, an exponent) as [numeric] prints it, and the rest. *)
Definition lex_number (s : list Z) : option (list Z * list Z) :=
  let '(neg, s1) := lex_sign false s in
  let '(ip, s2) := span_digits s1 in
  match ip with
  | [] => None
  | d :: ip' =>
      if (d =? 48) && negb (bool_decide (ip' = [])) then None
      else
        match lex_fraction s2 with
        | None => None
        | Some (fp, s3) =>
            match lex_exponent s3 with
            | None => None
            | Some (e, s4) =>
                match numeric_text neg ip fp e with
                | Some t => Some (t, s4)
                | None => None
                end
            end
        end
  end.

(** *** Strings *)

Definition between (lo hi c : Z) : bool := (lo <=? c) && (c <=? hi).

(** The legal UTF-8 sequences that start with a byte of 128 or more
    (those of [pg_utf8_islegal]): the sequence, and the rest. *)
Definition utf8_sequence (c : Z) (s : list Z) : option (list Z * list Z) :=
  if between 194 223 c then
    match s with
    | c1 :: r => if between 128 191 c1 then Some ([c; c1], r) else None
    | _ => None
    end
  else if between 224 239 c then
    match s with
    | c1 :: c2 :: r =>
        let lo := if c =? 224 then 160 else 128 in
        let hi := if c =? 237 then 159 else 191 in
        if between lo hi c1 && between 128 191 c2 then Some ([c; c1; c2], r) else None
    | _ => None
    end
  else if between 240 244 c then
    match s with
    | c1 :: c2 :: c3 :: r =>
        let lo := if c =? 240 then 144 else 128 in
        let hi := if c =? 244 then 143 else 191 in
        if between lo hi c1 && between 128 191 c2 && between 128 191 c3
        then Some ([c; c1; c2; c3], r) else None
    | _ => None
    end
  else None.

(** The UTF-8 form of a code point. *)
Definition utf8_encode (cp : Z) : list Z :=
  if cp <? 128 then [cp]
  else if cp <? 2048 then [192 + cp / 64; 128 + cp mod 64]
  else if cp <? 65536 then [224 + cp / 4096; 128 + (cp / 64) mod 64; 128 + cp mod 64]
  else [240 + cp / 262144; 128 + (cp / 4096) mod 64; 128 + (cp / 64) mod 64;
        128 + cp mod 64].

Definition hex_value (c : Z) : option Z :=
  if is_digit c then Some (c - 48)
  else if between 97 102 c then Some (c - 87)
  else if between 65 70 c then Some (c - 55)
  else None.

(** The four hex digits of a Unicode escape. *)
Definition hex4 (s : list Z) : option (Z * list Z) :=
  match s with
  | a :: b :: c :: d :: r =>
      match hex_value a, hex_value b, hex_value c, hex_value d with
      | Some x, Some y, Some z, Some w => Some (((x * 16 + y) * 16 + z) * 16 + w, r)
      | _, _, _, _ => None
      end
  | _ => None
  end.

(** The character a one-letter escape stands for. *)
Definition escaped (x : Z) : option Z :=
  if x =? quote then Some quote
  else if x =? 92 then Some 92
  else if x =? 47 then Some 47
  else if x =? 98 then Some 8
  else if x =? 102 then Some 12
  else if x =? 110 then Some 10
  else if x =? 114 then Some 13
  else if x =? 116 then Some 9
  else None.

(** The characters of a string up to its closing quote, with the
    escapes resolved; [hi] is a high surrogate waiting for its low one.
    A control character, an escape of code point 0 and a surrogate
    without its partner are refused. *)
Fixpoint lex_string (fuel : nat) (hi : option Z) (s acc : list Z)
    : option (list Z * list Z) :=
  match fuel with
  | O => None
  | S fuel' =>
      match s, hi with
      | [], _ => None
      | c :: r, Some h =>
          (* only the escape of a low surrogate may follow *)
          match r with
          | x :: r1 =>
              if (c =? 92) && (x =? 117) then
                match hex4 r1 with
                | Some (cp, r2) =>
                    if between 56320 57343 cp
                    then lex_string fuel' None r2
                           (acc ++ utf8_encode (65536 + (h - 55296) * 1024 + (cp - 56320)))
                    else None
                | None => None
                end
              else None
          | [] => None
          end
      | c :: r, None =>
          if c =? quote then Some (acc, r)
          else if c =? 92 then
            match r with
            | [] => None
            | x :: r1 =>
                if x =? 117 then
                  match hex4 r1 with
                  | None => None
                  | Some (cp, r2) =>
                      if between 55296 56319 cp then lex_string fuel' (Some cp) r2 acc
                      else if between 56320 57343 cp then None
                      else if cp =? 0 then None
                      else lex_string fuel' None r2 (acc ++ utf8_encode cp)
                  end
                else
                  match escaped x with
                  | Some b => lex_string fuel' None r1 (acc ++ [b])
                  | None => None
                  end
            end
          else if c <? 32 then None
          else if c <? 128 then lex_string fuel' None r (acc ++ [c])
          else
            match utf8_sequence c r with
            | Some (bs, r') => lex_string fuel' None r' (acc ++ bs)
            | None => None
            end
      end
  end.

(** *** Output *)

Definition hex_digit (x : Z) : Z := if x <? 10 then 48 + x else 87 + x.

(** [escape_json], for one character and for a string. *)
Definition escape_char (c : Z) : list Z :=
  if c =? 8 then [92; 98]
  else if c =? 12 then [92; 102]
  else if c =? 10 then [92; 110]
  else if c =? 13 then [92; 114]
  else if c =? 9 then [92; 116]
  else if c =? quote then [92; quote]
  else if c =? 92 then [92; 92]
  else if c <? 32 then [92; 117; 48; 48; hex_digit (c / 16); hex_digit (c mod 16)]
  else [c].

Definition quoted (s : list Z) : list Z := quote :: flat_map escape_char s ++ [quote].

(** The elements of an array or the members of an object, separated by
    a comma and a space. *)
Fixpoint joined (l : list (list Z)) : list Z :=
  match l with
  | [] => []
  | x :: l' =>
      match l' with
      | [] => x
      | _ => x ++ [44; 32] ++ joined l'
      end
  end.

(** *** Objects *)

Fixpoint bytes_lt (a b : list Z) : bool :=
  match a, b with
  | x :: a', y :: b' => (x <? y) || ((x =? y) && bytes_lt a' b')
  | _, _ => false
  end.

(** The order of the keys of an object: by length, then by bytes. *)
Definition key_lt (a b : list Z) : bool :=
  (length a <? length b)%nat || ((length a =? length b)%nat && bytes_lt a b).

(** A member read after the members [l]: it takes its place among the
    keys, and replaces an earlier member with the same key. *)
Fixpoint insert_member (k v : list Z) (l : list (list Z * list Z))
    : list (list Z * list Z) :=
  match l with
  | [] => [(k, v)]
  | (k', v') :: l' =>
      if bool_decide (k = k') then (k, v) :: l'
      else if key_lt k k' then (k, v) :: l
      else (k', v') :: insert_member k v l'
  end.

Definition member_text (kv : list Z * list Z) : list Z := quoted kv.1 ++ [58; 32] ++ kv.2.

(** *** Values, printed as they are read *)

(** One of the words true, false and null at the head of [s]. *)
Definition lex_word (w : string) (s : list Z) : option (list Z * list Z) :=
  let p := bytes_of w in
  if bool_decide (firstn (length p) s = p) then Some (p, skipn (length p) s) else None.

(** A value at the head of [s]: its output text, and the rest.  With
    [members_] (the members of an object after those in [acc]) and
    [elements_] (the elements of an array after those in [acc]). *)
Fixpoint value_ (fuel : nat) (s : list Z) {struct fuel} : option (list Z * list Z) :=
  match fuel with
  | O => None
  | S fuel' =>
      match skip_ws s with
      | [] => None
      | c :: r =>
          if c =? 123 then
            match skip_ws r with
            | c' :: r' => if c' =? 125 then Some ([123; 125], r') else members_ fuel' r []
            | [] => None
            end
          else if c =? 91 then
            match skip_ws r with
            | c' :: r' => if c' =? 93 then Some ([91; 93], r') else elements_ fuel' r []
            | [] => None
            end
          else if c =? quote then
            match lex_string (length r) None r [] with
            | Some (str, r') => Some (quoted str, r')
            | None => None
            end
          else if c =? 116 then lex_word "true" (c :: r)
          else if c =? 102 then lex_word "false" (c :: r)
          else if c =? 110 then lex_word "null" (c :: r)
          else lex_number (c :: r)
      end
  end
with members_ (fuel : nat) (s : list Z) (acc : list (list Z * list Z)) {struct fuel}
    : option (list Z * list Z) :=
  match fuel with
  | O => None
  | S fuel' =>
      match skip_ws s with
      | [] => None
      | c :: r =>
          if negb (c =? quote) then None
          else
            match lex_string (length r) None r [] with
            | None => None
            | Some (k, r1) =>
                match skip_ws r1 with
                | [] => None
                | c1 :: r2 =>
                    if negb (c1 =? 58) then None
                    else
                      match value_ fuel' r2 with
                      | None => None
                      | Some (v, r3) =>
                          match skip_ws r3 with
                          | [] => None
                          | c3 :: r4 =>
                              if c3 =? 44 then members_ fuel' r4 (insert_member k v acc)
                              else if c3 =? 125 then
                                Some ([123]
                                      ++ joined (map member_text (insert_member k v acc))
                                      ++ [125], r4)
                              else None
                          end
                      end
                end
            end
      end
  end
with elements_ (fuel : nat) (s : list Z) (acc : list (list Z)) {struct fuel}
    : option (list Z * list Z) :=
  match fuel with
  | O => None
  | S fuel' =>
      match value_ fuel' s with
      | None => None
      | Some (v, r) =>
          match skip_ws r with
          | [] => None
          | c :: r' =>
              if c =? 44 then elements_ fuel' r' (acc ++ [v])
              else if c =? 93 then Some ([91] ++ joined (acc ++ [v]) ++ [93], r')
              else None
          end
      end
  end.

(** [jsonb_in] followed by [jsonb_out]: the text the column returns for
    [text]; [None] when PostgreSQL refuses [text] (invalid input syntax
    for type json, and the like).  Of two calls in a row of the three
    functions above at least one reads a character, so fuel for twice
    the length is enough. *)
Definition render (text : string) : option string :=
  let s := bytes_of text in
  match value_ (2 * length s + 2) s with
  | Some (v, r) =>
      match skip_ws r with
      | [] => Some (string_of v)
      | _ => None
      end
  | None => None
  end.

End Jsonb.

(* ===================================================================== *)
(** ** internal/domain/models.go                                         *)
(* ===================================================================== *)

Module Domain.

(** [type Status string] with its three constants. *)
Definition Status : Type := string.
Definition StatusProcessing : Status := "processing".
Definition StatusSucceeded : Status := "succeeded".
Definition StatusFailed : Status := "failed".

(** [time.Time] as nanoseconds since the epoch; [time.Duration] likewise. *)
Definition Time : Type := Z.

(** [json.RawMessage]: the raw bytes of a JSON value. *)
Definition RawMessage : Type := string.

Module Req.
Record PaymentRequest := mk {
    IdempotencyKey : string;
    MerchantID : string;
    CustomerID : string;
    Amount : Z;
    Currency : string }.
End Req.
Abbreviation PaymentRequest := Req.PaymentRequest.

(** [fmt.Sprintf("%s|%s|%d|%s", ...)] of [PaymentRequest.Hash]. *)
Definition canonical (p : PaymentRequest) : string :=
  Req.MerchantID p +:+ "|" +:+ Req.CustomerID p +:+ "|"
    +:+ Fmt.d (Req.Amount p) +:+ "|" +:+ Req.Currency p.

(** [PaymentRequest.Hash]: SHA-256 hex digest of the canonical parameters. *)
Definition Hash (p : PaymentRequest) : string :=
  Fmt.x (Sha256.Sum256 (Fmt.bytes_of_string (canonical p))).

Module Rec.
Record IdempotencyRecord := mk {
    ID : Z;
    IdempotencyKey : string;
    MerchantID : string;
    CustomerID : string;
    Amount : Z;
    Currency : string;
    Status : Domain.Status;
    RequestHash : string;
    ResponseBody : option RawMessage;
    PaymentID : string;
    AttemptCount : Z;
    FirstSeenAt : Time;
    LastSeenAt : Time;
    CompletedAt : option Time;
    ExpiresAt : Time }.
End Rec.
Abbreviation IdempotencyRecord := Rec.IdempotencyRecord.

(** [IdempotencyRecord.IsExpired]; [now] is the reading of [time.Now()]. *)
Definition IsExpired (now : Time) (r : IdempotencyRecord) : bool :=
  Rec.ExpiresAt r <? now.

Module Resp.
Record PaymentResponse := mk {
    PaymentID : string;
    IdempotencyKey : string;
    Status : Domain.Status;
    Message : string;
    AttemptCount : Z;
    ResponseBody : option RawMessage }.
End Resp.
Abbreviation PaymentResponse := Resp.PaymentResponse.

Record CompleteRequest := {
  creq_Status : Status;
  creq_ResponseBody : option RawMessage }.

Record SuspiciousKey := {
  sk_IdempotencyKey : string;
  sk_AttemptCount : Z;
  sk_Amount : Z;
  sk_Currency : string;
  sk_Status : Status;
  sk_FirstSeenAt : Time;
  sk_LastSeenAt : Time }.

Record DuplicateReport := {
  rep_MerchantID : string;
  rep_TotalRequests : Z;
  rep_UniquePayments : Z;
  rep_DuplicateCount : Z;
  rep_DuplicateRate : spec_float;
  rep_SuspiciousKeys : list SuspiciousKey;
  rep_TimeRange : Time * Time;
  rep_AmountAtRisk : Z;
  rep_CurrencyBreakdown : gmap string Z }.

(** internal/domain/errors.go, and the two error shapes built with
    [fmt.Errorf] in the service. *)
Inductive error :=
  | ErrParamsMismatch
  | ErrAlreadyCompleted
  | ErrKeyNotFound
  | ErrInvalidStatus
  | ErrValidation (msg : string)
  | ErrWrapped (msg : string).

End Domain.

(* ===================================================================== *)
(** ** internal/storage/repository.go                                    *)
(* ===================================================================== *)

(** The table [idempotency_keys] is a finite map from the UNIQUE column
  [idempotency_key] to its row; every SQL statement of the repository is
  the function it computes on that table.  A statement either executes
  or fails as a whole ([fail = true]: no connection, lock or commit), in
  which case the table is unchanged and the Go method returns [err].
  Columns return the values written to them. *)

Module Storage.
Import Domain.

Record DB := mkDB {
  rows : gmap string IdempotencyRecord;
  (* next value of the BIGSERIAL behind [id]; the upsert draws one
     whether or not it then hits a conflict *)
  id_seq : Z }.

Definition with_rows (db : DB) (m : gmap string IdempotencyRecord) : DB :=
  mkDB m (id_seq db).

(** The row written by the INSERT arm of the upsert. *)
Definition inserted_row (id : Z) (req : PaymentRequest) (hash paymentID : string)
    (now expiresAt : Time) : IdempotencyRecord :=
  {| Rec.ID := id;
     Rec.IdempotencyKey := Req.IdempotencyKey req;
     Rec.MerchantID := Req.MerchantID req;
     Rec.CustomerID := Req.CustomerID req;
     Rec.Amount := Req.Amount req;
     Rec.Currency := Req.Currency req;
     Rec.Status := "processing";
     Rec.RequestHash := hash;
     Rec.ResponseBody := None;
     Rec.PaymentID := paymentID;
     Rec.AttemptCount := 1;
     Rec.FirstSeenAt := now;
     Rec.LastSeenAt := now;
     Rec.CompletedAt := None;
     Rec.ExpiresAt := expiresAt |}.

(** The row left by the ON CONFLICT DO UPDATE arm. *)
Definition bumped_row (r : IdempotencyRecord) (now : Time) : IdempotencyRecord :=
  {| Rec.ID := Rec.ID r;
     Rec.IdempotencyKey := Rec.IdempotencyKey r;
     Rec.MerchantID := Rec.MerchantID r;
     Rec.CustomerID := Rec.CustomerID r;
     Rec.Amount := Rec.Amount r;
     Rec.Currency := Rec.Currency r;
     Rec.Status := Rec.Status r;
     Rec.RequestHash := Rec.RequestHash r;
     Rec.ResponseBody := Rec.ResponseBody r;
     Rec.PaymentID := Rec.PaymentID r;
     Rec.AttemptCount := Rec.AttemptCount r + 1;
     Rec.FirstSeenAt := Rec.FirstSeenAt r;
     Rec.LastSeenAt := now;
     Rec.CompletedAt := Rec.CompletedAt r;
     Rec.ExpiresAt := Rec.ExpiresAt r |}.

(** [InsertOrGet]: one transaction holding the advisory lock of the key
    around INSERT ... ON CONFLICT DO UPDATE ... RETURNING.  [now] is the
    reading of [time.Now()] bound to $8. *)
Definition InsertOrGet (fail : bool) (db : DB) (req : PaymentRequest)
    (paymentID : string) (expiresAt now : Time)
    : DB * (error + IdempotencyRecord * bool) :=
  if fail then (db, inl (ErrWrapped "upsert"))
  else
    let hash := Hash req in
    let key := Req.IdempotencyKey req in
    let rec :=
      match rows db !! key with
      | None => inserted_row (id_seq db) req hash paymentID now expiresAt
      | Some r => bumped_row r now
      end in
    (* attempt_count == 1 means this was a new insert *)
    let isNew := Rec.AttemptCount rec =? 1 in
    (mkDB (<[key := rec]> (rows db)) (id_seq db + 1), inr (rec, isNew)).

Definition GetByKey (db : DB) (key : string) : error + IdempotencyRecord :=
  match rows db !! key with
  | None => inl ErrKeyNotFound
  | Some r => inr r
  end.

(** What the statements of [MarkComplete] may do: both execute, the
    UPDATE fails, or the UPDATE executes and the SELECT EXISTS after it
    fails.  Where only the first is in question a boolean says whether
    the UPDATE fails. *)
Inductive Fault := Executes | UpdateFails | ExistsFails.
Definition fault_of_bool (fail : bool) : Fault := if fail then UpdateFails else Executes.
Coercion fault_of_bool : bool >-> Fault.

(** The value of the JSONB column [response_body] for the parameter
    bound to it: NULL for a nil body, and for a text what [jsonb] makes
    of it. *)
Definition stored_body (responseBody : option RawMessage) : option RawMessage :=
  responseBody ≫= Jsonb.render.

(** Whether the parameter is accepted as a [jsonb] value. *)
Definition body_accepted (responseBody : option RawMessage) : bool :=
  match responseBody with
  | None => true
  | Some text => bool_decide (is_Some (Jsonb.render text))
  end.

(** CHECK(status IN ('processing','succeeded','failed')) *)
Definition status_allowed (status : Status) : bool :=
  bool_decide (status ∈ ["processing"; "succeeded"; "failed"]).

(** The row left by the UPDATE of [MarkComplete]. *)
Definition completed_row (r : IdempotencyRecord) (status : Status)
    (body : option RawMessage) (now : Time) : IdempotencyRecord :=
  {| Rec.ID := Rec.ID r;
     Rec.IdempotencyKey := Rec.IdempotencyKey r;
     Rec.MerchantID := Rec.MerchantID r;
     Rec.CustomerID := Rec.CustomerID r;
     Rec.Amount := Rec.Amount r;
     Rec.Currency := Rec.Currency r;
     Rec.Status := status;
     Rec.RequestHash := Rec.RequestHash r;
     Rec.ResponseBody := stored_body body;
     Rec.PaymentID := Rec.PaymentID r;
     Rec.AttemptCount := Rec.AttemptCount r;
     Rec.FirstSeenAt := Rec.FirstSeenAt r;
     Rec.LastSeenAt := Rec.LastSeenAt r;
     Rec.CompletedAt := Some now;
     Rec.ExpiresAt := Rec.ExpiresAt r |}.

(** [MarkComplete]: UPDATE ... SET status = $1, response_body = $2 ...
    WHERE idempotency_key = $3 AND status = 'processing'.  The statement
    fails when $2 is not accepted as [jsonb], and when the row it would
    write breaks the CHECK on [status].  With no row affected, the
    SELECT EXISTS tells a missing key from a completed one; the error of
    its Scan is not looked at, so that a failing query reads as a
    missing key.  [now] is the database's NOW(). *)
Definition MarkComplete (f : Fault) (db : DB) (key : string) (status : Status)
    (responseBody : option RawMessage) (now : Time) : DB * option error :=
  match f with
  | UpdateFails => (db, Some (ErrWrapped "mark complete"))
  | _ =>
      if negb (body_accepted responseBody) then (db, Some (ErrWrapped "mark complete"))
      else
        match rows db !! key with
        | Some r =>
            if decide (Rec.Status r = "processing") then
              if status_allowed status
              then (with_rows db
                      (<[key := completed_row r status responseBody now]> (rows db)), None)
              else (db, Some (ErrWrapped "mark complete"))
            else
              match f with
              | ExistsFails => (db, Some ErrKeyNotFound)
              | _ => (db, Some ErrAlreadyCompleted)
              end
        | None => (db, Some ErrKeyNotFound)
        end
  end.

(** The row left by the UPDATE of [ResetToProcessing]. *)
Definition reset_row (r : IdempotencyRecord) (newPaymentID : string)
    (expiresAt now : Time) : IdempotencyRecord :=
  {| Rec.ID := Rec.ID r;
     Rec.IdempotencyKey := Rec.IdempotencyKey r;
     Rec.MerchantID := Rec.MerchantID r;
     Rec.CustomerID := Rec.CustomerID r;
     Rec.Amount := Rec.Amount r;
     Rec.Currency := Rec.Currency r;
     Rec.Status := "processing";
     Rec.RequestHash := Rec.RequestHash r;
     Rec.ResponseBody := Rec.ResponseBody r;
     Rec.PaymentID := newPaymentID;
     Rec.AttemptCount := Rec.AttemptCount r;
     Rec.FirstSeenAt := Rec.FirstSeenAt r;
     Rec.LastSeenAt := now;
     Rec.CompletedAt := None;
     Rec.ExpiresAt := expiresAt |}.

(** [ResetToProcessing]: UPDATE ... WHERE idempotency_key = $3 AND status
    = 'failed'.  The number of rows affected is not looked at. *)
Definition ResetToProcessing (fail : bool) (db : DB) (key newPaymentID : string)
    (expiresAt now : Time) : DB * option error :=
  if fail then (db, Some (ErrWrapped "reset"))
  else
    match rows db !! key with
    | Some r =>
        if decide (Rec.Status r = "failed")
        then (with_rows db (<[key := reset_row r newPaymentID expiresAt now]> (rows db)), None)
        else (db, None)
    | None => (db, None)
    end.

(** [DeleteExpired]: DELETE ... WHERE expires_at < NOW(). *)
Definition DeleteExpired (db : DB) (now : Time) : DB * Z :=
  let kept := filter (fun kv => ¬ (Rec.ExpiresAt kv.2 < now)) (rows db) in
  (with_rows db kept, Z.of_nat (size (rows db)) - Z.of_nat (size kept)).

(** WHERE merchant_id = $1 AND first_seen_at >= $2 AND first_seen_at <= $3 *)
Definition in_range (merchantID : string) (from to : Time) (r : IdempotencyRecord) : bool :=
  bool_decide (Rec.MerchantID r = merchantID)
  && (from <=? Rec.FirstSeenAt r) && (Rec.FirstSeenAt r <=? to).

(** The rows of the table, in no particular order. *)
Definition all_rows (db : DB) : list IdempotencyRecord :=
  (map_to_list (rows db)).*2.

(** ORDER BY attempt_count DESC *)
Fixpoint insert_desc (r : IdempotencyRecord) (l : list IdempotencyRecord)
    : list IdempotencyRecord :=
  match l with
  | [] => [r]
  | x :: l' =>
      if Rec.AttemptCount x <? Rec.AttemptCount r then r :: x :: l'
      else x :: insert_desc r l'
  end.
Definition order_by_attempts_desc (l : list IdempotencyRecord) : list IdempotencyRecord :=
  foldr insert_desc [] l.

(** [GetDuplicates] *)
Definition GetDuplicates (db : DB) (merchantID : string) (from to : Time)
    : list IdempotencyRecord :=
  order_by_attempts_desc
    (List.filter (fun r => in_range merchantID from to r && (1 <? Rec.AttemptCount r))
                 (all_rows db)).

Fixpoint sumZ (l : list Z) : Z :=
  match l with
  | [] => 0
  | x :: l' => x + sumZ l'
  end.

(** [GetMerchantStats]: COALESCE(SUM(attempt_count), 0), COUNT( * ) *)
Definition GetMerchantStats (db : DB) (merchantID : string) (from to : Time) : Z * Z :=
  let sel := List.filter (in_range merchantID from to) (all_rows db) in
  (sumZ (map Rec.AttemptCount sel), Z.of_nat (length sel)).

End Storage.

(* ===================================================================== *)
(** ** internal/service/idempotency.go                                   *)
(* ===================================================================== *)

Module Service.
Import Domain.
Export Storage.

(** What one [ProcessPayment] call observes of its environment: the
    successive readings of the clock and whether its two database
    statements execute. *)
Record Env := mkEnv {
  now_id : Time;       (* time.Now() in generatePaymentID *)
  now_ttl : Time;      (* time.Now() in time.Now().Add(s.expiryTTL) *)
  now_upsert : Time;   (* time.Now() in InsertOrGet *)
  now_check : Time;    (* time.Now() in rec.IsExpired() *)
  now_reset : Time;    (* NOW() in ResetToProcessing *)
  upsert_fails : bool;
  reset_fails : bool }.

(** [(resp, code, err)] *)
Definition Result : Type := option PaymentResponse * Z * option error.

Definition validateRequest (req : PaymentRequest) : option error :=
  if decide (Req.IdempotencyKey req = EmptyString) then Some (ErrValidation "idempotency_key is required")
  else if decide (Req.MerchantID req = EmptyString) then Some (ErrValidation "merchant_id is required")
  else if decide (Req.CustomerID req = EmptyString) then Some (ErrValidation "customer_id is required")
  else if Req.Amount req <? 0 then Some (ErrValidation "amount must be non-negative")
  else if decide (Req.Currency req = EmptyString) then Some (ErrValidation "currency is required")
  else None.

(** [generatePaymentID]; [now] is [time.Now().UnixNano()]. *)
Definition generatePaymentID (now : Time) : string := "pay_" +:+ Fmt.d now.

(** State of a call between its upsert and its branch on the returned
    record. *)
Record Pending := mkPending {
  p_paymentID : string;
  p_expiresAt : Time;
  p_rec : IdempotencyRecord;
  p_isNew : bool }.

(** [ProcessPayment] up to and including [InsertOrGet]. *)
Definition ProcessPayment_upsert (expiryTTL : Time) (e : Env) (db : DB)
    (req : PaymentRequest) : DB * (Result + Pending) :=
  match validateRequest req with
  | Some err => (db, inl (None, 422, Some err))
  | None =>
      let paymentID := generatePaymentID (now_id e) in
      let expiresAt := now_ttl e + expiryTTL in
      match InsertOrGet (upsert_fails e) db req paymentID expiresAt (now_upsert e) with
      | (db', inl _) => (db', inl (None, 500, Some (ErrWrapped "insert or get")))
      | (db', inr (rec, isNew)) => (db', inr (mkPending paymentID expiresAt rec isNew))
      end
  end.

(** [ProcessPayment] after [InsertOrGet]: the branch on the returned record. *)
Definition ProcessPayment_branch (e : Env) (db : DB) (req : PaymentRequest)
    (p : Pending) : DB * Result :=
  let rec := p_rec p in
  let paymentID := p_paymentID p in
  (* New key - first time seeing this idempotency key *)
  if p_isNew p then
    (db, (Some (Resp.mk (Rec.PaymentID rec) (Rec.IdempotencyKey rec) StatusProcessing
                  "payment accepted for processing" 1 None), 201, None))
  (* Existing key - check if expired first *)
  else if IsExpired (now_check e) rec then
    match ResetToProcessing (reset_fails e) db (Rec.IdempotencyKey rec) paymentID
            (p_expiresAt p) (now_reset e) with
    | (db', Some _) => (db', (None, 500, Some (ErrWrapped "reset expired")))
    | (db', None) =>
        (db', (Some (Resp.mk paymentID (Rec.IdempotencyKey rec) StatusProcessing
                       "expired key reused, payment accepted for processing"
                       (Rec.AttemptCount rec) None), 201, None))
    end
  else
    let requestHash := Hash req in
    if decide (Rec.Status rec = StatusProcessing) then
      if decide (Rec.RequestHash rec ≠ requestHash) then (db, (None, 422, Some ErrParamsMismatch))
      else
        (db, (Some (Resp.mk (Rec.PaymentID rec) (Rec.IdempotencyKey rec) StatusProcessing
                      "payment is already being processed" (Rec.AttemptCount rec) None),
              409, None))
    else if decide (Rec.Status rec = StatusSucceeded) then
      (db, (Some (Resp.mk (Rec.PaymentID rec) (Rec.IdempotencyKey rec) StatusSucceeded
                    "payment already succeeded" (Rec.AttemptCount rec)
                    (Rec.ResponseBody rec)), 200, None))
    else if decide (Rec.Status rec = StatusFailed) then
      if decide (Rec.RequestHash rec ≠ requestHash) then (db, (None, 422, Some ErrParamsMismatch))
      else
        match ResetToProcessing (reset_fails e) db (Rec.IdempotencyKey rec) paymentID
                (p_expiresAt p) (now_reset e) with
        | (db', Some _) => (db', (None, 500, Some (ErrWrapped "reset to processing")))
        | (db', None) =>
            (db', (Some (Resp.mk paymentID (Rec.IdempotencyKey rec) StatusProcessing
                           "previous attempt failed, retrying" (Rec.AttemptCount rec) None),
                   201, None))
        end
    else (db, (None, 500, Some (ErrWrapped "unknown status"))).

(** [IdempotencyService.ProcessPayment] *)
Definition ProcessPayment (expiryTTL : Time) (e : Env) (db : DB)
    (req : PaymentRequest) : DB * Result :=
  match ProcessPayment_upsert expiryTTL e db req with
  | (db', inl res) => (db', res)
  | (db', inr p) => ProcessPayment_branch e db' req p
  end.

(** [IdempotencyService.MarkComplete]; [now] is the database's NOW(). *)
Definition MarkComplete (f : Fault) (db : DB) (key : string) (req : CompleteRequest)
    (now : Time) : DB * option error :=
  if decide (creq_Status req ≠ StatusSucceeded ∧ creq_Status req ≠ StatusFailed)
  then (db, Some ErrInvalidStatus)
  else Storage.MarkComplete f db key (creq_Status req) (creq_ResponseBody req) now.

(** The outcomes of the decision protocol, read off a result. *)
Inductive Outcome :=
  | Accepted_new | Accepted_retry | Accepted_expired_reused
  | Rejected_in_progress | Rejected_mismatch | Replay
  | InvalidRequest | Unavailable.

#[global] Instance Outcome_eq_dec : EqDecision Outcome.
Proof. solve_decision. Defined.

Definition outcome (r : Result) : option Outcome :=
  match r with
  | (Some resp, 201, None) =>
      if decide (Resp.Message resp = "payment accepted for processing") then Some Accepted_new
      else if decide (Resp.Message resp = "expired key reused, payment accepted for processing")
           then Some Accepted_expired_reused
      else if decide (Resp.Message resp = "previous attempt failed, retrying")
           then Some Accepted_retry
      else None
  | (Some _, 409, None) => Some Rejected_in_progress
  | (Some _, 200, None) => Some Replay
  | (None, 422, Some ErrParamsMismatch) => Some Rejected_mismatch
  | (None, 422, Some (ErrValidation _)) => Some InvalidRequest
  | (None, 500, Some _) => Some Unavailable
  | _ => None
  end.

End Service.

(* ===================================================================== *)
(** ** internal/service/reporting.go                                     *)
(* ===================================================================== *)

Module Reporting.
Import Domain Storage.

Definition suspiciousThreshold : Z := 3. (* attempts > 3 are suspicious *)

Definition to_suspicious (d : IdempotencyRecord) : SuspiciousKey :=
  {| sk_IdempotencyKey := Rec.IdempotencyKey d;
     sk_AttemptCount := Rec.AttemptCount d;
     sk_Amount := Rec.Amount d;
     sk_Currency := Rec.Currency d;
     sk_Status := Rec.Status d;
     sk_FirstSeenAt := Rec.FirstSeenAt d;
     sk_LastSeenAt := Rec.LastSeenAt d |}.

(** The three variables the loop over [duplicates] updates. *)
Record Acc := mkAcc {
  suspicious : list SuspiciousKey;
  amountAtRisk : Z;
  currencyBreakdown : gmap string Z }.

Definition atRisk (d : IdempotencyRecord) : Z :=
  let extraAttempts := Int64.sub (Rec.AttemptCount d) 1 in
  Int64.mul (Rec.Amount d) extraAttempts.

(** One iteration of [for _, d := range duplicates]. *)
Definition loop_body (a : Acc) (d : IdempotencyRecord) : Acc :=
  {| suspicious :=
       if suspiciousThreshold <? Rec.AttemptCount d
       then suspicious a ++ [to_suspicious d] else suspicious a;
     amountAtRisk := Int64.add (amountAtRisk a) (atRisk d);
     currencyBreakdown :=
       <[Rec.Currency d :=
           Int64.add (default 0 (currencyBreakdown a !! Rec.Currency d)) (atRisk d)]>
         (currencyBreakdown a) |}.

(** [float64(duplicateCount) / float64(totalRequests) * 100], or 0. *)
Definition rate (duplicateCount totalRequests : Z) : spec_float :=
  if 0 <? totalRequests
  then Float64.mul (Float64.div (Float64.of_int duplicateCount) (Float64.of_int totalRequests))
                   (Float64.of_int 100)
  else Float64.zero.

(** [ReportingService.GetDuplicateReport]; the two flags tell whether
    the two queries fail. *)
Definition GetDuplicateReport (fail_dups fail_stats : bool) (db : DB)
    (merchantID : string) (from to : Time) : error + DuplicateReport :=
  if fail_dups then inl (ErrWrapped "get duplicates")
  else
    let duplicates := GetDuplicates db merchantID from to in
    if fail_stats then inl (ErrWrapped "get merchant stats")
    else
      let '(totalRequests, uniquePayments) := GetMerchantStats db merchantID from to in
      let duplicateCount := Int64.sub totalRequests uniquePayments in
      let a := fold_left loop_body duplicates (mkAcc [] 0 ∅) in
      inr {| rep_MerchantID := merchantID;
             rep_TotalRequests := totalRequests;
             rep_UniquePayments := uniquePayments;
             rep_DuplicateCount := duplicateCount;
             rep_DuplicateRate := rate duplicateCount totalRequests;
             rep_SuspiciousKeys := suspicious a;
             rep_TimeRange := (from, to);
             rep_AmountAtRisk := amountAtRisk a;
             rep_CurrencyBreakdown := currencyBreakdown a |}.

End Reporting.

(* ===================================================================== *)
(** ** internal/monitor/metrics.go                                       *)
(* ===================================================================== *)

Module Monitor.
Import Domain.

Record windowEntry := mkEntry { ts : Time; isDuplicate : bool }.

Record Metrics := mkMetrics {
  TotalRequests : Z;
  NewPayments : Z;
  DuplicateBlocked : Z;
  RetryAllowed : Z;
  CachedResponses : Z;
  ParamMismatches : Z;
  window : list windowEntry }.

(** [5 * time.Minute], in nanoseconds *)
Definition windowDuration : Z := 5 * 60 * 1000000000.

Record MetricsSnapshot := mkSnapshot {
  snap_TotalRequests : Z;
  snap_NewPayments : Z;
  snap_DuplicateBlocked : Z;
  snap_RetryAllowed : Z;
  snap_CachedResponses : Z;
  snap_ParamMismatches : Z;
  WindowRequests : Z;
  WindowDuplicates : Z;
  WindowDupRate : spec_float;
  AnomalyDetected : bool;
  AnomalyThreshold : spec_float }.

Definition NewMetrics : Metrics := mkMetrics 0 0 0 0 0 0 [].

(** The loop of [pruneWindow]: skip the leading entries before [cutoff]. *)
Fixpoint drop_before (cutoff : Time) (w : list windowEntry) : list windowEntry :=
  match w with
  | [] => []
  | en :: w' => if ts en <? cutoff then drop_before cutoff w' else w
  end.

Definition pruneWindow (now : Time) (w : list windowEntry) : list windowEntry :=
  let cutoff := now - windowDuration in
  drop_before cutoff w.

(** [now] is the reading of [time.Now()]. *)
Definition addWindow (now : Time) (isDup : bool) (w : list windowEntry) : list windowEntry :=
  pruneWindow now (w ++ [mkEntry now isDup]).

Definition RecordNew (now : Time) (m : Metrics) : Metrics :=
  mkMetrics (Int64.add (TotalRequests m) 1) (Int64.add (NewPayments m) 1)
    (DuplicateBlocked m) (RetryAllowed m) (CachedResponses m) (ParamMismatches m)
    (addWindow now false (window m)).

Definition RecordDuplicate (now : Time) (m : Metrics) : Metrics :=
  mkMetrics (Int64.add (TotalRequests m) 1) (NewPayments m)
    (Int64.add (DuplicateBlocked m) 1) (RetryAllowed m) (CachedResponses m)
    (ParamMismatches m) (addWindow now true (window m)).

Definition RecordRetry (now : Time) (m : Metrics) : Metrics :=
  mkMetrics (Int64.add (TotalRequests m) 1) (NewPayments m)
    (DuplicateBlocked m) (Int64.add (RetryAllowed m) 1) (CachedResponses m)
    (ParamMismatches m) (addWindow now false (window m)).

Definition RecordCached (now : Time) (m : Metrics) : Metrics :=
  mkMetrics (Int64.add (TotalRequests m) 1) (NewPayments m)
    (DuplicateBlocked m) (RetryAllowed m) (Int64.add (CachedResponses m) 1)
    (ParamMismatches m) (addWindow now true (window m)).

Definition RecordMismatch (now : Time) (m : Metrics) : Metrics :=
  mkMetrics (Int64.add (TotalRequests m) 1) (NewPayments m)
    (DuplicateBlocked m) (RetryAllowed m) (CachedResponses m)
    (Int64.add (ParamMismatches m) 1) (addWindow now true (window m)).

(** One iteration of the loop of [Snapshot] over the window; the two
    counters are bounded by the length of the slice. *)
Definition count_entry (cutoff : Time) (c : Z * Z) (en : windowEntry) : Z * Z :=
  if cutoff <? ts en
  then (c.1 + 1, if isDuplicate en then c.2 + 1 else c.2)
  else c.

Definition dupRate (windowDups windowReqs : Z) : spec_float :=
  if 0 <? windowReqs
  then Float64.mul (Float64.div (Float64.of_int windowDups) (Float64.of_int windowReqs))
                   (Float64.of_int 100)
  else Float64.zero.

(** [Metrics.Snapshot]; [now] is the reading of [time.Now()]. *)
Definition Snapshot (now : Time) (m : Metrics) : MetricsSnapshot :=
  let cutoff := now - windowDuration in
  let '(windowReqs, windowDups) := fold_left (count_entry cutoff) (window m) (0, 0) in
  let rate := dupRate windowDups windowReqs in
  {| snap_TotalRequests := TotalRequests m;
     snap_NewPayments := NewPayments m;
     snap_DuplicateBlocked := DuplicateBlocked m;
     snap_RetryAllowed := RetryAllowed m;
     snap_CachedResponses := CachedResponses m;
     snap_ParamMismatches := ParamMismatches m;
     WindowRequests := windowReqs;
     WindowDuplicates := windowDups;
     WindowDupRate := rate;
     AnomalyDetected := Float64.gtb rate (Float64.of_int 20);
     AnomalyThreshold := Float64.of_int 20 |}.

End Monitor.

(* ===================================================================== *)
(** ** internal/handler/payment.go and cmd/server/main.go                *)
(* ===================================================================== *)

Module Server.
Import Domain Service.

(** What the payment handler reads of an HTTP request: the method and
    the body, [None] when it does not decode as a [PaymentRequest]. *)
Record HttpRequest := mkHttp {
  http_method : string;
  http_body : option PaymentRequest }.

(** [PaymentHandler.ProcessPayment]: the status passed to [WriteHeader]. *)
Definition HandleProcessPayment (expiryTTL : Time) (e : Env) (db : DB)
    (r : HttpRequest) : DB * Z :=
  if decide (http_method r ≠ "POST") then (db, 405)
  else
    match http_body r with
    | None => (db, 400)
    | Some req =>
        let '(db', (_, code, _)) := ProcessPayment expiryTTL e db req in
        (db', code)
    end.

(** The switch of [withMetrics] on the status the handler wrote; [now]
    is the reading of [time.Now()] in [addWindow]. *)
Definition record_status (now : Time) (status : Z) (m : Monitor.Metrics) : Monitor.Metrics :=
  match status with
  | 201 => Monitor.RecordNew now m
  | 200 => Monitor.RecordCached now m
  | 409 => Monitor.RecordDuplicate now m
  | 422 => Monitor.RecordMismatch now m
  | _ => m
  end.

(** [withMetrics(metrics, paymentHandler.ProcessPayment)] *)
Definition withMetrics (expiryTTL : Time) (e : Env) (now : Time)
    (st : DB * Monitor.Metrics) (r : HttpRequest) : DB * Monitor.Metrics :=
  let '(db', status) := HandleProcessPayment expiryTTL e st.1 r in
  (db', record_status now status st.2).

End Server.

(* ===================================================================== *)
(** ** Concurrent ProcessPayment calls                                    *)
(* ===================================================================== *)

(** A call touches the database in at most two statements, each atomic:
  the upsert transaction and, on two branches, the reset.  Concurrent
  calls are therefore the interleavings of these two steps; everything
  else a call does is local to it. *)

Module Race.
Import Domain Service.

Inductive Thread :=
  | Start (e : Env) (req : PaymentRequest)
  | Upserted (e : Env) (req : PaymentRequest) (p : Pending)
  | Done (res : Result).

Definition Config : Type := DB * list Thread.

(** Thread [i] takes its next step. *)
Definition step (expiryTTL : Time) (cfg : Config) (i : nat) : Config :=
  match cfg.2 !! i with
  | Some (Start e req) =>
      match ProcessPayment_upsert expiryTTL e cfg.1 req with
      | (db', inl res) => (db', <[i := Done res]> cfg.2)
      | (db', inr p) => (db', <[i := Upserted e req p]> cfg.2)
      end
  | Some (Upserted e req p) =>
      let '(db', res) := ProcessPayment_branch e cfg.1 req p in
      (db', <[i := Done res]> cfg.2)
  | Some (Done _) | None => cfg
  end.

(** A schedule names the thread that moves at each step. *)
Definition run (expiryTTL : Time) (cfg : Config) (schedule : list nat) : Config :=
  fold_left (step expiryTTL) schedule cfg.

Definition finished (t : Thread) : bool :=
  match t with Done _ => true | _ => false end.

Definition has_outcome (o : Outcome) (t : Thread) : bool :=
  match t with
  | Done res => bool_decide (outcome res = Some o)
  | _ => false
  end.

Definition count (o : Outcome) (ts : list Thread) : nat :=
  length (List.filter (has_outcome o) ts).

End Race.

(* ===================================================================== *)
(** ** hash/fnv: the 64-bit FNV-1a sum                                   *)
(* ===================================================================== *)

Module Fnv.

Definition offset64 : Z := 14695981039346656037.
Definition prime64 : Z := 1099511628211.

(** One byte of [sum64a.Write]: [hash ^= c; hash *= prime64], on uint64. *)
Definition step (h c : Z) : Z := (Z.lxor h c * prime64) mod 2 ^ 64.

(** [New64a], [Write] and [Sum64]. *)
Definition Sum64a (data : list Z) : Z := fold_left step data offset64.

End Fnv.

(* ===================================================================== *)
(** ** internal/storage/repository.go: the lock id and the grouped query *)
(* ===================================================================== *)

Module Repository.
Import Domain Storage.

(** [advisoryLockKey]: the FNV-1a sum of the key, converted to int64. *)
Definition advisoryLockKey (idempotencyKey : string) : Z :=
  Int64.wrap (Fnv.Sum64a (Fmt.bytes_of_string idempotencyKey)).

(** WHERE first_seen_at >= $1 AND first_seen_at <= $2 *)
Definition in_time_range (from to : Time) (r : IdempotencyRecord) : bool :=
  (from <=? Rec.FirstSeenAt r) && (Rec.FirstSeenAt r <=? to).

(** GROUP BY merchant_id with SUM(attempt_count) and COUNT( * ): a row
    joins the group of its merchant.  The groups are the entries of the
    map [stats] the loop over the result fills. *)
Definition group_step (stats : gmap string (Z * Z)) (r : IdempotencyRecord)
    : gmap string (Z * Z) :=
  let g := default (0, 0) (stats !! Rec.MerchantID r) in
  <[Rec.MerchantID r := (g.1 + Rec.AttemptCount r, g.2 + 1)]> stats.

(** [GetAllMerchantStats]: merchant ↦ [2]int{total, unique}. *)
Definition GetAllMerchantStats (db : DB) (from to : Time) : gmap string (Z * Z) :=
  fold_left group_step (List.filter (in_time_range from to) (all_rows db)) ∅.

End Repository.

(* ===================================================================== *)
(** ** internal/handler: paths, and the completion endpoint              *)
(* ===================================================================== *)

Module Handler.
Import Domain Storage.

(** [strings.TrimLeft(s, "/")] *)
Fixpoint TrimLeft (s : string) : string :=
  match s with
  | EmptyString => EmptyString
  | String c s' => if decide (c = "/"%char) then TrimLeft s' else s
  end.

(** [strings.TrimRight(s, "/")] *)
Fixpoint TrimRight (s : string) : string :=
  match s with
  | EmptyString => EmptyString
  | String c s' =>
      match TrimRight s' with
      | EmptyString => if decide (c = "/"%char) then EmptyString else String c EmptyString
      | t => String c t
      end
  end.

(** [strings.Trim(s, "/")] *)
Definition Trim (s : string) : string := TrimRight (TrimLeft s).

(** [strings.Split(s, "/")]: the pieces between the separators, one more
    than there are separators. *)
Fixpoint Split (s : string) : list string :=
  match s with
  | EmptyString => [EmptyString]
  | String c s' =>
      if decide (c = "/"%char) then EmptyString :: Split s'
      else match Split s' with
           | x :: xs => String c x :: xs
           | [] => [String c EmptyString]
           end
  end.

(** [strings.Split(strings.Trim(r.URL.Path, "/"), "/")] *)
Definition path_parts (path : string) : list string := Split (Trim path).

(** What a handler reads of a request: the method, the path, and the
    body, [None] when it does not decode. *)
Record Request (B : Type) := mkRequest {
  method : string;
  path : string;
  body : option B }.
Arguments mkRequest {B} _ _ _.
Arguments method {B} _.
Arguments path {B} _.
Arguments body {B} _.

(** The status [CompletePayment] writes for the result of [MarkComplete]. *)
Definition complete_status (err : option error) : Z :=
  match err with
  | None => 200
  | Some ErrInvalidStatus => 422
  | Some ErrKeyNotFound => 404
  | Some ErrAlreadyCompleted => 409
  | Some _ => 500
  end.

(** [PaymentHandler.CompletePayment]; [f] tells which database
    statement fails, if any, [now] is the database's NOW(). *)
Definition CompletePayment (f : Fault) (db : DB) (r : Request CompleteRequest)
    (now : Time) : DB * Z :=
  if decide (method r ≠ "PATCH") then (db, 405)
  else
    let parts := path_parts (path r) in
    if (length parts <? 4)%nat then (db, 400)
    else
      let key := default EmptyString (parts !! 2%nat) in
      match body r with
      | None => (db, 400)
      | Some req =>
          let '(db', err) := Service.MarkComplete f db key req now in
          (db', complete_status err)
      end.

End Handler.

(* ===================================================================== *)
(** ** Merchant policies: the table, its two queries and the endpoint    *)
(* ===================================================================== *)

Module Policy.
Import Domain.

(** [domain.MerchantPolicy] *)
Record MerchantPolicy := mkPolicy {
  MerchantID : string;
  RetryPolicy : string;
  ExpiryHours : Z;
  CreatedAt : Time;
  UpdatedAt : Time }.

Inductive error :=
  | ErrMerchantNotFound
  | ErrDatabase (msg : string).

(** The table [merchant_policies], by its primary key [merchant_id]. *)
Abbreviation Table := (gmap string MerchantPolicy).

(** The CHECK constraints of the table. *)
Definition check_constraints (p : MerchantPolicy) : bool :=
  bool_decide (RetryPolicy p ∈ ["strict_no_retry"; "standard"; "lenient"])
  && bool_decide (ExpiryHours p ∈ [24; 48; 72]).

(** [GetPolicy] *)
Definition GetPolicy (fail : bool) (tbl : Table) (merchantID : string)
    : error + MerchantPolicy :=
  if fail then inl (ErrDatabase "get policy")
  else match tbl !! merchantID with
       | None => inl ErrMerchantNotFound
       | Some p => inr p
       end.

(** [UpsertPolicy]: INSERT ... ON CONFLICT (merchant_id) DO UPDATE SET
    retry_policy, expiry_hours, updated_at; [now] is the database's NOW(). *)
Definition UpsertPolicy (fail : bool) (tbl : Table) (policy : MerchantPolicy)
    (now : Time) : Table * option error :=
  if fail then (tbl, Some (ErrDatabase "upsert policy"))
  else if negb (check_constraints policy) then (tbl, Some (ErrDatabase "check constraint"))
  else
    let created :=
      match tbl !! MerchantID policy with
      | Some old => CreatedAt old
      | None => now
      end in
    (<[MerchantID policy :=
         mkPolicy (MerchantID policy) (RetryPolicy policy) (ExpiryHours policy) created now]>
       tbl, None).

(** The two maps the handler validates with. *)
Definition validPolicies (s : string) : bool :=
  bool_decide (s = "strict_no_retry") || bool_decide (s = "standard")
  || bool_decide (s = "lenient").
Definition validHours (h : Z) : bool := (h =? 24) || (h =? 48) || (h =? 72).

(** [PolicyHandler.UpdatePolicy]: the table afterwards, the status
    written, and the policy sent with a 200 to a GET. *)
Definition UpdatePolicy (fail : bool) (tbl : Table) (r : Handler.Request MerchantPolicy)
    (now : Time) : Table * Z * option MerchantPolicy :=
  if decide (Handler.method r ≠ "PUT" ∧ Handler.method r ≠ "GET") then (tbl, 405, None)
  else
    let parts := Handler.path_parts (Handler.path r) in
    if (length parts <? 4)%nat then (tbl, 400, None)
    else
      let merchantID := default EmptyString (parts !! 2%nat) in
      if decide (Handler.method r = "GET") then
        match GetPolicy fail tbl merchantID with
        | inl ErrMerchantNotFound => (tbl, 404, None)
        | inl _ => (tbl, 500, None)
        | inr policy => (tbl, 200, Some policy)
        end
      else
        match Handler.body r with
        | None => (tbl, 400, None)
        | Some decoded =>
            let policy := mkPolicy merchantID (RetryPolicy decoded) (ExpiryHours decoded)
                                   (CreatedAt decoded) (UpdatedAt decoded) in
            if negb (validPolicies (RetryPolicy policy)) then (tbl, 422, None)
            else if negb (validHours (ExpiryHours policy)) then (tbl, 422, None)
            else match UpsertPolicy fail tbl policy now with
                 | (tbl', Some _) => (tbl', 500, None)
                 | (tbl', None) => (tbl', 200, None)
                 end
        end.

End Policy.

(* ===================================================================== *)
(** ** internal/config, with [strconv.Atoi]                              *)
(* ===================================================================== *)

Module Config.

(** [time.Hour], in nanoseconds *)
Definition Hour : Z := 3600 * 1000000000.

(** The value of a decimal digit. *)
Definition digit (c : ascii) : option Z :=
  let n := Z.of_N (N_of_ascii c) - 48 in
  if (0 <=? n) && (n <=? 9) then Some n else None.

(** The digits read from the left, onto [acc]. *)
Fixpoint digits (acc : Z) (s : string) : option Z :=
  match s with
  | EmptyString => Some acc
  | String c s' =>
      match digit c with
      | Some n => digits (acc * 10 + n) s'
      | None => None
      end
  end.

(** The digits after the sign: at least one. *)
Definition unsigned (s : string) : option Z :=
  match s with
  | EmptyString => None
  | _ => digits 0 s
  end.

(** [strconv.Atoi] for a 64-bit [int]: an optional sign and decimal
    digits; [None] for a syntax or range error. *)
Definition Atoi (s : string) : option Z :=
  let v :=
    match s with
    | EmptyString => None
    | String c s' =>
        if decide (c = "-"%char) then Z.opp <$> unsigned s'
        else if decide (c = "+"%char) then unsigned s'
        else unsigned s
    end in
  match v with
  | Some n => if (Int64.min_int <=? n) && (n <=? Int64.max_int) then Some n else None
  | None => None
  end.

(** [parseDurationHours]: a [time.Duration], in nanoseconds. *)
Definition parseDurationHours (s : string) : Z :=
  let h := default 24 (Atoi s) in
  Int64.mul h Hour.

(** [envOrDefault]; [v] is the value of [os.Getenv(key)], empty when the
    variable is not set. *)
Definition envOrDefault (v fallback : string) : string :=
  if decide (v ≠ EmptyString) then v else fallback.

Record Config := mkConfig {
  Port : string;
  DatabaseDSN : string;
  KeyExpiryTTL : Z }.

(** [Load]; [getenv] is [os.Getenv]. *)
Definition Load (getenv : string → string) : Config :=
  {| Port := envOrDefault (getenv "PORT") "8080";
     DatabaseDSN :=
       envOrDefault (getenv "DATABASE_DSN")
         "postgres://postgres@localhost:5432/idempotency?sslmode=disable";
     KeyExpiryTTL := parseDurationHours (envOrDefault (getenv "KEY_EXPIRY_HOURS") "24") |}.

End Config.

(* ===================================================================== *)
(** ** Vocabulary of the properties                                       *)
(* ===================================================================== *)

Import Domain Storage Service.

(** The columns neither the conflict arm of the upsert nor the reset may
    touch. *)
Definition same_identity (r r' : IdempotencyRecord) : Prop :=
  Rec.ID r' = Rec.ID r ∧
  Rec.IdempotencyKey r' = Rec.IdempotencyKey r ∧
  Rec.MerchantID r' = Rec.MerchantID r ∧
  Rec.CustomerID r' = Rec.CustomerID r ∧
  Rec.Amount r' = Rec.Amount r ∧
  Rec.Currency r' = Rec.Currency r ∧
  Rec.RequestHash r' = Rec.RequestHash r ∧
  Rec.FirstSeenAt r' = Rec.FirstSeenAt r.

(** The remaining columns, except [last_seen_at] and [attempt_count]. *)
Definition same_lifecycle (r r' : IdempotencyRecord) : Prop :=
  Rec.Status r' = Rec.Status r ∧
  Rec.PaymentID r' = Rec.PaymentID r ∧
  Rec.ResponseBody r' = Rec.ResponseBody r ∧
  Rec.CompletedAt r' = Rec.CompletedAt r ∧
  Rec.ExpiresAt r' = Rec.ExpiresAt r.

(** The database after the upsert of a call that found row [r]. *)
Definition bumped_db (db : DB) (key : string) (r : IdempotencyRecord) (now : Time) : DB :=
  mkDB (<[key := bumped_row r now]> (rows db)) (id_seq db + 1).

(** Sample data: scenario requests of the specification, an empty store,
    and an environment in which every clock reading of a call is [t]. *)
Definition req_A : PaymentRequest := Req.mk "A" "m1" "c1" 5000 "BRL".
Definition req_B : PaymentRequest := Req.mk "B" "m2" "c2" 700 "MXN".
Definition empty_db : DB := mkDB ∅ 1.
Definition env_at (t : Time) : Env := mkEnv t t t t t false false.
Definition one_day : Time := 24 * 3600 * 1000000000.
Definition t0 : Time := 1700000000000000000.
Definition ten_ms : Time := 10000000.
Definition row_A : IdempotencyRecord :=
  inserted_row 1 req_A (Hash req_A) (generatePaymentID t0) t0 (t0 + one_day).
Definition db_A : DB := mkDB {[ "A" := row_A ]} 2.

(** Scenario 4 of the specification ("expired reuse", retention of one
    nanosecond): a first call on key A, and the same request again ten
    milliseconds later. *)
Definition first_call : DB * Result := ProcessPayment 1 (env_at t0) empty_db req_A.
Definition second_call : DB * Result :=
  ProcessPayment 1 (env_at (t0 + ten_ms)) first_call.1 req_A.

(** The same with the payment completed (succeeded, with a payload) between
    the two calls. *)
Definition completed_between : DB * option error :=
  Service.MarkComplete false first_call.1 "A"
    {| creq_Status := StatusSucceeded; creq_ResponseBody := Some "{}" |} (t0 + 5).
Definition second_call_after_success : DB * Result :=
  ProcessPayment 1 (env_at (t0 + ten_ms)) completed_between.1 req_A.

(** A payload as a provider sends it, and as the JSONB column returns it:
    an object with the one member tx, of value t1. *)
Definition json_string (s : string) : string :=
  String (ascii_of_N 34) (s +:+ String (ascii_of_N 34) EmptyString).
Definition payload_tx : RawMessage :=
  "{" +:+ json_string "tx" +:+ ":" +:+ json_string "t1" +:+ "}".
Definition payload_tx_stored : RawMessage :=
  "{" +:+ json_string "tx" +:+ ": " +:+ json_string "t1" +:+ "}".

(** The three mutations of the record store, as operations applied one
    after the other to an initially empty store. *)
Inductive StoreOp :=
| insert_or_bump (req : PaymentRequest) (paymentID : string) (expiresAt now : Time)
| conditional_complete (key : string) (target : Status) (payload : option RawMessage)
    (now : Time)
| reset_to_processing (key newPaymentID : string) (expiresAt now : Time).

Definition apply_op (db : DB) (op : StoreOp) : DB :=
  match op with
  | insert_or_bump req pid exp now => (InsertOrGet false db req pid exp now).1
  | conditional_complete key st body now => (Storage.MarkComplete false db key st body now).1
  | reset_to_processing key pid exp now => (ResetToProcessing false db key pid exp now).1
  end.

Definition reachable_by (ops : list StoreOp) : DB := fold_left apply_op ops empty_db.

Definition payload_only_when_succeeded (db : DB) : Prop :=
  ∀ k r, rows db !! k = Some r → Rec.ResponseBody r ≠ None → Rec.Status r = StatusSucceeded.

(** The operation supplies a payload only together with [succeeded]. *)
Definition payload_goes_with_success (op : StoreOp) : Prop :=
  match op with
  | conditional_complete _ st (Some _) _ => st = StatusSucceeded
  | _ => True
  end.

(** Every row sits under its own key and has been seen at least once. *)
Definition consistent (db : DB) : Prop :=
  ∀ k r, rows db !! k = Some r → Rec.IdempotencyKey r = k ∧ 1 <= Rec.AttemptCount r.

Definition failed_with_payload : list StoreOp :=
  [ insert_or_bump req_A "pay_1" (t0 + one_day) t0;
    conditional_complete "A" StatusFailed (Some "[17]") (t0 + 5) ].

(** A request that fails validation (no merchant id), a third valid
    request, and the POST that carries a request. *)
Definition req_invalid : PaymentRequest := Req.mk "K" EmptyString "c1" 5000 "BRL".
Definition req_C : PaymentRequest := Req.mk "C" "m1" "c3" 1200 "BRL".
Definition post (req : PaymentRequest) : Server.HttpRequest := Server.mkHttp "POST" (Some req).

(** The server handling a sequence of requests, all at clock reading [t]. *)
Definition serve_all (t : Time) (rs : list Server.HttpRequest) : DB * Monitor.Metrics :=
  fold_left (Server.withMetrics one_day (env_at t) t) rs (empty_db, Monitor.NewMetrics).

(** Three new payments on three keys, then one request without merchant id. *)
Definition three_new_one_invalid : DB * Monitor.Metrics :=
  serve_all t0 [post req_A; post req_B; post req_C; post req_invalid].

(** Two requests carry the same four payment parameters. *)
Definition same_parameters (p q : PaymentRequest) : Prop :=
  Req.MerchantID p = Req.MerchantID q ∧ Req.CustomerID p = Req.CustomerID q ∧
  Req.Amount p = Req.Amount q ∧ Req.Currency p = Req.Currency q.

(** The string does not contain the separator of the canonical encoding. *)
Fixpoint bar_free (s : string) : Prop :=
  match s with
  | EmptyString => True
  | String c s' => c ≠ "|"%char ∧ bar_free s'
  end.

(** Two requests that split "a|b|c" differently between merchant and
    customer. *)
Definition req_ab_c : PaymentRequest := Req.mk "A" "a|b" "c" 5000 "BRL".
Definition req_a_bc : PaymentRequest := Req.mk "A" "a" "b|c" 5000 "BRL".

(** The rows of a merchant first seen in the range, those of them seen
    more than once (the duplicates), and those seen more than three times. *)
Definition rows_in_range (db : DB) (merchantID : string) (from to : Time)
    : list IdempotencyRecord :=
  List.filter (in_range merchantID from to) (all_rows db).

Definition duplicate_rows (db : DB) (merchantID : string) (from to : Time)
    : list IdempotencyRecord :=
  List.filter (fun r => 1 <? Rec.AttemptCount r) (rows_in_range db merchantID from to).








Definition total_attempts (l : list IdempotencyRecord) : Z := sumZ (map Rec.AttemptCount l).


(** A small store: merchant m1 has key A seen twice, key C seen five
    times and key D seen once; merchant m2 has key B seen three times. *)
Definition req_D : PaymentRequest := Req.mk "D" "m1" "c4" 900 "USD".
Definition sample_store : DB :=
  reachable_by
    (map (fun q => insert_or_bump q "pay_0" (t0 + one_day) t0)
         [req_A; req_A; req_C; req_C; req_C; req_C; req_C; req_D; req_B; req_B; req_B]).

(** Concurrent calls with one and the same request: thread [i] observes
    the environment [es !! i]. *)
Definition initial_threads (es : list Env) (req : PaymentRequest) : list Race.Thread :=
  map (fun e => Race.Start e req) es.

(** The statements a thread still has to issue before it returns. *)
Definition steps_left (t : Race.Thread) : nat :=
  match t with
  | Race.Start _ _ => 2
  | Race.Upserted _ _ _ => 1
  | Race.Done _ => 0
  end.

(** The thread whose upsert inserted the row. *)
Definition winner (t : Race.Thread) : bool :=
  match t with
  | Race.Start _ _ => false
  | Race.Upserted _ _ p => p_isNew p
  | Race.Done res => bool_decide (outcome res = Some Accepted_new)
  end.

Definition not_started (t : Race.Thread) : Prop :=
  match t with Race.Start _ _ => True | _ => False end.

Definition countb {A} (f : A → bool) (l : list A) : nat := length (List.filter f l).

(** The row of the contended key while the calls race: still processing,
    carrying the hash of the common request, with the expiry one of the
    calls computed. *)
Definition in_flight (ttl : Time) (es : list Env) (req : PaymentRequest)
    (r : IdempotencyRecord) : Prop :=
  Rec.Status r = StatusProcessing ∧ Rec.RequestHash r = Hash req ∧
  1 <= Rec.AttemptCount r ∧ ∃ e0, e0 ∈ es ∧ Rec.ExpiresAt r = now_ttl e0 + ttl.

Definition thread_ok (ttl : Time) (es : list Env) (req : PaymentRequest)
    (t : Race.Thread) : Prop :=
  match t with
  | Race.Start e q => q = req ∧ e ∈ es
  | Race.Upserted e q p =>
      q = req ∧ e ∈ es ∧ (p_isNew p = true ∨ (p_isNew p = false ∧ in_flight ttl es req (p_rec p)))
  | Race.Done res =>
      outcome res = Some Accepted_new ∨ outcome res = Some Rejected_in_progress
  end.

Definition race_inv (ttl : Time) (es : list Env) (req : PaymentRequest)
    (cfg : Race.Config) : Prop :=
  Forall (thread_ok ttl es req) cfg.2 ∧
  match rows cfg.1 !! Req.IdempotencyKey req with
  | None => Forall not_started cfg.2 ∧ countb winner cfg.2 = 0%nat
  | Some r => in_flight ttl es req r ∧ countb winner cfg.2 = 1%nat
  end.

(** Three racing calls, and a schedule that interleaves them. *)
Definition three_envs : list Env := [env_at t0; env_at (t0 + 1); env_at (t0 + 2)].
Definition interleaved : list nat := [0; 1; 2; 2; 1; 0]%nat.

(** The entries of a window a snapshot at [now] counts, and the
    duplicates among them. *)
Definition in_window (now : Time) (en : Monitor.windowEntry) : bool :=
  now - Monitor.windowDuration <? Monitor.ts en.
Definition dup_in_window (now : Time) (en : Monitor.windowEntry) : bool :=
  in_window now en && Monitor.isDuplicate en.

(** The flag computed in float64 agrees with the exact comparison
    [100 × dups > 20 × reqs]. *)
Definition flag_agrees (dups reqs : Z) : bool :=
  Bool.eqb (Float64.gtb (Monitor.dupRate dups reqs) (Float64.of_int 20))
           (20 * reqs <? 100 * dups).

Fixpoint upto (n : nat) : list Z :=
  match n with
  | O => [0]
  | S k => Z.of_nat n :: upto k
  end.

(** What the status switch of [withMetrics] does with each outcome of the
    decision protocol: the recorder it calls, if any. *)
Definition recorder_of (o : Outcome) : option (Time → Monitor.Metrics → Monitor.Metrics) :=
  match o with
  | Accepted_new | Accepted_retry | Accepted_expired_reused => Some Monitor.RecordNew
  | Rejected_in_progress => Some Monitor.RecordDuplicate
  | Replay => Some Monitor.RecordCached
  | Rejected_mismatch | InvalidRequest => Some Monitor.RecordMismatch
  | Unavailable => None
  end.

(** The rows a sweep at [now] finds expired. *)
Definition expired_rows (db : DB) (now : Time) : gmap string IdempotencyRecord :=
  filter (fun kv => Rec.ExpiresAt kv.2 < now) (rows db).

(** Key A completed as failed, and as succeeded with a payload. *)
Definition db_A_failed : DB :=
  (Storage.MarkComplete false db_A "A" StatusFailed None (t0 + 5)).1.
Definition db_A_succeeded : DB :=
  (Storage.MarkComplete false db_A "A" StatusSucceeded (Some "[17]") (t0 + 5)).1.

(** The request of key A with another amount, and an environment in which
    the reset statement fails. *)
Definition req_A_other : PaymentRequest := Req.mk "A" "m1" "c1" 9999 "BRL".
Definition env_reset_down (t : Time) : Env := mkEnv t t t t t false true.

(** Evaluate the branch of [ProcessPayment] on a bumped row. *)
Ltac branch_eval :=
  unfold ProcessPayment_branch, IsExpired;
  cbn [p_isNew p_rec p_paymentID p_expiresAt Rec.ExpiresAt Rec.Status Rec.RequestHash
       Rec.PaymentID Rec.IdempotencyKey Rec.AttemptCount Rec.ResponseBody bumped_row].

(** The calls of the five recorders, each with the clock reading of its
    [addWindow], applied one after the other. *)
Inductive Event := EvNew | EvDuplicate | EvRetry | EvCached | EvMismatch.

Definition record (now : Time) (ev : Event) (m : Monitor.Metrics) : Monitor.Metrics :=
  match ev with
  | EvNew => Monitor.RecordNew now m
  | EvDuplicate => Monitor.RecordDuplicate now m
  | EvRetry => Monitor.RecordRetry now m
  | EvCached => Monitor.RecordCached now m
  | EvMismatch => Monitor.RecordMismatch now m
  end.

Definition record_all (evs : list (Time * Event)) (m : Monitor.Metrics) : Monitor.Metrics :=
  fold_left (fun m te => record te.1 te.2 m) evs m.

(** The sum of the five per-kind counters. *)
Definition counter_sum (m : Monitor.Metrics) : Z :=
  Monitor.NewPayments m + Monitor.DuplicateBlocked m + Monitor.RetryAllowed m
  + Monitor.CachedResponses m + Monitor.ParamMismatches m.

(** The window entry an event is recorded with. *)
Definition to_entry (te : Time * Event) : Monitor.windowEntry :=
  Monitor.mkEntry te.1
    match te.2 with
    | EvNew | EvRetry => false
    | EvDuplicate | EvCached | EvMismatch => true
    end.

(** The keys of the list never go down. *)
Fixpoint nondecreasing {A} (key : A → Z) (l : list A) : Prop :=
  match l with
  | [] => True
  | a :: l' => Forall (fun b => key a <= key b) l' ∧ nondecreasing key l'
  end.

(** The suspicious keys of a report, if there is one, are listed by
    attempt count, highest first. *)
Definition ranked (res : error + DuplicateReport) : Prop :=
  match res with
  | inl _ => True
  | inr rep => nondecreasing (fun sk => - sk_AttemptCount sk) (rep_SuspiciousKeys rep)
  end.

(** The report on nothing. *)
Definition empty_report (merchantID : string) (from to : Time) : DuplicateReport :=
  {| rep_MerchantID := merchantID;
     rep_TotalRequests := 0;
     rep_UniquePayments := 0;
     rep_DuplicateCount := 0;
     rep_DuplicateRate := Float64.zero;
     rep_SuspiciousKeys := [];
     rep_TimeRange := (from, to);
     rep_AmountAtRisk := 0;
     rep_CurrencyBreakdown := ∅ |}.

(** The string holds no path separator. *)
Fixpoint slash_free (s : string) : Prop :=
  match s with
  | EmptyString => True
  | String c s' => c ≠ "/"%char ∧ slash_free s'
  end.

(** The PATCH that completes [rest] under [/v1/payments/]. *)
Definition patch_complete (rest : string) (req : CompleteRequest)
    : Handler.Request CompleteRequest :=
  Handler.mkRequest "PATCH" ("/v1/payments/" +:+ rest +:+ "/complete") (Some req).

(** The two requests of the policy endpoint for a merchant, and a policy
    as a client sends it. *)
Definition policy_path (merchantID : string) : string :=
  "/v1/merchants/" +:+ merchantID +:+ "/policy".
Definition put_policy (merchantID : string) (p : Policy.MerchantPolicy)
    : Handler.Request Policy.MerchantPolicy :=
  Handler.mkRequest "PUT" (policy_path merchantID) (Some p).
Definition get_policy (merchantID : string) : Handler.Request Policy.MerchantPolicy :=
  Handler.mkRequest "GET" (policy_path merchantID) None.
Definition lenient_48 : Policy.MerchantPolicy := Policy.mkPolicy "other" "lenient" 48 0 0.

(** An environment in which only KEY_EXPIRY_HOURS is set. *)
Definition env_hours (v : string) (key : string) : string :=
  if decide (key = "KEY_EXPIRY_HOURS") then v else EmptyString.

(** The largest number of hours an int64 of nanoseconds holds. *)
Definition max_hours : Z := 2562047.

(* ===================================================================== *)
(** * Properties                                                          *)
(* ===================================================================== *)

(** ** The digest and the formatting verbs agree with the Go library *)

Example sha_abc :
  Fmt.x (Sha256.Sum256 (Fmt.bytes_of_string "abc"))
  = "ba7816bf8f01cfea414140de5dae2223b00361a396177a9cb410ff61f20015ad"%string.
Proof. vm_compute. reflexivity. Qed.

Example sha_empty :
  Fmt.x (Sha256.Sum256 (Fmt.bytes_of_string EmptyString))
  = "e3b0c44298fc1c149afbf4c8996fb92427ae41e4649b934ca495991b7852b855"%string.
Proof. vm_compute. reflexivity. Qed.

Example sha_long :
  Fmt.x (Sha256.Sum256 (repeat 97 100))
  = "2816597888e4a0d3a36b82b83316ab32680eb8f00f8cd3b904d681246d285a0e"%string.
Proof. vm_compute. reflexivity. Qed.

(** ** Frame conditions of the store mutations *)

Lemma bumped_row_frame r now :
  same_identity r (bumped_row r now) ∧ same_lifecycle r (bumped_row r now).
Proof. by repeat split. Qed.

Lemma reset_row_frame r pid exp now :
  same_identity r (reset_row r pid exp now) ∧
  Rec.AttemptCount (reset_row r pid exp now) = Rec.AttemptCount r ∧
  Rec.ResponseBody (reset_row r pid exp now) = Rec.ResponseBody r.
Proof. by repeat split. Qed.

Lemma same_identity_refl r : same_identity r r.
Proof. by repeat split. Qed.

Lemma InsertOrGet_existing db req pid exp now r :
  rows db !! Req.IdempotencyKey req = Some r →
  InsertOrGet false db req pid exp now
  = (mkDB (<[Req.IdempotencyKey req := bumped_row r now]> (rows db)) (id_seq db + 1),
     inr (bumped_row r now, Rec.AttemptCount r + 1 =? 1)).
Proof. intros Hr. unfold InsertOrGet. by rewrite Hr. Qed.

Lemma InsertOrGet_fresh db req pid exp now :
  rows db !! Req.IdempotencyKey req = None →
  InsertOrGet false db req pid exp now
  = (mkDB (<[Req.IdempotencyKey req :=
               inserted_row (id_seq db) req (Hash req) pid now exp]> (rows db))
          (id_seq db + 1),
     inr (inserted_row (id_seq db) req (Hash req) pid now exp, true)).
Proof. intros Hr. unfold InsertOrGet. by rewrite Hr. Qed.

Lemma ResetToProcessing_failed db key pid exp now r :
  rows db !! key = Some r → Rec.Status r = "failed" →
  ResetToProcessing false db key pid exp now
  = (with_rows db (<[key := reset_row r pid exp now]> (rows db)), None).
Proof. intros Hr Hs. unfold ResetToProcessing. rewrite Hr. by rewrite decide_True. Qed.

Lemma ResetToProcessing_not_failed db key pid exp now r :
  rows db !! key = Some r → Rec.Status r ≠ "failed" →
  ResetToProcessing false db key pid exp now = (db, None).
Proof. intros Hr Hs. unfold ResetToProcessing. rewrite Hr. by rewrite decide_False. Qed.

(** C7. When the upsert hits an existing key, the row stored under that
    key afterwards differs from the one before only in [last_seen_at]
    (set to now) and [attempt_count] (plus one), and no other row changes;
    and whatever [ResetToProcessing] does to a row, it keeps its
    [first_seen_at], [request_hash], [merchant_id], [customer_id], [amount]
    and [currency] (as well as its key, id, attempt count and payload). *)
Theorem store_frame_conditions (db : DB) (key : string) (r : IdempotencyRecord) :
  rows db !! key = Some r →
  (∀ req pid exp now, Req.IdempotencyKey req = key →
     ∃ r', (InsertOrGet false db req pid exp now).2 = inr (r', Rec.AttemptCount r' =? 1) ∧
           rows (InsertOrGet false db req pid exp now).1 !! key = Some r' ∧
           same_identity r r' ∧ same_lifecycle r r' ∧
           Rec.LastSeenAt r' = now ∧ Rec.AttemptCount r' = Rec.AttemptCount r + 1 ∧
           ∀ k, k ≠ key →
             rows (InsertOrGet false db req pid exp now).1 !! k = rows db !! k) ∧
  (∀ fail pid exp now,
     ∃ r', rows (ResetToProcessing fail db key pid exp now).1 !! key = Some r' ∧
           same_identity r r' ∧
           Rec.AttemptCount r' = Rec.AttemptCount r ∧
           Rec.ResponseBody r' = Rec.ResponseBody r ∧
           ∀ k, k ≠ key →
             rows (ResetToProcessing fail db key pid exp now).1 !! k = rows db !! k).
Proof.
  intros Hr. split.
  - intros req pid exp now <-. rewrite (InsertOrGet_existing _ _ _ _ _ _ Hr). simpl.
    exists (bumped_row r now). rewrite lookup_insert_eq.
    repeat split; try done. intros k Hk. by rewrite lookup_insert_ne.
  - intros [] pid exp now.
    + exists r. simpl. repeat split; done.
    + destruct (decide (Rec.Status r = "failed")) as [Hs|Hs].
      * rewrite (ResetToProcessing_failed _ _ _ _ _ _ Hr Hs). simpl.
        exists (reset_row r pid exp now). rewrite lookup_insert_eq.
        repeat split; try done. intros k Hk. by rewrite lookup_insert_ne.
      * rewrite (ResetToProcessing_not_failed _ _ _ _ _ _ Hr Hs).
        exists r. repeat split; done.
Qed.

Lemma store_frame_conditions_witness :
  let r := completed_row row_A StatusFailed None (t0 + 5) in
  rows db_A_failed !! "A" = Some r ∧
  (∃ r', (InsertOrGet false db_A_failed req_A "pay_2" (t0 + one_day) (t0 + 7)).2
         = inr (r', false) ∧
         rows (InsertOrGet false db_A_failed req_A "pay_2" (t0 + one_day) (t0 + 7)).1 !! "A"
         = Some r' ∧
         same_identity r r' ∧ same_lifecycle r r' ∧
         Rec.LastSeenAt r' = t0 + 7 ∧ Rec.AttemptCount r' = 2 ∧
         Rec.Status r' = StatusFailed) ∧
  (∃ r', rows (ResetToProcessing false db_A_failed "A" "pay_2" (t0 + one_day) (t0 + 7)).1 !! "A"
         = Some r' ∧
         same_identity r r' ∧
         Rec.AttemptCount r' = 1 ∧
         Rec.Status r' = StatusProcessing ∧ Rec.PaymentID r' = "pay_2" ∧
         Rec.ExpiresAt r' = t0 + one_day).
Proof.
  cbn zeta.
  destruct (store_frame_conditions db_A_failed "A"
              (completed_row row_A StatusFailed None (t0 + 5)) eq_refl) as [Hup Hreset].
  split; [reflexivity|]. split.
  - destruct (Hup req_A "pay_2" (t0 + one_day) (t0 + 7) eq_refl)
      as (r' & H1 & H2 & H3 & H4 & H5 & H6 & _).
    exists r'. split; [|split; [exact H2|split; [exact H3|split; [exact H4|split; [exact H5|]]]]].
    + rewrite H1, H6. reflexivity.
    + split; [rewrite H6; reflexivity|]. destruct H4 as [-> _]. reflexivity.
  - destruct (Hreset false "pay_2" (t0 + one_day) (t0 + 7)) as (r' & H1 & H2 & H3 & _).
    exists r'. split; [exact H1|]. split; [exact H2|]. split; [exact H3|].
    vm_compute in H1. injection H1 as <-. split; [reflexivity|]. split; reflexivity.
Defined.

(** ** Rows stay under their key and keep a positive attempt count *)

Lemma consistent_insert db key r :
  consistent db → Rec.IdempotencyKey r = key → 1 <= Rec.AttemptCount r →
  ∀ n, consistent (mkDB (<[key := r]> (rows db)) n).
Proof.
  intros Hdb Hk Ha n k r' Hr'. cbn [rows] in Hr'.
  destruct (decide (k = key)) as [->|Hne].
  - rewrite lookup_insert_eq in Hr'. by injection Hr' as <-.
  - rewrite lookup_insert_ne in Hr' by done. by apply Hdb.
Qed.

Lemma consistent_InsertOrGet fail db req pid exp now :
  consistent db → consistent (InsertOrGet fail db req pid exp now).1.
Proof.
  intros Hdb. destruct fail; [done|]. unfold InsertOrGet.
  destruct (rows db !! Req.IdempotencyKey req) as [r|] eqn:Hr; cbn [fst].
  - destruct (Hdb _ _ Hr) as [Hk Ha]. apply consistent_insert; cbn; [done|done|lia].
  - by apply consistent_insert.
Qed.

(** The two ways [MarkComplete] ends: with an error and the store as
    it was, or with the processing row of the key completed. *)
Lemma MarkComplete_cases (f : Fault) db key st body now :
  (∃ err, Storage.MarkComplete f db key st body now = (db, Some err)) ∨
  (∃ r, rows db !! key = Some r ∧ Rec.Status r = "processing" ∧
        status_allowed st = true ∧ body_accepted body = true ∧ f ≠ UpdateFails ∧
        Storage.MarkComplete f db key st body now
        = (with_rows db (<[key := completed_row r st body now]> (rows db)), None)).
Proof.
  unfold Storage.MarkComplete.
  destruct f; [|by left; eexists|];
    (destruct (body_accepted body) eqn:Hb; cbn [negb]; [|by left; eexists];
     destruct (rows db !! key) as [r|] eqn:Hr; [|by left; eexists];
     destruct (decide (Rec.Status r = "processing")); [|by left; eexists];
     destruct (status_allowed st) eqn:Hs; [|by left; eexists];
     right; by exists r).
Qed.

Lemma consistent_MarkComplete (f : Fault) db key st body now :
  consistent db → consistent (Storage.MarkComplete f db key st body now).1.
Proof.
  intros Hdb.
  destruct (MarkComplete_cases f db key st body now)
    as [[err ->] | (r & Hr & _ & _ & _ & _ & ->)]; [done|]. cbn [fst].
  destruct (Hdb _ _ Hr) as [Hk Ha]. by apply consistent_insert.
Qed.

Lemma consistent_ResetToProcessing fail db key pid exp now :
  consistent db → consistent (ResetToProcessing fail db key pid exp now).1.
Proof.
  intros Hdb. destruct fail; [done|]. unfold ResetToProcessing.
  destruct (rows db !! key) as [r|] eqn:Hr; [|done].
  destruct (decide (Rec.Status r = "failed")); [|done]. cbn [fst].
  destruct (Hdb _ _ Hr) as [Hk Ha]. by apply consistent_insert.
Qed.

Lemma consistent_empty : consistent empty_db.
Proof. intros k r Hr. cbn in Hr. by rewrite lookup_empty in Hr. Qed.

Lemma consistent_reachable ops : consistent (reachable_by ops).
Proof.
  unfold reachable_by. generalize consistent_empty. generalize empty_db.
  induction ops as [|op ops IH]; intros db Hdb; [done|]. cbn [fold_left]. apply IH.
  destruct op; cbn [apply_op];
    [by apply consistent_InsertOrGet | by apply consistent_MarkComplete
    | by apply consistent_ResetToProcessing].
Qed.

Lemma consistent_ProcessPayment ttl e db req :
  consistent db → consistent (ProcessPayment ttl e db req).1.
Proof.
  intros Hdb. unfold ProcessPayment, ProcessPayment_upsert.
  destruct (validateRequest req); [done|].
  pose proof (consistent_InsertOrGet (upsert_fails e) db req (generatePaymentID (now_id e))
                (now_ttl e + ttl) (now_upsert e) Hdb) as Hup.
  destruct (InsertOrGet _ _ _ _ _ _) as [db' [err|[rec isNew]]]; [done|].
  cbn [fst] in Hup. unfold ProcessPayment_branch. cbn [p_isNew p_rec p_paymentID p_expiresAt].
  repeat match goal with
         | |- context [ResetToProcessing ?f ?d ?k ?p ?x ?n] =>
             pose proof (consistent_ResetToProcessing f d k p x n Hup);
             destruct (ResetToProcessing f d k p x n) as [? []]
         | |- context [if ?b then _ else _] => destruct b
         end; done.
Qed.

(** ** The decision protocol on an existing key *)

Lemma ProcessPayment_existing ttl e db req r :
  validateRequest req = None → upsert_fails e = false →
  rows db !! Req.IdempotencyKey req = Some r →
  Rec.AttemptCount r ≠ 0 →
  ProcessPayment ttl e db req
  = ProcessPayment_branch e (bumped_db db (Req.IdempotencyKey req) r (now_upsert e)) req
      (mkPending (generatePaymentID (now_id e)) (now_ttl e + ttl)
                 (bumped_row r (now_upsert e)) false).
Proof.
  intros Hv Hf Hr Ha. unfold ProcessPayment, ProcessPayment_upsert.
  rewrite Hv, Hf, (InsertOrGet_existing _ _ _ _ _ _ Hr).
  replace (Rec.AttemptCount r + 1 =? 1) with false; [done|].
  symmetry. apply Z.eqb_neq. lia.
Qed.

Lemma ProcessPayment_fresh ttl e db req :
  validateRequest req = None → upsert_fails e = false →
  rows db !! Req.IdempotencyKey req = None →
  ProcessPayment ttl e db req
  = (mkDB (<[Req.IdempotencyKey req :=
               inserted_row (id_seq db) req (Hash req) (generatePaymentID (now_id e))
                            (now_upsert e) (now_ttl e + ttl)]> (rows db)) (id_seq db + 1),
     (Some (Resp.mk (generatePaymentID (now_id e)) (Req.IdempotencyKey req) StatusProcessing
              "payment accepted for processing" 1 None), 201, None)).
Proof.
  intros Hv Hf Hr. unfold ProcessPayment, ProcessPayment_upsert.
  by rewrite Hv, Hf, (InsertOrGet_fresh _ _ _ _ _ Hr).
Qed.

Lemma ResetToProcessing_no_error db key pid exp now :
  (ResetToProcessing false db key pid exp now).2 = None.
Proof.
  unfold ResetToProcessing. destruct (rows db !! key) as [r|]; [|done].
  by destruct (decide (Rec.Status r = "failed")).
Qed.

(** What the expired branch leaves in the store: the reset happens only
    for a row whose status is [failed]; any other row keeps the upsert's
    bump and nothing else. *)
Lemma expired_branch ttl e db req r :
  validateRequest req = None → upsert_fails e = false → reset_fails e = false →
  rows db !! Req.IdempotencyKey req = Some r →
  Rec.IdempotencyKey r = Req.IdempotencyKey req →
  Rec.AttemptCount r ≠ 0 →
  Rec.ExpiresAt r < now_check e →
  (ProcessPayment ttl e db req).2
  = (Some (Resp.mk (generatePaymentID (now_id e)) (Req.IdempotencyKey req) StatusProcessing
             "expired key reused, payment accepted for processing"
             (Rec.AttemptCount r + 1) None), 201, None) ∧
  rows (ProcessPayment ttl e db req).1 !! Req.IdempotencyKey req
  = Some (if decide (Rec.Status r = "failed")
          then reset_row (bumped_row r (now_upsert e)) (generatePaymentID (now_id e))
                         (now_ttl e + ttl) (now_reset e)
          else bumped_row r (now_upsert e)).
Proof.
  intros Hv Hu Hf Hr Hk Ha Hx.
  rewrite (ProcessPayment_existing _ _ _ _ _ Hv Hu Hr Ha).
  unfold ProcessPayment_branch. cbn [p_isNew p_rec p_paymentID p_expiresAt].
  unfold IsExpired. replace (Rec.ExpiresAt (bumped_row r (now_upsert e)) <? now_check e)
    with true by (symmetry; apply Z.ltb_lt; exact Hx).
  rewrite Hf. cbn [Rec.IdempotencyKey bumped_row]. rewrite Hk.
  unfold ResetToProcessing, bumped_db. cbn [rows]. rewrite lookup_insert_eq.
  cbn [Rec.Status bumped_row]. destruct (decide (Rec.Status r = "failed")).
  - cbn. rewrite lookup_insert_eq. done.
  - cbn. rewrite lookup_insert_eq. done.
Qed.

(** C2. A valid request whose key has a row with [expires_at] before the
    clock reading of the expiry check is answered 201 "expired key reused"
    with the payment id generated by this very call, whatever the row's
    status and request hash are.  (The two database statements execute,
    and the row has a non-zero attempt count, as every row the code
    writes has.) *)
Theorem expired_reuse_takes_precedence (ttl : Time) (e : Env) (db : DB)
    (req : PaymentRequest) (r : IdempotencyRecord) :
  validateRequest req = None →
  upsert_fails e = false → reset_fails e = false →
  rows db !! Req.IdempotencyKey req = Some r →
  Rec.AttemptCount r ≠ 0 →
  Rec.ExpiresAt r < now_check e →
  ∃ resp, (ProcessPayment ttl e db req).2 = (Some resp, 201, None) ∧
          outcome (ProcessPayment ttl e db req).2 = Some Accepted_expired_reused ∧
          Resp.PaymentID resp = generatePaymentID (now_id e).
Proof.
  intros Hv Hu Hf Hr Ha Hx.
  rewrite (ProcessPayment_existing _ _ _ _ _ Hv Hu Hr Ha).
  unfold ProcessPayment_branch. cbn [p_isNew p_rec p_paymentID p_expiresAt].
  unfold IsExpired. replace (Rec.ExpiresAt (bumped_row r (now_upsert e)) <? now_check e)
    with true by (symmetry; apply Z.ltb_lt; exact Hx).
  rewrite Hf.
  destruct (ResetToProcessing false _ _ _ _ _) as [db' o] eqn:Hreset.
  pose proof (ResetToProcessing_no_error
                (bumped_db db (Req.IdempotencyKey req) r (now_upsert e))
                (Rec.IdempotencyKey (bumped_row r (now_upsert e)))
                (generatePaymentID (now_id e)) (now_ttl e + ttl) (now_reset e)) as Hno.
  rewrite Hreset in Hno. cbn in Hno. subst o.
  eexists. cbn [snd]. split; [reflexivity|split; reflexivity].
Qed.

Lemma expired_reuse_takes_precedence_witness :
  ∃ resp, (ProcessPayment one_day (env_at (t0 + 2 * one_day)) db_A req_A).2
          = (Some resp, 201, None) ∧
          outcome (ProcessPayment one_day (env_at (t0 + 2 * one_day)) db_A req_A).2
          = Some Accepted_expired_reused ∧
          Resp.PaymentID resp = generatePaymentID (t0 + 2 * one_day).
Proof.
  apply (expired_reuse_takes_precedence one_day (env_at (t0 + 2 * one_day)) db_A req_A row_A);
    [reflexivity | reflexivity | reflexivity | reflexivity | vm_compute; discriminate
    | vm_compute; reflexivity].
Defined.

(** ** The reset of the expired branch *)

(** For a row whose status is [failed], the expired branch does reset the
    stored row: processing, the fresh payment id, no completion time, and
    the new expiry. *)
Lemma expired_failed_row_is_reset ttl e db req r :
  validateRequest req = None → upsert_fails e = false → reset_fails e = false →
  rows db !! Req.IdempotencyKey req = Some r →
  Rec.IdempotencyKey r = Req.IdempotencyKey req →
  Rec.AttemptCount r ≠ 0 →
  Rec.ExpiresAt r < now_check e →
  Rec.Status r = StatusFailed →
  ∃ r', rows (ProcessPayment ttl e db req).1 !! Req.IdempotencyKey req = Some r' ∧
        Rec.Status r' = StatusProcessing ∧
        Rec.PaymentID r' = generatePaymentID (now_id e) ∧
        Rec.CompletedAt r' = None ∧
        Rec.ExpiresAt r' = now_ttl e + ttl.
Proof.
  intros Hv Hu Hf Hr Hk Ha Hx Hs.
  destruct (expired_branch ttl e db req r Hv Hu Hf Hr Hk Ha Hx) as [_ Hrow].
  rewrite decide_True in Hrow by exact Hs.
  eexists. split; [exact Hrow|]. by repeat split.
Qed.

(** For any other status the stored row keeps its status, payment id,
    completion time and (elapsed) expiry, although the caller is told the
    payment was accepted under the fresh payment id. *)
Lemma expired_other_row_is_kept ttl e db req r :
  validateRequest req = None → upsert_fails e = false → reset_fails e = false →
  rows db !! Req.IdempotencyKey req = Some r →
  Rec.IdempotencyKey r = Req.IdempotencyKey req →
  Rec.AttemptCount r ≠ 0 →
  Rec.ExpiresAt r < now_check e →
  Rec.Status r ≠ StatusFailed →
  outcome (ProcessPayment ttl e db req).2 = Some Accepted_expired_reused ∧
  ∃ r', rows (ProcessPayment ttl e db req).1 !! Req.IdempotencyKey req = Some r' ∧
        same_lifecycle r r'.
Proof.
  intros Hv Hu Hf Hr Hk Ha Hx Hs.
  destruct (expired_branch ttl e db req r Hv Hu Hf Hr Hk Ha Hx) as [Hres Hrow].
  rewrite decide_False in Hrow by exact Hs.
  split; [by rewrite Hres|].
  eexists. split; [exact Hrow|]. by repeat split.
Qed.

(** C1, evaluated on scenario 4.  The second call is answered "expired key
    reused" with a fresh payment id, but the row stored under the key still
    carries the first call's payment id and its elapsed expiry; and when the
    payment had succeeded in between, the row also stays [succeeded] with its
    completion time. *)
Theorem expired_reuse_leaves_row_unreset :
  outcome first_call.2 = Some Accepted_new ∧
  outcome second_call.2 = Some Accepted_expired_reused ∧
  (∃ resp, second_call.2 = (Some resp, 201, None) ∧
           Resp.PaymentID resp = "pay_1700000000010000000") ∧
  (∃ row, rows second_call.1 !! "A" = Some row ∧
          Rec.Status row = StatusProcessing ∧
          Rec.PaymentID row = "pay_1700000000000000000" ∧
          Rec.ExpiresAt row = t0 + 1 ∧
          Rec.ExpiresAt row < t0 + ten_ms) ∧
  completed_between.2 = None ∧
  outcome second_call_after_success.2 = Some Accepted_expired_reused ∧
  (∃ row, rows second_call_after_success.1 !! "A" = Some row ∧
          Rec.Status row = StatusSucceeded ∧
          Rec.PaymentID row = "pay_1700000000000000000" ∧
          Rec.CompletedAt row = Some (t0 + 5) ∧
          Rec.ExpiresAt row = t0 + 1).
Proof.
  split; [by vm_compute|]. split; [by vm_compute|].
  split; [eexists; split; by vm_compute|].
  split; [eexists; split; [by vm_compute|]; repeat (split; [by vm_compute|]); by vm_compute|].
  split; [by vm_compute|]. split; [by vm_compute|].
  eexists; split; [by vm_compute|]; repeat (split; [by vm_compute|]); by vm_compute.
Qed.

(** ** The JSONB column on sample texts *)

(** What PostgreSQL returns for a text written to a [jsonb] column:
    white space and separators, the order of keys and the last of equal
    keys, the form of numbers; and texts it refuses. *)
Example jsonb_vectors :
  Jsonb.render payload_tx = Some payload_tx_stored ∧
  Jsonb.render " [1,2 ,3] " = Some "[1, 2, 3]" ∧
  Jsonb.render ("{" +:+ json_string "bb" +:+ ":1," +:+ json_string "a" +:+ ":2,"
                +:+ json_string "a" +:+ ":[true,null]}")
  = Some ("{" +:+ json_string "a" +:+ ": [true, null], " +:+ json_string "bb" +:+ ": 1}") ∧
  Jsonb.render "1e2" = Some "100" ∧ Jsonb.render "1.50" = Some "1.50" ∧
  Jsonb.render "-0" = Some "0" ∧ Jsonb.render "25E-1" = Some "2.5" ∧
  Jsonb.render "[17]" = Some "[17]" ∧ Jsonb.render "{}" = Some "{}" ∧
  Jsonb.render "[[[[[[[[1]]]]]]]]" = Some "[[[[[[[[1]]]]]]]]" ∧
  Jsonb.render EmptyString = None ∧ Jsonb.render "[1,]" = None ∧
  Jsonb.render "{a:1}" = None ∧ Jsonb.render "01" = None ∧ Jsonb.render "[1] x" = None.
Proof. repeat (split; [by vm_compute|]). by vm_compute. Qed.

(** ** Completion followed by the same request *)

Lemma MarkComplete_processing db key r status body now :
  rows db !! key = Some r → Rec.Status r = StatusProcessing →
  status_allowed status = true → body_accepted body = true →
  Storage.MarkComplete false db key status body now
  = (with_rows db (<[key := completed_row r status body now]> (rows db)), None).
Proof.
  intros Hr Hs Hst Hb. unfold Storage.MarkComplete. cbn [fault_of_bool].
  rewrite Hb, Hr, Hst. cbn [negb]. by rewrite decide_True.
Qed.

Lemma Service_MarkComplete_valid db key status body now :
  status = StatusSucceeded ∨ status = StatusFailed →
  Service.MarkComplete false db key {| creq_Status := status; creq_ResponseBody := body |} now
  = Storage.MarkComplete false db key status body now.
Proof.
  intros Hs. unfold Service.MarkComplete. cbn [creq_Status creq_ResponseBody].
  rewrite decide_False; [done|]. intros [H1 H2]. by destruct Hs.
Qed.

Lemma body_accepted_rendered P P' : Jsonb.render P = Some P' → body_accepted (Some P) = true.
Proof. intros H. unfold body_accepted. rewrite H. by apply bool_decide_eq_true. Qed.

(** C4. On a key whose row is [processing] and not expired: completing it
    as succeeded with a payload [P] that the JSONB column accepts and
    then sending the request whose hash the row carries is answered 200
    (a replay) with the text the column returns for [P] as response
    body, which is [P] byte for byte exactly when [P] is already in the
    form the column prints; completing it as failed (without a payload,
    or with one the column accepts) and then sending that request is
    answered 201 "previous attempt failed, retrying" with the payment id
    generated by the new call, which the row now carries too.  (The
    database statements execute.) *)
Theorem completion_round_trip (ttl : Time) (e : Env) (db : DB) (req : PaymentRequest)
    (r : IdempotencyRecord) (P P' : RawMessage) (body : option RawMessage) (now : Time) :
  validateRequest req = None →
  upsert_fails e = false → reset_fails e = false →
  rows db !! Req.IdempotencyKey req = Some r →
  Rec.IdempotencyKey r = Req.IdempotencyKey req →
  Rec.AttemptCount r ≠ 0 →
  Rec.Status r = StatusProcessing →
  Rec.RequestHash r = Hash req →
  ¬ (Rec.ExpiresAt r < now_check e) →
  Jsonb.render P = Some P' →
  body_accepted body = true →
  (let done :=
     Service.MarkComplete false db (Req.IdempotencyKey req)
       {| creq_Status := StatusSucceeded; creq_ResponseBody := Some P |} now in
   let res := (ProcessPayment ttl e done.1 req).2 in
   done.2 = None ∧
   outcome res = Some Replay ∧
   ∃ resp, res = (Some resp, 200, None) ∧
           Resp.ResponseBody resp = Some P' ∧
           (Resp.ResponseBody resp = Some P ↔ Jsonb.render P = Some P) ∧
           Resp.PaymentID resp = Rec.PaymentID r) ∧
  (let done :=
     Service.MarkComplete false db (Req.IdempotencyKey req)
       {| creq_Status := StatusFailed; creq_ResponseBody := body |} now in
   let res := (ProcessPayment ttl e done.1 req).2 in
   done.2 = None ∧
   outcome res = Some Accepted_retry ∧
   ∃ resp r', res = (Some resp, 201, None) ∧
              Resp.PaymentID resp = generatePaymentID (now_id e) ∧
              rows (ProcessPayment ttl e done.1 req).1 !! Req.IdempotencyKey req = Some r' ∧
              Rec.Status r' = StatusProcessing ∧
              Rec.PaymentID r' = generatePaymentID (now_id e)).
Proof.
  intros Hv Hu Hf Hr Hk Ha Hs Hh Hx HP Hbody.
  assert (Hnx : ∀ r0 : IdempotencyRecord, Rec.ExpiresAt r0 = Rec.ExpiresAt r →
                  IsExpired (now_check e) r0 = false).
  { intros r0 H0. unfold IsExpired. rewrite H0. apply Z.ltb_ge. lia. }
  split; cbn zeta.
  - rewrite Service_MarkComplete_valid by (by left).
    rewrite (MarkComplete_processing _ _ _ _ _ _ Hr Hs)
      by (done || by apply (body_accepted_rendered P P')).
    cbn [fst snd]. split; [done|].
    rewrite (ProcessPayment_existing ttl e _ req (completed_row r StatusSucceeded (Some P) now)
               Hv Hu); [| apply lookup_insert_eq | exact Ha].
    unfold ProcessPayment_branch. cbn [p_isNew p_rec p_paymentID p_expiresAt].
    rewrite Hnx by done. cbn [Rec.Status bumped_row completed_row].
    rewrite decide_False by done. rewrite decide_True by done.
    split; [done|]. eexists. split; [reflexivity|].
    cbn [Resp.ResponseBody Resp.PaymentID Rec.ResponseBody Rec.PaymentID bumped_row
         completed_row stored_body mbind option_bind].
    rewrite HP. split; [done|]. split; [|done].
    split; [by intros [= ->] | by intros [= ->]].
  - rewrite Service_MarkComplete_valid by (by right).
    rewrite (MarkComplete_processing _ _ _ _ _ _ Hr Hs) by done. cbn [fst snd].
    split; [done|].
    rewrite (ProcessPayment_existing ttl e _ req (completed_row r StatusFailed body now)
               Hv Hu); [| apply lookup_insert_eq | exact Ha].
    unfold ProcessPayment_branch. cbn [p_isNew p_rec p_paymentID p_expiresAt].
    rewrite Hnx by done. cbn [Rec.Status Rec.RequestHash bumped_row completed_row].
    rewrite decide_False by done. rewrite decide_False by done.
    rewrite decide_True by done. rewrite decide_False by (intros H; by apply H).
    rewrite Hf. cbn [Rec.IdempotencyKey bumped_row completed_row]. rewrite Hk.
    erewrite ResetToProcessing_failed; [| apply lookup_insert_eq | done].
    split; [done|]. eexists. eexists. split; [reflexivity|].
    split; [done|]. cbn [fst rows with_rows]. rewrite lookup_insert_eq. done.
Qed.

Lemma completion_round_trip_witness :
  let done :=
    Service.MarkComplete false db_A "A"
      {| creq_Status := StatusSucceeded; creq_ResponseBody := Some payload_tx |}
      (t0 + 5) in
  ∃ resp, (ProcessPayment one_day (env_at (t0 + 9)) done.1 req_A).2 = (Some resp, 200, None) ∧
          Resp.ResponseBody resp = Some payload_tx_stored.
Proof.
  destruct (completion_round_trip one_day (env_at (t0 + 9)) db_A req_A row_A
              payload_tx payload_tx_stored None (t0 + 5))
    as [(_ & _ & resp & H1 & H2 & _) _];
    [reflexivity | reflexivity | reflexivity | reflexivity | reflexivity
    | vm_compute; discriminate | reflexivity | reflexivity
    | vm_compute; discriminate | by vm_compute | reflexivity |].
  exists resp. split; assumption.
Defined.

(** The payload of a replay is not always the payload of the completion
    byte for byte, and not up to white space either: completed with the
    payload [[1e2]], the key is replayed with the payload [[100]]. *)
Lemma replay_is_not_byte_identical :
  let P : RawMessage := "[1e2]" in
  let done :=
    Service.MarkComplete false db_A "A"
      {| creq_Status := StatusSucceeded; creq_ResponseBody := Some P |} (t0 + 5) in
  let res := (ProcessPayment one_day (env_at (t0 + 9)) done.1 req_A).2 in
  validateRequest req_A = None ∧
  (∃ r, rows db_A !! "A" = Some r ∧ Rec.Status r = StatusProcessing ∧
        Rec.RequestHash r = Hash req_A ∧ ¬ (Rec.ExpiresAt r < t0 + 9)) ∧
  done.2 = None ∧
  outcome res = Some Replay ∧
  ∃ resp, res = (Some resp, 200, None) ∧
          Resp.ResponseBody resp = Some "[100]" ∧
          Resp.ResponseBody resp ≠ Some P.
Proof.
  cbn zeta. split; [by vm_compute|]. split.
  { exists row_A. split; [by vm_compute|]. split; [done|]. split; [by vm_compute|].
    vm_compute. by intros [=]. }
  split; [by vm_compute|]. split; [by vm_compute|].
  eexists. split; [by vm_compute|]. split; by vm_compute.
Qed.

(** ** Payment identifiers *)

Lemma generatePaymentID_inj t1 t2 :
  generatePaymentID t1 = generatePaymentID t2 → t1 = t2.
Proof.
  unfold generatePaymentID, Fmt.d. cbn [String.append]. intros H.
  injection H as H. by apply (inj pretty).
Qed.

(** C10, as the code has it.  The identifier is "pay_" followed by the
    decimal clock reading and nothing else: two identifiers are equal
    exactly when the two clock readings are, and every accepted answer
    (201) of a call carries the identifier of that call's clock reading,
    whatever the request, the store and the retention. *)
Theorem payment_id_is_the_clock_reading :
  (∀ t1 t2 : Time, generatePaymentID t1 = generatePaymentID t2 ↔ t1 = t2) ∧
  (∀ (ttl : Time) (e : Env) (db : DB) (req : PaymentRequest) (resp : PaymentResponse),
     (∀ r, rows db !! Req.IdempotencyKey req = Some r → Rec.AttemptCount r ≠ 0) →
     (ProcessPayment ttl e db req).2 = (Some resp, 201, None) →
     Resp.PaymentID resp = generatePaymentID (now_id e)).
Proof.
  split.
  - intros t1 t2. split; [apply generatePaymentID_inj | by intros ->].
  - intros ttl e db req resp Ha.
    destruct (validateRequest req) as [err|] eqn:Hv.
    { unfold ProcessPayment, ProcessPayment_upsert. rewrite Hv. discriminate. }
    destruct (upsert_fails e) eqn:Hu.
    { unfold ProcessPayment, ProcessPayment_upsert, InsertOrGet. rewrite Hv, Hu. discriminate. }
    destruct (rows db !! Req.IdempotencyKey req) as [r|] eqn:Hr.
    + rewrite (ProcessPayment_existing _ _ _ _ _ Hv Hu Hr (Ha r eq_refl)).
      unfold ProcessPayment_branch. cbn [p_isNew p_rec p_paymentID p_expiresAt].
      repeat match goal with
             | |- context [ResetToProcessing ?f ?d ?k ?p ?x ?n] =>
                 destruct (ResetToProcessing f d k p x n) as [? []]
             | |- context [if ?b then _ else _] => destruct b
             end; cbn [snd]; intros H; inversion H; reflexivity.
    + rewrite (ProcessPayment_fresh _ _ _ _ Hv Hu Hr). cbn [snd].
      intros H; inversion H; reflexivity.
Qed.

Lemma payment_id_is_the_clock_reading_witness :
  Resp.PaymentID (Resp.mk (generatePaymentID t0) "A" StatusProcessing
                    "payment accepted for processing" 1 None)
  = generatePaymentID (now_id (env_at t0)).
Proof.
  apply (proj2 payment_id_is_the_clock_reading one_day (env_at t0) empty_db req_A).
  - intros r Hr. vm_compute in Hr. discriminate.
  - vm_compute. reflexivity.
Defined.

(** Two different requests, on different keys, handled at the same clock
    reading are both accepted as new under one and the same payment id. *)
Lemma payment_id_collision :
  let c1 := ProcessPayment one_day (env_at t0) empty_db req_A in
  let c2 := ProcessPayment one_day (env_at t0) c1.1 req_B in
  req_A ≠ req_B ∧
  outcome c1.2 = Some Accepted_new ∧ outcome c2.2 = Some Accepted_new ∧
  ∃ resp1 resp2, c1.2 = (Some resp1, 201, None) ∧ c2.2 = (Some resp2, 201, None) ∧
                 Resp.PaymentID resp1 = Resp.PaymentID resp2.
Proof.
  cbn zeta. split; [discriminate|].
  split; [by vm_compute|]. split; [by vm_compute|].
  eexists. eexists. split; [by vm_compute|]. split; by vm_compute.
Qed.

(** ** Where a response payload can sit *)

Lemma payload_invariant_step db op :
  payload_goes_with_success op →
  payload_only_when_succeeded db → payload_only_when_succeeded (apply_op db op).
Proof.
  intros Hop Hinv. destruct op as [req pid exp now | key st body now | key pid exp now];
    cbn [apply_op].
  - destruct (rows db !! Req.IdempotencyKey req) as [r0|] eqn:Hr0;
      [rewrite (InsertOrGet_existing _ _ _ _ _ _ Hr0)
      |rewrite (InsertOrGet_fresh _ _ _ _ _ Hr0)];
      intros k r Hk; cbn [fst rows] in Hk;
      (destruct (decide (k = Req.IdempotencyKey req)) as [->|Hne];
        [rewrite lookup_insert_eq in Hk; injection Hk as <-
        |rewrite lookup_insert_ne in Hk by done; by apply (Hinv k)]).
    + cbn. by apply (Hinv _ _ Hr0).
    + cbn. done.
  - destruct (MarkComplete_cases false db key st body now)
      as [[err ->] | (r0 & Hr0 & _ & _ & _ & _ & ->)]; [exact Hinv|].
    intros k r Hk. cbn [fst rows with_rows] in Hk.
    destruct (decide (k = key)) as [->|Hne].
    + rewrite lookup_insert_eq in Hk. injection Hk as <-.
      cbn [Rec.ResponseBody Rec.Status completed_row].
      destruct body; [exact (λ _, Hop) | done].
    + rewrite lookup_insert_ne in Hk by done. by apply (Hinv k).
  - unfold ResetToProcessing.
    destruct (rows db !! key) as [r0|] eqn:Hr0; [|exact Hinv].
    destruct (decide (Rec.Status r0 = "failed")) as [Hs|]; [|exact Hinv].
    intros k r Hk. cbn [fst rows with_rows] in Hk.
    destruct (decide (k = key)) as [->|Hne].
    + rewrite lookup_insert_eq in Hk. injection Hk as <-. cbn. intros Hb.
      specialize (Hinv _ _ Hr0 Hb). rewrite Hs in Hinv. discriminate.
    + rewrite lookup_insert_ne in Hk by done. by apply (Hinv k).
Qed.

Lemma payload_invariant_run ops db :
  Forall payload_goes_with_success ops →
  payload_only_when_succeeded db → payload_only_when_succeeded (fold_left apply_op ops db).
Proof.
  intros Hops. revert db. induction Hops as [|op ops Hop _ IH]; intros db Hinv; [exact Hinv|].
  cbn [fold_left]. apply IH. by apply payload_invariant_step.
Qed.

(** C6, as the code has it.  In every store reached from the empty one by
    upserts, completions and resets in which a payload is supplied only
    together with the target status [succeeded], a row carries a payload
    only when its status is [succeeded]. *)
Theorem payload_only_on_succeeded_rows (ops : list StoreOp) :
  Forall payload_goes_with_success ops →
  payload_only_when_succeeded (reachable_by ops).
Proof.
  intros Hops. apply payload_invariant_run; [exact Hops|].
  intros k r Hk. cbn [rows empty_db] in Hk. by rewrite lookup_empty in Hk.
Qed.

Lemma payload_only_on_succeeded_rows_witness :
  payload_only_when_succeeded
    (reachable_by [ insert_or_bump req_A "pay_1" (t0 + one_day) t0;
                    conditional_complete "A" StatusSucceeded (Some "[17]") (t0 + 5);
                    conditional_complete "A" StatusFailed None (t0 + 6);
                    reset_to_processing "A" "pay_2" (t0 + one_day) (t0 + 7) ]).
Proof.
  apply payload_only_on_succeeded_rows.
  repeat constructor.
Defined.

(** A completion as failed that supplies a payload stores it: the row is
    [failed] and carries the payload. *)
Lemma payload_on_failed_row :
  ¬ payload_only_when_succeeded (reachable_by failed_with_payload).
Proof.
  intros H.
  assert (Hrow : ∃ r, rows (reachable_by failed_with_payload) !! "A" = Some r ∧
                      Rec.ResponseBody r = Some "[17]" ∧ Rec.Status r = StatusFailed).
  { eexists. split; [by vm_compute|]. split; by vm_compute. }
  destruct Hrow as (r & Hr & Hb & Hs).
  specialize (H "A" r Hr). rewrite Hb, Hs in H. specialize (H ltac:(discriminate)).
  discriminate.
Qed.

(** ** The window of the monitor *)

Lemma count_entries now w a b :
  fold_left (Monitor.count_entry (now - Monitor.windowDuration)) w (a, b)
  = (a + Z.of_nat (countb (in_window now) w), b + Z.of_nat (countb (dup_in_window now) w)).
Proof.
  revert a b. induction w as [|en w IH]; intros a b; cbn [fold_left].
  - unfold countb. cbn. f_equal; lia.
  - unfold Monitor.count_entry at 2. unfold countb, dup_in_window, in_window in *.
    cbn [List.filter fst snd].
    destruct (now - Monitor.windowDuration <? Monitor.ts en); cbn [andb].
    + destruct (Monitor.isDuplicate en); rewrite IH; cbn [length]; f_equal; lia.
    + by rewrite IH.
Qed.

(** The snapshot counts the entries younger than five minutes and the
    duplicates among them, and flags the float64 rate when it is above 20. *)
Lemma Snapshot_window now m :
  Monitor.WindowRequests (Monitor.Snapshot now m)
  = Z.of_nat (countb (in_window now) (Monitor.window m)) ∧
  Monitor.WindowDuplicates (Monitor.Snapshot now m)
  = Z.of_nat (countb (dup_in_window now) (Monitor.window m)) ∧
  Monitor.AnomalyDetected (Monitor.Snapshot now m)
  = Float64.gtb (Monitor.dupRate (Z.of_nat (countb (dup_in_window now) (Monitor.window m)))
                                 (Z.of_nat (countb (in_window now) (Monitor.window m))))
                (Float64.of_int 20).
Proof.
  unfold Monitor.Snapshot. rewrite count_entries. cbn. done.
Qed.

Lemma upto_spec n x : 0 <= x <= Z.of_nat n → In x (upto n).
Proof.
  induction n as [|n IH]; intros Hx; cbn [upto].
  - left. lia.
  - destruct (decide (x = Z.of_nat (S n))) as [->|Hne]; [by left|]. right. apply IH. lia.
Qed.

(** For windows of at most a hundred entries the float64 comparison is
    exact: the flag is raised exactly when 100 × dups > 20 × reqs. *)
Lemma flag_exact_small_window dups reqs :
  0 <= dups <= reqs → reqs <= 100 →
  Float64.gtb (Monitor.dupRate dups reqs) (Float64.of_int 20) = (20 * reqs <? 100 * dups).
Proof.
  intros Hd Hr.
  assert (Hall : forallb (fun reqs => forallb (fun dups => flag_agrees dups reqs)
                                              (upto (Z.to_nat reqs)))
                         (upto 100) = true) by (vm_compute; reflexivity).
  pose proof (proj1 (forallb_forall _ _) Hall reqs (upto_spec 100 reqs ltac:(lia))) as H1.
  cbn beta in H1.
  pose proof (proj1 (forallb_forall _ _) H1 dups
                (upto_spec (Z.to_nat reqs) dups ltac:(lia))) as H2.
  cbn beta in H2. unfold flag_agrees in H2. by apply eqb_prop in H2.
Qed.

(** Exactly one fifth of duplicates does not raise the flag; one more
    duplicate does. *)
Example anomaly_threshold_is_strict :
  Float64.gtb (Monitor.dupRate 2 10) (Float64.of_int 20) = false ∧
  Float64.gtb (Monitor.dupRate 3 10) (Float64.of_int 20) = true ∧
  Float64.gtb (Monitor.dupRate 0 0) (Float64.of_int 20) = false.
Proof. repeat split; by vm_compute. Qed.

(** Each outcome of the decision protocol reaches the recorder given by
    [recorder_of]: accepted outcomes are recorded as new, in-progress,
    replay and mismatch as duplicates, and so is an invalid request. *)
Lemma recorder_by_outcome ttl e now db m req o :
  outcome (ProcessPayment ttl e db req).2 = Some o →
  (Server.withMetrics ttl e now (db, m) (post req)).2
  = match recorder_of o with
    | Some record => record now m
    | None => m
    end.
Proof.
  unfold Server.withMetrics, Server.HandleProcessPayment, post.
  cbn [Server.http_method Server.http_body fst snd].
  rewrite decide_False by (intros H; by apply H).
  destruct (ProcessPayment ttl e db req) as [db' [[resp code] err]]. cbn [snd].
  unfold outcome.
  destruct resp as [resp|], code as [|[p|p|]|], err as [err|]; try discriminate;
    repeat (match goal with
            | |- context [match ?p with xI _ => _ | xO _ => _ | xH => _ end] => destruct p
            | |- context [if ?b then _ else _] => destruct b
            | |- context [match ?x with ErrParamsMismatch => _ | _ => _ end] => destruct x
            end; try discriminate);
    intros H; injection H as <-; reflexivity.
Qed.

(** ** What the anomaly monitor counts *)

Lemma invalid_request_is_422 ttl e db req err :
  validateRequest req = Some err →
  ProcessPayment ttl e db req = (db, (None, 422, Some err)) ∧
  (∃ msg, err = ErrValidation msg) ∧
  outcome (None, 422, Some err) = Some InvalidRequest.
Proof.
  intros Hv. unfold ProcessPayment, ProcessPayment_upsert. rewrite Hv.
  split; [done|]. unfold validateRequest in Hv.
  repeat match type of Hv with
         | (if ?b then _ else _) = _ => destruct b
         end; try discriminate; injection Hv as <-; (split; [by eexists | done]).
Qed.

(** A request that fails validation is recorded by [RecordMismatch]: it
    enters the window as a duplicate and bumps [ParamMismatches]. *)
Lemma invalid_request_recorded_as_mismatch ttl e now db m req err :
  validateRequest req = Some err →
  Server.withMetrics ttl e now (db, m) (post req) = (db, Monitor.RecordMismatch now m).
Proof.
  intros Hv. unfold Server.withMetrics, Server.HandleProcessPayment, post.
  cbn [Server.http_method Server.http_body fst snd].
  rewrite decide_False by (intros H; by apply H).
  destruct (invalid_request_is_422 ttl e db req err Hv) as [-> _]. done.
Qed.

(** C9, evaluated.  After three new payments on three distinct keys and
    one request without merchant id (InvalidRequest, no duplicate, replay
    or mismatch anywhere), the snapshot counts one duplicate among four
    window entries, one parameter mismatch, and raises the anomaly flag. *)
Theorem invalid_request_raises_anomaly :
  outcome (ProcessPayment one_day (env_at t0) empty_db req_invalid).2 = Some InvalidRequest ∧
  let snap := Monitor.Snapshot t0 three_new_one_invalid.2 in
  Monitor.snap_NewPayments snap = 3 ∧
  Monitor.snap_DuplicateBlocked snap = 0 ∧
  Monitor.snap_CachedResponses snap = 0 ∧
  Monitor.snap_ParamMismatches snap = 1 ∧
  Monitor.WindowRequests snap = 4 ∧
  Monitor.WindowDuplicates snap = 1 ∧
  Monitor.WindowDupRate snap = Float64.of_int 25 ∧
  Monitor.AnomalyDetected snap = true.
Proof.
  split; [by vm_compute|]. cbn zeta.
  repeat (split; [by vm_compute|]). by vm_compute.
Qed.

(** ** The request fingerprint *)

Example hash_scenario :
  canonical (Req.mk "key-1" "merchant-1" "customer-1" 10000 "BRL")
  = "merchant-1|customer-1|10000|BRL" ∧
  Hash (Req.mk "key-1" "merchant-1" "customer-1" 10000 "BRL")
  = "6e41d3123cc19ff5e0712453c9c8ae03be9c1fbd5182fae16609007241cf3d63".
Proof. split; by vm_compute. Qed.

Lemma split_at_bar s1 s2 r1 r2 :
  bar_free s1 → bar_free s2 →
  s1 +:+ String "|" r1 = s2 +:+ String "|" r2 → s1 = s2 ∧ r1 = r2.
Proof.
  revert s2. induction s1 as [|c s1 IH]; intros [|c' s2]; cbn; intros H1 H2 Heq.
  - by injection Heq as ->.
  - injection Heq as <- _. by destruct H2.
  - injection Heq as -> _. by destruct H1.
  - injection Heq as -> Heq. destruct H1 as [_ H1], H2 as [_ H2].
    destruct (IH s2 H1 H2 Heq) as [-> ->]. done.
Qed.

Lemma pretty_N_go_bar_free (x : N) s : bar_free s → bar_free (pretty_N_go x s).
Proof.
  revert s. induction (N.lt_wf_0 x) as [x _ IH]; intros s Hs.
  assert (x = 0 ∨ 0 < x)%N as [->|Hx] by lia.
  - by rewrite pretty_N_go_0.
  - rewrite pretty_N_go_step by done. apply IH; [by apply N.div_lt|].
    split; [|done]. unfold pretty_N_char. by repeat case_match.
Qed.

Lemma decimal_bar_free (z : Z) : bar_free (Fmt.d z).
Proof.
  assert (HN : ∀ n : N, bar_free (pretty n)).
  { intros n. unfold pretty, pretty_N. case_decide; [by cbn|].
    by apply pretty_N_go_bar_free. }
  unfold Fmt.d, pretty, pretty_Z. destruct z as [|p|p].
  - by cbn.
  - apply HN.
  - cbn. split; [done|]. apply HN.
Qed.

Lemma canonical_inj p q :
  bar_free (Req.MerchantID p) → bar_free (Req.CustomerID p) →
  bar_free (Req.MerchantID q) → bar_free (Req.CustomerID q) →
  canonical p = canonical q → same_parameters p q.
Proof.
  intros Hmp Hcp Hmq Hcq. unfold canonical. cbn [String.append]. intros H.
  apply split_at_bar in H as [Hm H]; [|done..].
  apply split_at_bar in H as [Hc H]; [|done..].
  apply split_at_bar in H as [Ha H]; [|apply decimal_bar_free..].
  apply (inj pretty) in Ha. done.
Qed.

(** The digest is a function of the four payment parameters alone, so
    equal parameters give equal digests whatever the idempotency keys;
    and two requests whose merchant and customer ids contain no '|' and
    that differ in one of the four parameters have different canonical
    encodings. *)
Lemma fingerprint_properties :
  (∀ p q : PaymentRequest, same_parameters p q → Hash p = Hash q) ∧
  (∀ p q : PaymentRequest,
     bar_free (Req.MerchantID p) → bar_free (Req.CustomerID p) →
     bar_free (Req.MerchantID q) → bar_free (Req.CustomerID q) →
     ¬ same_parameters p q → canonical p ≠ canonical q).
Proof.
  split.
  - intros p q (Hm & Hc & Ha & Hcur). unfold Hash, canonical.
    by rewrite Hm, Hc, Ha, Hcur.
  - intros p q Hmp Hcp Hmq Hcq Hne Heq. apply Hne. by apply canonical_inj.
Qed.

Lemma fingerprint_properties_witness :
  Hash req_A = Hash (Req.mk "another-key" "m1" "c1" 5000 "BRL") ∧
  canonical req_A ≠ canonical (Req.mk "A" "m1" "c1" 5001 "BRL").
Proof.
  split.
  - apply (proj1 fingerprint_properties). by vm_compute.
  - apply (proj2 fingerprint_properties); cbn; try by (repeat split).
    intros (_ & _ & Ha & _). cbn in Ha. discriminate.
Defined.

(** C5. The digest does not tell every change of the four parameters:
    the requests of the repository's own test differ in the amount and
    have different digests, as the test says they should, but two valid
    requests that differ in merchant id and customer id ("a|b" with "c",
    and "a" with "b|c") have one and the same encoding and so one and
    the same digest, the SHA-256 of "a|b|c|5000|BRL".  Sent on one key
    one after the other, the second is answered as a duplicate in
    progress, not as a parameter mismatch. *)
Theorem fingerprint_collision :
  Hash (Req.mk "key-1" "merchant-1" "customer-1" 10000 "BRL")
  ≠ Hash (Req.mk "key-1" "merchant-1" "customer-1" 20000 "BRL") ∧
  validateRequest req_ab_c = None ∧ validateRequest req_a_bc = None ∧
  Req.MerchantID req_ab_c ≠ Req.MerchantID req_a_bc ∧
  Req.CustomerID req_ab_c ≠ Req.CustomerID req_a_bc ∧
  ¬ same_parameters req_ab_c req_a_bc ∧
  canonical req_ab_c = "a|b|c|5000|BRL" ∧ canonical req_a_bc = "a|b|c|5000|BRL" ∧
  Hash req_ab_c = "0935b6ab98887a7cbaa9c3af83181667d1cb9e2829e39c1f793338e2b937e7d0" ∧
  Hash req_a_bc = "0935b6ab98887a7cbaa9c3af83181667d1cb9e2829e39c1f793338e2b937e7d0" ∧
  outcome (ProcessPayment one_day (env_at (t0 + ten_ms))
             (ProcessPayment one_day (env_at t0) empty_db req_ab_c).1 req_a_bc).2
  = Some Rejected_in_progress.
Proof.
  split; [by vm_compute|]. split; [by vm_compute|]. split; [by vm_compute|].
  split; [discriminate|]. split; [discriminate|].
  split; [intros [H _]; discriminate|].
  split; [by vm_compute|]. split; [by vm_compute|].
  split; [by vm_compute|]. split; by vm_compute.
Qed.

(** ** int64 arithmetic *)

Lemma wrap_in_range x : Int64.in_range x → Int64.wrap x = x.
Proof.
  unfold Int64.in_range, Int64.min_int, Int64.max_int, Int64.wrap. intros H.
  rewrite Z.mod_small; lia.
Qed.

Lemma wrap_range x : Int64.in_range (Int64.wrap x).
Proof.
  unfold Int64.in_range, Int64.min_int, Int64.max_int, Int64.wrap.
  pose proof (Z.mod_pos_bound (x + 2 ^ 63) (2 ^ 64) ltac:(lia)). lia.
Qed.

Lemma wrap_shift x k : Int64.wrap (x + k * 2 ^ 64) = Int64.wrap x.
Proof.
  unfold Int64.wrap. replace (x + k * 2 ^ 64 + 2 ^ 63) with (x + 2 ^ 63 + k * 2 ^ 64) by lia.
  by rewrite Z_mod_plus_full.
Qed.

Lemma wrap_decompose x : ∃ k, Int64.wrap x = x + k * 2 ^ 64.
Proof.
  exists (- ((x + 2 ^ 63) / 2 ^ 64)). unfold Int64.wrap.
  rewrite Z.mod_eq by lia. lia.
Qed.

Lemma wrap_add_l x y : Int64.wrap (Int64.wrap x + y) = Int64.wrap (x + y).
Proof.
  destruct (wrap_decompose x) as [k ->].
  replace (x + k * 2 ^ 64 + y) with (x + y + k * 2 ^ 64) by lia. apply wrap_shift.
Qed.



Lemma wrap_sub_l x y : Int64.wrap (Int64.wrap x - y) = Int64.wrap (x - y).
Proof.
  destruct (wrap_decompose x) as [k ->].
  replace (x + k * 2 ^ 64 - y) with (x - y + k * 2 ^ 64) by lia. apply wrap_shift.
Qed.


(** ** Lists of rows *)


Lemma filter_filter {A} (f g : A → bool) (l : list A) :
  List.filter g (List.filter f l) = List.filter (fun x => f x && g x) l.
Proof.
  induction l as [|x l IH]; cbn; [done|].
  destruct (f x); cbn; [destruct (g x)|]; by rewrite ?IH.
Qed.

Lemma filter_ext_Forall {A} (f g : A → bool) (l : list A) :
  (∀ x, f x = g x) → List.filter f l = List.filter g l.
Proof. intros H. induction l as [|x l IH]; cbn; [done|]. by rewrite H, IH. Qed.

Lemma Forall_filter_bool {A} (P : A → Prop) (f : A → bool) (l : list A) :
  Forall P l → Forall P (List.filter f l).
Proof.
  induction 1 as [|x l Hx _ IH]; cbn; [done|]. destruct (f x); [by constructor | done].
Qed.


Lemma insert_desc_perm r l : insert_desc r l ≡ₚ r :: l.
Proof.
  induction l as [|x l IH]; cbn; [done|].
  destruct (Rec.AttemptCount x <? Rec.AttemptCount r); [done|].
  rewrite IH. apply perm_swap.
Qed.

Lemma order_by_attempts_desc_perm l : order_by_attempts_desc l ≡ₚ l.
Proof.
  induction l as [|x l IH]; cbn; [done|]. rewrite insert_desc_perm. by constructor.
Qed.

Lemma GetDuplicates_perm db m from to :
  GetDuplicates db m from to ≡ₚ duplicate_rows db m from to.
Proof.
  unfold GetDuplicates, duplicate_rows, rows_in_range.
  rewrite order_by_attempts_desc_perm, filter_filter. done.
Qed.





(** ** The loop of the duplicate report *)

Lemma loop_suspicious l a :
  Reporting.suspicious (fold_left Reporting.loop_body l a)
  = Reporting.suspicious a
    ++ map Reporting.to_suspicious (List.filter (fun r => 3 <? Rec.AttemptCount r) l).
Proof.
  revert a. induction l as [|d l IH]; intros a; cbn [fold_left List.filter map].
  - by rewrite app_nil_r.
  - rewrite IH. cbn [Reporting.loop_body Reporting.suspicious].
    unfold Reporting.suspiciousThreshold.
    destruct (3 <? Rec.AttemptCount d); [|done].
    by rewrite <- app_assoc.
Qed.







Lemma GetMerchantStats_eq db m from to :
  GetMerchantStats db m from to
  = (total_attempts (rows_in_range db m from to),
     Z.of_nat (length (rows_in_range db m from to))).
Proof. reflexivity. Qed.







(** The report on the small store, computed. *)
Example duplicate_report_sample :
  ∃ rep,
    Reporting.GetDuplicateReport false false sample_store "m1" 0 (t0 + one_day) = inr rep ∧
    rep_TotalRequests rep = 8 ∧ rep_UniquePayments rep = 3 ∧ rep_DuplicateCount rep = 5 ∧
    map sk_IdempotencyKey (rep_SuspiciousKeys rep) = ["C"] ∧
    rep_AmountAtRisk rep = 9800 ∧
    rep_CurrencyBreakdown rep !! "BRL" = Some 9800 ∧
    rep_CurrencyBreakdown rep !! "USD" = None.
Proof.
  eexists. split; [by vm_compute|]. repeat (split; [by vm_compute|]). by vm_compute.
Qed.

(** ** Racing calls on one key *)

Lemma countb_insert {A} (f : A → bool) (l : list A) (i : nat) (x y : A) :
  l !! i = Some x →
  (countb f (<[i:=y]> l) + Nat.b2n (f x) = countb f l + Nat.b2n (f y))%nat.
Proof.
  unfold countb. revert i. induction l as [|z l IH]; intros [|i] Hi; try discriminate.
  - injection Hi as ->. cbn. destruct (f x), (f y); cbn; lia.
  - cbn in Hi. specialize (IH i Hi). cbn in *.
    destruct (f z); cbn in *; [f_equal|]; exact IH.
Qed.

Lemma countb_partition {A} (f g : A → bool) (l : list A) :
  Forall (fun x => xorb (f x) (g x) = true) l →
  (countb f l + countb g l = length l)%nat.
Proof.
  unfold countb. induction 1 as [|x l Hx _ IH]; cbn; [done|].
  destruct (f x), (g x); cbn in *; try discriminate; lia.
Qed.

Lemma countb_ext_Forall {A} (f g : A → bool) (l : list A) :
  Forall (fun x => f x = g x) l → countb f l = countb g l.
Proof.
  unfold countb. induction 1 as [|x l Hx _ IH]; cbn; [done|].
  rewrite Hx. destruct (g x); cbn; lia.
Qed.

(** A step of thread [i] brings it closer to returning and leaves the
    progress of every other thread alone. *)
Lemma step_progress ttl cfg i j :
  (match (Race.step ttl cfg i).2 !! j, cfg.2 !! j with
   | Some t', Some t =>
       if decide (i = j) then steps_left t' <= Nat.pred (steps_left t)
       else steps_left t' = steps_left t
   | None, None => True
   | _, _ => False
   end)%nat.
Proof.
  unfold Race.step. destruct (cfg.2 !! i) as [t|] eqn:Hi.
  - assert (Hlt : (i < length cfg.2)%nat) by (by eapply lookup_lt_Some).
    destruct t as [e req | e req p | res].
    + destruct (ProcessPayment_upsert ttl e cfg.1 req) as [db' [res|p]]; cbn [snd];
        (destruct (decide (i = j)) as [<-|Hne];
         [rewrite list_lookup_insert_eq by done; rewrite Hi; cbn; lia
         |rewrite list_lookup_insert_ne by done; by destruct (cfg.2 !! j)]).
    + destruct (ProcessPayment_branch e cfg.1 req p) as [db' res]; cbn [snd].
      destruct (decide (i = j)) as [<-|Hne];
        [rewrite list_lookup_insert_eq by done; rewrite Hi; cbn; lia
        |rewrite list_lookup_insert_ne by done; by destruct (cfg.2 !! j)].
    + destruct (decide (i = j)) as [<-|Hne]; [rewrite Hi; cbn; lia | by destruct (cfg.2 !! j)].
  - destruct (decide (i = j)) as [<-|Hne]; [by rewrite Hi | by destruct (cfg.2 !! j)].
Qed.

Lemma run_progress ttl schedule cfg j t :
  cfg.2 !! j = Some t →
  ∃ t', (Race.run ttl cfg schedule).2 !! j = Some t' ∧
        (steps_left t' <= steps_left t - count_occ Nat.eq_dec schedule j)%nat.
Proof.
  revert cfg t. induction schedule as [|i schedule IH]; intros cfg t Hj.
  - exists t. split; [done|]. cbn. lia.
  - cbn [Race.run fold_left]. pose proof (step_progress ttl cfg i j) as Hstep.
    rewrite Hj in Hstep.
    destruct ((Race.step ttl cfg i).2 !! j) as [t1|] eqn:H1; [|done].
    destruct (IH (Race.step ttl cfg i) t1 H1) as (t' & Ht' & Hle).
    exists t'. split; [exact Ht'|]. cbn [count_occ].
    destruct (decide (i = j)) as [->|Hne].
    + destruct (Nat.eq_dec j j); [|done]. lia.
    + destruct (Nat.eq_dec i j); [done|]. lia.
Qed.

(** Every call returns once it has been scheduled twice. *)
Lemma fair_schedule_finishes ttl db es req schedule :
  (∀ i, (i < length es)%nat → (2 <= count_occ Nat.eq_dec schedule i)%nat) →
  Forall (fun t => Race.finished t = true)
         (Race.run ttl (db, initial_threads es req) schedule).2.
Proof.
  intros Hfair. apply Forall_lookup. intros j t' Hj.
  assert (Hlen : ∀ sch cfg, length (Race.run ttl cfg sch).2 = length cfg.2).
  { induction sch as [|i sch IH]; intros cfg; [done|]. cbn [Race.run fold_left].
    unfold Race.run in IH. rewrite IH. unfold Race.step.
    destruct (cfg.2 !! i) as [[e q|e q p|res]|]; [| |done|done].
    - destruct (ProcessPayment_upsert ttl e cfg.1 q) as [db' [res|p]]; cbn;
        by rewrite length_insert.
    - destruct (ProcessPayment_branch e cfg.1 q p) as [db' res]; cbn;
        by rewrite length_insert. }
  assert (Hlt : (j < length es)%nat).
  { apply lookup_lt_Some in Hj. rewrite Hlen in Hj. cbn in Hj.
    unfold initial_threads in Hj. by rewrite length_map in Hj. }
  destruct (lookup_lt_is_Some_2 es j Hlt) as [e He].
  destruct (run_progress ttl schedule (db, initial_threads es req) j (Race.Start e req))
    as (t1 & Ht1 & Hle).
  { cbn. unfold initial_threads. by rewrite list_lookup_fmap, He. }
  rewrite Hj in Ht1. injection Ht1 as <-. specialize (Hfair j Hlt). cbn in Hle.
  destruct t'; cbn in *; [lia | lia | done].
Qed.

(** A call that runs alone is [ProcessPayment]. *)
Lemma solo_run_is_ProcessPayment ttl e db req :
  Race.run ttl (db, [Race.Start e req]) [0; 0]%nat
  = ((ProcessPayment ttl e db req).1, [Race.Done (ProcessPayment ttl e db req).2]).
Proof.
  unfold Race.run, ProcessPayment. cbn [fold_left]. unfold Race.step at 2.
  cbn [fst snd lookup list_lookup].
  destruct (ProcessPayment_upsert ttl e db req) as [db' [res|p]];
    unfold Race.step; cbn [fst snd lookup list_lookup insert list_insert]; [done|].
  by destruct (ProcessPayment_branch e db' req p).
Qed.

Lemma run_length ttl schedule cfg :
  length (Race.run ttl cfg schedule).2 = length cfg.2.
Proof.
  revert cfg. induction schedule as [|i schedule IH]; intros cfg; [done|].
  cbn [Race.run fold_left]. unfold Race.run in IH. rewrite IH. unfold Race.step.
  destruct (cfg.2 !! i) as [[e q|e q p|res]|]; [| |done|done].
  - destruct (ProcessPayment_upsert ttl e cfg.1 q) as [db' [res|p]]; cbn;
      by rewrite length_insert.
  - destruct (ProcessPayment_branch e cfg.1 q p) as [db' res]; cbn;
      by rewrite length_insert.
Qed.

Section SingleWinner.
Variable ttl : Time.
Variable req : PaymentRequest.
Variable es : list Env.
Hypothesis Hvalid : validateRequest req = None.
Hypothesis Hstore : ∀ e, e ∈ es → upsert_fails e = false.
(* no call's expiry check reads a time past the expiry any call computes *)
Hypothesis Hfresh : ∀ e e', e ∈ es → e' ∈ es → now_check e' <= now_ttl e + ttl.

Lemma race_inv_init db :
  rows db !! Req.IdempotencyKey req = None →
  race_inv ttl es req (db, initial_threads es req).
Proof.
  intros Hnone. unfold race_inv. cbn [fst snd]. rewrite Hnone.
  unfold initial_threads. split; [|split].
  - apply Forall_fmap, Forall_forall. intros e He. by cbn.
  - apply Forall_fmap, Forall_forall. intros e He. by cbn.
  - unfold countb. induction es as [|e l IH]; [done|]. cbn. apply IH.
    + intros e0 H0. apply Hstore. by right.
    + intros e0 e1 H0 H1. apply Hfresh; by right.
Qed.

Lemma in_flight_bumped r now : in_flight ttl es req r → in_flight ttl es req (bumped_row r now).
Proof. intros (Hs & Hh & Ha & He). repeat split; cbn; try done. lia. Qed.

Lemma branch_of_winner e db p :
  p_isNew p = true →
  ∃ res, ProcessPayment_branch e db req p = (db, res) ∧ outcome res = Some Accepted_new.
Proof.
  intros Hnew. unfold ProcessPayment_branch. rewrite Hnew.
  eexists. split; [reflexivity|]. by vm_compute.
Qed.

Lemma branch_of_loser e db p :
  e ∈ es → p_isNew p = false → in_flight ttl es req (p_rec p) →
  ∃ res, ProcessPayment_branch e db req p = (db, res) ∧
         outcome res = Some Rejected_in_progress.
Proof.
  intros He Hnew (Hs & Hh & Ha & e0 & He0 & Hx).
  unfold ProcessPayment_branch. rewrite Hnew.
  unfold IsExpired. rewrite Hx.
  replace (now_ttl e0 + ttl <? now_check e) with false
    by (symmetry; apply Z.ltb_ge; by apply Hfresh).
  rewrite decide_True by done. rewrite decide_False by (intros H; by apply H).
  eexists. split; [reflexivity|]. done.
Qed.

Lemma race_inv_step cfg i :
  race_inv ttl es req cfg → race_inv ttl es req (Race.step ttl cfg i).
Proof.
  destruct cfg as [db ts]. intros [Hts Hdb]. cbn [fst snd] in *.
  unfold Race.step. cbn [fst snd].
  destruct (ts !! i) as [t|] eqn:Hi; [|by split].
  pose proof (Forall_lookup_1 _ _ _ _ Hts Hi) as Ht.
  destruct t as [e q | e q p | res]; [| |by split].
  - (* the upsert *)
    destruct Ht as [-> He]. unfold ProcessPayment_upsert.
    rewrite Hvalid, (Hstore e He).
    destruct (rows db !! Req.IdempotencyKey req) as [r|] eqn:Hr.
    + destruct Hdb as [Hr_ok Hcount].
      rewrite (InsertOrGet_existing _ _ _ _ _ _ Hr).
      assert (Hnew : (Rec.AttemptCount r + 1 =? 1) = false).
      { apply Z.eqb_neq. destruct Hr_ok as (_ & _ & Ha & _). lia. }
      rewrite Hnew. unfold race_inv. cbn [fst snd rows]. rewrite lookup_insert_eq.
      split; [|split].
      * apply Forall_insert; [done|]. cbn. split; [done|]. split; [done|]. right.
        split; [done|]. by apply in_flight_bumped.
      * by apply in_flight_bumped.
      * pose proof (countb_insert winner ts i _
                      (Race.Upserted e req
                         (mkPending (generatePaymentID (now_id e)) (now_ttl e + ttl)
                                    (bumped_row r (now_upsert e)) false)) Hi) as Hc.
        cbn [winner p_isNew Nat.b2n] in Hc. lia.
    + destruct Hdb as [Hstart Hcount].
      rewrite (InsertOrGet_fresh _ _ _ _ _ Hr).
      unfold race_inv. cbn [fst snd rows]. rewrite lookup_insert_eq.
      split; [|split].
      * apply Forall_insert; [done|]. cbn. split; [done|]. split; [done|]. by left.
      * repeat split; cbn; try done. by exists e.
      * pose proof (countb_insert winner ts i _
                      (Race.Upserted e req
                         (mkPending (generatePaymentID (now_id e)) (now_ttl e + ttl)
                                    (inserted_row (id_seq db) req (Hash req)
                                       (generatePaymentID (now_id e)) (now_upsert e)
                                       (now_ttl e + ttl)) true)) Hi) as Hc.
        cbn [winner p_isNew Nat.b2n] in Hc. lia.
  - (* the branch on the returned record *)
    destruct Ht as (-> & He & Hp).
    destruct (rows db !! Req.IdempotencyKey req) as [r|] eqn:Hr.
    2:{ destruct Hdb as [Hstart _]. by pose proof (Forall_lookup_1 _ _ _ _ Hstart Hi). }
    destruct Hdb as [Hr_ok Hcount].
    destruct Hp as [Hnew | [Hnew Hrec]].
    + destruct (branch_of_winner e db p Hnew) as (res & -> & Hout).
      unfold race_inv. cbn [fst snd]. rewrite Hr. split; [|split].
      * apply Forall_insert; [done|]. cbn. by left.
      * done.
      * pose proof (countb_insert winner ts i _ (Race.Done res) Hi) as Hc.
        cbn [winner] in Hc. rewrite Hnew, Hout in Hc.
        cbn [Nat.b2n] in Hc. rewrite ?bool_decide_eq_true_2 in Hc by done.
        rewrite ?bool_decide_eq_false_2 in Hc by done. cbn [Nat.b2n] in Hc. lia.
    + destruct (branch_of_loser e db p He Hnew Hrec) as (res & -> & Hout).
      unfold race_inv. cbn [fst snd]. rewrite Hr. split; [|split].
      * apply Forall_insert; [done|]. cbn. by right.
      * done.
      * pose proof (countb_insert winner ts i _ (Race.Done res) Hi) as Hc.
        cbn [winner] in Hc. rewrite Hnew, Hout in Hc.
        cbn [Nat.b2n] in Hc. rewrite ?bool_decide_eq_true_2 in Hc by done.
        rewrite ?bool_decide_eq_false_2 in Hc by done. cbn [Nat.b2n] in Hc. lia.
Qed.

Lemma race_inv_run schedule cfg :
  race_inv ttl es req cfg → race_inv ttl es req (Race.run ttl cfg schedule).
Proof.
  revert cfg. induction schedule as [|i schedule IH]; intros cfg Hinv; [done|].
  cbn [Race.run fold_left]. apply IH. by apply race_inv_step.
Qed.

End SingleWinner.

(** C3. N calls with the same valid request race on a key the store does
    not hold; the store does not fail and no call's expiry check reads a
    time past the expiry any of the calls computes; nothing else touches
    the key.  Then in every interleaving of the calls' database statements
    in which each call gets to issue its two steps, every call returns,
    exactly one of them is answered "accepted, new" and the other N − 1
    are answered "already being processed". *)
Theorem single_winner_under_concurrency (ttl : Time) (db : DB) (req : PaymentRequest)
    (es : list Env) (schedule : list nat) :
  es ≠ [] →
  validateRequest req = None →
  rows db !! Req.IdempotencyKey req = None →
  (∀ e, e ∈ es → upsert_fails e = false) →
  (∀ e e', e ∈ es → e' ∈ es → now_check e' <= now_ttl e + ttl) →
  (∀ i, (i < length es)%nat → (2 <= count_occ Nat.eq_dec schedule i)%nat) →
  let final := Race.run ttl (db, initial_threads es req) schedule in
  Forall (fun t => Race.finished t = true) final.2 ∧
  Race.count Accepted_new final.2 = 1%nat ∧
  Race.count Rejected_in_progress final.2 = (length es - 1)%nat.
Proof.
  intros Hne Hvalid Hnone Hstore Hfresh Hfair final.
  pose proof (fair_schedule_finishes ttl db es req schedule Hfair) as Hfin.
  fold final in Hfin. split; [exact Hfin|].
  pose proof (race_inv_run ttl req es Hvalid Hstore Hfresh schedule _
                (race_inv_init ttl req es Hstore Hfresh db Hnone)) as [Hts Hdb].
  fold final in Hts, Hdb.
  assert (Hlen : length final.2 = length es).
  { unfold final. rewrite run_length. cbn. unfold initial_threads. by rewrite length_map. }
  assert (Hdone : Forall (fun t => ∃ res, t = Race.Done res ∧
                     (outcome res = Some Accepted_new ∨
                      outcome res = Some Rejected_in_progress)) final.2).
  { apply Forall_forall. intros t Ht.
    pose proof (proj1 (Forall_forall _ _) Hfin t Ht) as Hf.
    pose proof (proj1 (Forall_forall _ _) Hts t Ht) as Hok.
    destruct t as [| |res]; try discriminate. by exists res. }
  assert (Hwin : countb winner final.2 = 1%nat).
  { destruct (rows final.1 !! Req.IdempotencyKey req); [by destruct Hdb|].
    destruct Hdb as [Hstart _]. destruct final.2 as [|t ts] eqn:Hts2.
    - destruct es; [done | discriminate].
    - apply Forall_cons in Hstart as [Hstart _]. apply Forall_cons in Hfin as [Hfin _].
      by destruct t. }
  assert (Hnew : Race.count Accepted_new final.2 = 1%nat).
  { rewrite <- Hwin. unfold Race.count. apply (countb_ext_Forall _ winner).
    eapply Forall_impl; [exact Hdone|]. by intros t (res & -> & _). }
  split; [exact Hnew|].
  pose proof (countb_partition (Race.has_outcome Accepted_new)
                (Race.has_outcome Rejected_in_progress) final.2) as Hpart.
  unfold Race.count in *. unfold countb in Hpart. rewrite Hnew, Hlen in Hpart.
  assert (Hx : Forall (fun x => xorb (Race.has_outcome Accepted_new x)
                                     (Race.has_outcome Rejected_in_progress x) = true)
                      final.2).
  { eapply Forall_impl; [exact Hdone|]. intros t (res & -> & [Ho|Ho]); cbn; by rewrite Ho. }
  specialize (Hpart Hx). lia.
Qed.

Lemma single_winner_under_concurrency_witness :
  let final := Race.run one_day (empty_db, initial_threads three_envs req_A) interleaved in
  Forall (fun t => Race.finished t = true) final.2 ∧
  Race.count Accepted_new final.2 = 1%nat ∧
  Race.count Rejected_in_progress final.2 = 2%nat.
Proof.
  apply (single_winner_under_concurrency one_day empty_db req_A three_envs interleaved).
  - discriminate.
  - reflexivity.
  - reflexivity.
  - intros e He. repeat (apply elem_of_cons in He as [->|He]; [reflexivity|]).
    by apply elem_of_nil in He.
  - intros e e' He He'.
    repeat (apply elem_of_cons in He as [->|He];
            [repeat (apply elem_of_cons in He' as [->|He']; [by vm_compute|]);
             by apply elem_of_nil in He'|]).
    by apply elem_of_nil in He.
  - intros i Hi. cbn in Hi.
    destruct i as [|[|[|i]]]; [cbn; lia..|lia].
Defined.

(** The same race, run: which call wins depends on the schedule alone. *)
Example race_sample :
  map (fun t => match t with Race.Done res => outcome res | _ => None end)
      (Race.run one_day (empty_db, initial_threads three_envs req_A) interleaved).2
  = [Some Accepted_new; Some Rejected_in_progress; Some Rejected_in_progress] ∧
  map (fun t => match t with Race.Done res => outcome res | _ => None end)
      (Race.run one_day (empty_db, initial_threads three_envs req_A) [2; 0; 1; 0; 1; 2]%nat).2
  = [Some Rejected_in_progress; Some Rejected_in_progress; Some Accepted_new].
Proof. split; by vm_compute. Qed.

(* ===================================================================== *)
(** * Further properties of the code                                      *)
(* ===================================================================== *)

(** ** The retention sweep *)

(** X1. A sweep keeps exactly the rows whose expiry is not before [now],
    unchanged, and returns the number of rows whose expiry is before
    [now]. *)
Theorem sweep_removes_exactly_the_expired (db : DB) (now : Time) :
  (∀ k r, rows (DeleteExpired db now).1 !! k = Some r
          ↔ rows db !! k = Some r ∧ now <= Rec.ExpiresAt r) ∧
  (DeleteExpired db now).2 = Z.of_nat (size (expired_rows db now)) ∧
  id_seq (DeleteExpired db now).1 = id_seq db.
Proof.
  unfold DeleteExpired, expired_rows. cbn [fst snd rows with_rows id_seq].
  split; [|split; [|done]].
  - intros k r. rewrite map_lookup_filter_Some. cbn. split; intros [H1 H2]; (split; [done|lia]).
  - assert (Hs : size (rows db)
                 = Nat.add (size (filter (fun kv : string * IdempotencyRecord =>
                                            Rec.ExpiresAt kv.2 < now) (rows db)))
                           (size (filter (fun kv : string * IdempotencyRecord =>
                                            ¬ Rec.ExpiresAt kv.2 < now) (rows db)))).
    { rewrite <- map_size_disj_union by apply map_disjoint_filter_complement.
      by rewrite map_filter_union_complement. }
    lia.
Qed.

Lemma consistent_db_A : consistent db_A.
Proof.
  intros k r Hr. unfold db_A in Hr. cbn [rows] in Hr.
  apply lookup_singleton_Some in Hr as [<- <-]. split; [done|]. by vm_compute.
Qed.

(** X2. A second sweep, at the same or an earlier clock reading, finds
    nothing left to delete. *)
Theorem sweep_is_idempotent (db : DB) (now now' : Time) :
  now' <= now →
  DeleteExpired (DeleteExpired db now).1 now' = ((DeleteExpired db now).1, 0).
Proof.
  intros Hle. unfold DeleteExpired. cbn [fst rows with_rows].
  assert (Hid : filter (fun kv : string * IdempotencyRecord => ¬ Rec.ExpiresAt kv.2 < now')
                  (filter (fun kv : string * IdempotencyRecord => ¬ Rec.ExpiresAt kv.2 < now)
                          (rows db))
                = filter (fun kv : string * IdempotencyRecord => ¬ Rec.ExpiresAt kv.2 < now)
                         (rows db)).
  { apply map_filter_id. intros k r Hr. apply map_lookup_filter_Some in Hr as [_ Hr].
    cbn in *. lia. }
  rewrite Hid. unfold with_rows. cbn [id_seq]. f_equal. lia.
Qed.

Lemma sweep_is_idempotent_witness :
  DeleteExpired (DeleteExpired db_A (t0 + 2 * one_day)).1 (t0 + one_day)
  = ((DeleteExpired db_A (t0 + 2 * one_day)).1, 0).
Proof. apply sweep_is_idempotent. by vm_compute. Defined.

(** ** Upsert, lookup and completion in the store *)

(** X3. On a store whose rows have been seen at least once, the upsert
    returns the row it leaves under the key, [GetByKey] reads that same
    row back, and the returned flag tells an insert from a bump: it is
    true exactly when the key was absent. *)
Theorem upsert_then_get (db : DB) (req : PaymentRequest) (pid : string) (exp now : Time) :
  consistent db →
  ∃ rec isNew,
    (InsertOrGet false db req pid exp now).2 = inr (rec, isNew) ∧
    GetByKey (InsertOrGet false db req pid exp now).1 (Req.IdempotencyKey req) = inr rec ∧
    (isNew = true ↔ rows db !! Req.IdempotencyKey req = None) ∧
    Rec.IdempotencyKey rec = Req.IdempotencyKey req ∧
    1 <= Rec.AttemptCount rec.
Proof.
  intros Hdb. destruct (rows db !! Req.IdempotencyKey req) as [r|] eqn:Hr.
  - destruct (Hdb _ _ Hr) as [Hk Ha].
    rewrite (InsertOrGet_existing _ _ _ _ _ _ Hr). cbn [fst snd].
    eexists _, _. split; [reflexivity|]. unfold GetByKey. cbn [rows].
    rewrite lookup_insert_eq. split; [done|]. split; [|split; [done|cbn; lia]].
    split; [|done]. intros H. apply Z.eqb_eq in H. lia.
  - rewrite (InsertOrGet_fresh _ _ _ _ _ Hr). cbn [fst snd].
    eexists _, _. split; [reflexivity|]. unfold GetByKey. cbn [rows].
    rewrite lookup_insert_eq. by repeat split.
Qed.

Lemma upsert_then_get_witness :
  ∃ rec isNew,
    (InsertOrGet false db_A req_A "pay_2" (t0 + one_day) (t0 + 3)).2 = inr (rec, isNew) ∧
    GetByKey (InsertOrGet false db_A req_A "pay_2" (t0 + one_day) (t0 + 3)).1 "A" = inr rec ∧
    isNew = false.
Proof.
  destruct (upsert_then_get db_A req_A "pay_2" (t0 + one_day) (t0 + 3) consistent_db_A)
    as (rec & isNew & H1 & H2 & H3 & _).
  exists rec, isNew. split; [exact H1|]. split; [exact H2|].
  destruct isNew; [|reflexivity]. by destruct (proj1 H3 eq_refl).
Defined.

(** X4. With the UPDATE executing, [MarkComplete] returns nil exactly
    when the payload is one the JSONB column accepts (or absent), the
    key's row is [processing] and the target status is one the table
    allows.  A payload the column refuses, or a status the table
    refuses for a processing row, gives the wrapped error of the
    statement; a key without a row gives "not found"; a row with
    another status gives "already completed" when the follow-up query
    executes and "not found" when it fails.  Whenever it does not
    return nil the store is unchanged, and it never touches another
    key. *)
Theorem MarkComplete_outcomes (exists_fails : bool) (db : DB) (key : string)
    (status : Status) (body : option RawMessage) (now : Time) :
  let f := if exists_fails then ExistsFails else Executes in
  let res := Storage.MarkComplete f db key status body now in
  let processing := ∃ r, rows db !! key = Some r ∧ Rec.Status r = StatusProcessing in
  let completed := ∃ r, rows db !! key = Some r ∧ Rec.Status r ≠ StatusProcessing in
  (res.2 = None
   ↔ body_accepted body = true ∧ processing ∧ status_allowed status = true) ∧
  ((∃ msg, res.2 = Some (ErrWrapped msg))
   ↔ body_accepted body = false ∨ (processing ∧ status_allowed status = false)) ∧
  (res.2 = Some ErrKeyNotFound
   ↔ body_accepted body = true ∧
     (rows db !! key = None ∨ (completed ∧ exists_fails = true))) ∧
  (res.2 = Some ErrAlreadyCompleted
   ↔ body_accepted body = true ∧ completed ∧ exists_fails = false) ∧
  (res.2 ≠ None → res.1 = db) ∧
  (∀ k, k ≠ key → rows res.1 !! k = rows db !! k).
Proof.
  cbn zeta. unfold Storage.MarkComplete.
  destruct exists_fails, (body_accepted body); cbn [negb];
    (destruct (rows db !! key) as [r|] eqn:Hr;
     [destruct (decide (Rec.Status r = "processing")) as [Hs|Hs];
      [destruct (status_allowed status)|]|]);
    cbn [fst snd rows with_rows];
    (repeat split; try done;
     try (intros;
          repeat match goal with
                 | H : ∃ _, _ |- _ => destruct H
                 | H : _ ∧ _ |- _ => destruct H
                 | H : _ ∨ _ |- _ => destruct H
                 end; simplify_eq; by eauto 8));
    intros k Hk; by rewrite lookup_insert_ne.
Qed.

(** X5. Once a completion has gone through, every later completion of
    the key is refused and changes nothing: it returns an error ("already
    completed", or "invalid status" for a status that is neither
    succeeded nor failed, whenever its payload is one the column
    accepts; "invalid status" or the wrapped error of the statement
    when the column refuses it), and the row keeps the status, the
    stored payload and the completion time of the first one. *)
Theorem completion_is_final (db : DB) (key : string) (req1 req2 : CompleteRequest)
    (now1 now2 : Time) :
  (Service.MarkComplete false db key req1 now1).2 = None →
  let db1 := (Service.MarkComplete false db key req1 now1).1 in
  (Service.MarkComplete false db1 key req2 now2).2 ≠ None ∧
  (body_accepted (creq_ResponseBody req2) = true →
   (Service.MarkComplete false db1 key req2 now2).2 = Some ErrAlreadyCompleted ∨
   (Service.MarkComplete false db1 key req2 now2).2 = Some ErrInvalidStatus) ∧
  (body_accepted (creq_ResponseBody req2) = false →
   (Service.MarkComplete false db1 key req2 now2).2 = Some ErrInvalidStatus ∨
   ∃ msg, (Service.MarkComplete false db1 key req2 now2).2 = Some (ErrWrapped msg)) ∧
  (Service.MarkComplete false db1 key req2 now2).1 = db1 ∧
  ∃ r, rows db1 !! key = Some r ∧
       Rec.Status r = creq_Status req1 ∧
       Rec.ResponseBody r = stored_body (creq_ResponseBody req1) ∧
       Rec.CompletedAt r = Some now1.
Proof.
  intros H1.
  assert (Hfirst : ∃ r, rows db !! key = Some r ∧ creq_Status req1 ≠ "processing" ∧
            Service.MarkComplete false db key req1 now1
            = (with_rows db (<[key := completed_row r (creq_Status req1)
                                        (creq_ResponseBody req1) now1]> (rows db)), None)).
  { revert H1. unfold Service.MarkComplete.
    destruct (decide (creq_Status req1 ≠ StatusSucceeded ∧ creq_Status req1 ≠ StatusFailed))
      as [Hbad|Hok]; [discriminate|].
    destruct (MarkComplete_cases false db key (creq_Status req1) (creq_ResponseBody req1) now1)
      as [[err ->] | (r & Hr & _ & _ & _ & _ & ->)]; [discriminate|].
    intros _. exists r. split; [done|]. split; [|done].
    intros Heq. apply Hok. rewrite Heq. split; discriminate. }
  destruct Hfirst as (r & Hr & Hnp & ->). cbn [fst]. cbn zeta.
  assert (Hrow : ∃ r0, rows (with_rows db (<[key := completed_row r (creq_Status req1)
                                 (creq_ResponseBody req1) now1]> (rows db))) !! key = Some r0 ∧
                   Rec.Status r0 = creq_Status req1 ∧
                   Rec.ResponseBody r0 = stored_body (creq_ResponseBody req1) ∧
                   Rec.CompletedAt r0 = Some now1).
  { eexists. cbn [rows with_rows]. rewrite lookup_insert_eq. by repeat split. }
  unfold Service.MarkComplete.
  destruct (decide (creq_Status req2 ≠ StatusSucceeded ∧ creq_Status req2 ≠ StatusFailed)).
  - cbn [fst snd]. split; [done|]. split; [by right|]. split; [by left|]. by split.
  - unfold Storage.MarkComplete. cbn [fault_of_bool].
    destruct (body_accepted (creq_ResponseBody req2)); cbn [negb fst snd].
    + cbn [rows with_rows]. rewrite lookup_insert_eq.
      cbn [Rec.Status completed_row]. rewrite decide_False by done. cbn [fst snd].
      split; [done|]. split; [by left|]. split; [done|]. split; [done|].
      eexists. by repeat split.
    + split; [done|]. split; [done|]. split; [right; by eexists|]. by split.
Qed.

Lemma completion_is_final_witness :
  (Service.MarkComplete false db_A_succeeded "A"
     {| creq_Status := StatusFailed; creq_ResponseBody := None |} (t0 + 9)).1
  = db_A_succeeded.
Proof.
  apply (completion_is_final db_A "A"
           {| creq_Status := StatusSucceeded; creq_ResponseBody := Some "[17]" |}
           {| creq_Status := StatusFailed; creq_ResponseBody := None |} (t0 + 5) (t0 + 9)).
  by vm_compute.
Defined.


(** ** The decision protocol of [ProcessPayment] *)

(** What a call that finds row [r] leaves in the table: the upsert's bump,
    with or without the reset on top of it. *)
Lemma ProcessPayment_existing_store ttl e db req r :
  validateRequest req = None → upsert_fails e = false →
  rows db !! Req.IdempotencyKey req = Some r →
  Rec.IdempotencyKey r = Req.IdempotencyKey req →
  rows (ProcessPayment ttl e db req).1
  = <[Req.IdempotencyKey req := bumped_row r (now_upsert e)]> (rows db) ∨
  rows (ProcessPayment ttl e db req).1
  = <[Req.IdempotencyKey req :=
        reset_row (bumped_row r (now_upsert e)) (generatePaymentID (now_id e))
                  (now_ttl e + ttl) (now_reset e)]> (rows db).
Proof.
  intros Hv Hu Hr Hk. unfold ProcessPayment, ProcessPayment_upsert.
  rewrite Hv, Hu, (InsertOrGet_existing _ _ _ _ _ _ Hr).
  unfold ProcessPayment_branch. cbn [p_isNew p_rec p_paymentID p_expiresAt].
  cbn [Rec.IdempotencyKey bumped_row]. rewrite Hk.
  unfold ResetToProcessing. cbn [rows]. rewrite lookup_insert_eq.
  repeat match goal with
         | |- context [if ?b then _ else _] => destruct b
         end; cbn [fst rows with_rows];
    try (by left); right; by rewrite insert_insert_eq.
Qed.

(** X6. A request passes validation exactly when its key, merchant,
    customer and currency are non-empty and its amount is not negative
    (an amount of zero is accepted); a request that does not is answered
    422 with a validation error, before the store is touched. *)
Theorem validation_gate (ttl : Time) (e : Env) (db : DB) (req : PaymentRequest) :
  (validateRequest req = None
   ↔ Req.IdempotencyKey req ≠ EmptyString ∧ Req.MerchantID req ≠ EmptyString ∧
     Req.CustomerID req ≠ EmptyString ∧ 0 <= Req.Amount req ∧
     Req.Currency req ≠ EmptyString) ∧
  (validateRequest req ≠ None →
   ∃ msg, ProcessPayment ttl e db req = (db, (None, 422, Some (ErrValidation msg)))).
Proof.
  unfold ProcessPayment, ProcessPayment_upsert, validateRequest.
  destruct (decide (Req.IdempotencyKey req = EmptyString));
    [split; [split; [done | by intros (? & _)] | by eexists]|].
  destruct (decide (Req.MerchantID req = EmptyString));
    [split; [split; [done | by intros (_ & ? & _)] | by eexists]|].
  destruct (decide (Req.CustomerID req = EmptyString));
    [split; [split; [done | by intros (_ & _ & ? & _)] | by eexists]|].
  destruct (Req.Amount req <? 0) eqn:Ha;
    [apply Z.ltb_lt in Ha; split; [split; [done | intros (_ & _ & _ & ? & _); lia] | by eexists]|].
  apply Z.ltb_ge in Ha.
  destruct (decide (Req.Currency req = EmptyString));
    [split; [split; [done | by intros (_ & _ & _ & _ & ?)] | by eexists]|].
  split; [by split | done].
Qed.

(** X7. Whatever the store holds and whatever fails, a call answers with
    one of the codes 200, 201, 409, 422 and 500; it carries a response
    body exactly when it carries no error, which is exactly when the code
    is 200, 201 or 409; and the answer is always one of the outcomes of
    the protocol. *)
Theorem answers_are_well_formed (ttl : Time) (e : Env) (db : DB) (req : PaymentRequest) :
  let '(resp, code, err) := (ProcessPayment ttl e db req).2 in
  code ∈ [200; 201; 409; 422; 500] ∧
  (is_Some resp ↔ err = None) ∧
  (is_Some resp ↔ code ∈ [200; 201; 409]) ∧
  is_Some (outcome (resp, code, err)).
Proof.
  assert (H4 : ∀ x : Z, x ∈ [200; 201; 409] → x = 200 ∨ x = 201 ∨ x = 409).
  { intros x Hx. repeat (apply elem_of_cons in Hx as [->|Hx]; [tauto|]).
    by apply elem_of_nil in Hx. }
  unfold ProcessPayment, ProcessPayment_upsert.
  destruct (validateRequest req) as [err|] eqn:Hv.
  { destruct (invalid_request_is_422 ttl e db req err Hv) as (_ & [msg ->] & _).
    cbn. split; [by (apply list_elem_of_In; cbn; auto 10)|]. split; [split; [intros [? [=]] | done]|].
    split; [|done]. split; [intros [? [=]] | intros H; by destruct (H4 _ H) as [|[|]]]. }
  unfold InsertOrGet. destruct (upsert_fails e).
  { cbn. split; [by (apply list_elem_of_In; cbn; auto 10)|]. split; [split; [intros [? [=]] | done]|].
    split; [|done]. split; [intros [? [=]] | intros H; by destruct (H4 _ H) as [|[|]]]. }
  cbn zeta. unfold ProcessPayment_branch. cbn [p_isNew p_rec p_paymentID p_expiresAt].
  repeat match goal with
         | |- context [ResetToProcessing ?f ?d ?k ?p ?x ?n] =>
             destruct (ResetToProcessing f d k p x n) as [? []]
         | |- context [if ?b then _ else _] => destruct b
         end; cbn [snd];
    (split; [by (apply list_elem_of_In; cbn; auto 10)|]);
    (split; [first [by split | split; [intros [? [=]] | done]]|]);
    (split; [|done]);
    first [ split; [intros _; by (apply list_elem_of_In; cbn; auto 10) | done]
          | split; [intros [? [=]] | intros H; by destruct (H4 _ H) as [|[|]]] ].
Qed.

(** The rows a call leaves alone. *)
Lemma ProcessPayment_frame ttl e db req :
  consistent db →
  (∀ k, k ≠ Req.IdempotencyKey req →
        rows (ProcessPayment ttl e db req).1 !! k = rows db !! k) ∧
  (∀ k, is_Some (rows db !! k) → is_Some (rows (ProcessPayment ttl e db req).1 !! k)).
Proof.
  intros Hdb.
  assert (Hins : ∀ (m : gmap string IdempotencyRecord) key v,
            (∀ k, k ≠ key → <[key := v]> m !! k = m !! k) ∧
            (∀ k, is_Some (m !! k) → is_Some (<[key := v]> m !! k))).
  { intros m key v. split; intros k Hk; [by rewrite lookup_insert_ne|].
    destruct (decide (key = k)) as [->|Hne];
      [by rewrite lookup_insert_eq | by rewrite lookup_insert_ne]. }
  destruct (validateRequest req) as [err|] eqn:Hv.
  { by destruct (invalid_request_is_422 ttl e db req err Hv) as (-> & _). }
  destruct (upsert_fails e) eqn:Hu.
  { unfold ProcessPayment, ProcessPayment_upsert, InsertOrGet. by rewrite Hv, Hu. }
  destruct (rows db !! Req.IdempotencyKey req) as [r|] eqn:Hr.
  - destruct (Hdb _ _ Hr) as [Hk _].
    destruct (ProcessPayment_existing_store ttl e db req r Hv Hu Hr Hk) as [-> | ->];
      apply Hins.
  - rewrite (ProcessPayment_fresh ttl e db req Hv Hu Hr). cbn [fst rows]. apply Hins.
Qed.

(** X8. A call reads and writes the row of its own key only: every other
    key keeps its row, and no row is ever removed. *)
Theorem call_touches_its_key_only (ttl : Time) (e : Env) (db : DB) (req : PaymentRequest) :
  consistent db →
  (∀ k, k ≠ Req.IdempotencyKey req →
        rows (ProcessPayment ttl e db req).1 !! k = rows db !! k) ∧
  (∀ k, is_Some (rows db !! k) → is_Some (rows (ProcessPayment ttl e db req).1 !! k)).
Proof. apply ProcessPayment_frame. Qed.

Lemma call_touches_its_key_only_witness :
  rows (ProcessPayment one_day (env_at (t0 + 3)) db_A req_B).1 !! "A" = rows db_A !! "A".
Proof.
  apply (call_touches_its_key_only one_day (env_at (t0 + 3)) db_A req_B consistent_db_A).
  by vm_compute.
Defined.

(** X9. Every valid call that reaches the store is counted: whatever the
    answer (replay, rejection, mismatch, retry, or a failed reset), the
    row of the key keeps its identity and its attempt count goes up by
    exactly one. *)
Theorem every_call_is_counted (ttl : Time) (e : Env) (db : DB) (req : PaymentRequest)
    (r : IdempotencyRecord) :
  validateRequest req = None → upsert_fails e = false →
  rows db !! Req.IdempotencyKey req = Some r →
  Rec.IdempotencyKey r = Req.IdempotencyKey req →
  ∃ r', rows (ProcessPayment ttl e db req).1 !! Req.IdempotencyKey req = Some r' ∧
        same_identity r r' ∧
        Rec.AttemptCount r' = Rec.AttemptCount r + 1.
Proof.
  intros Hv Hu Hr Hk.
  destruct (ProcessPayment_existing_store ttl e db req r Hv Hu Hr Hk) as [-> | ->];
    rewrite lookup_insert_eq; eexists; (split; [reflexivity|]); by repeat split.
Qed.

Lemma every_call_is_counted_witness :
  ∃ r', rows (ProcessPayment one_day (env_at (t0 + 3)) db_A req_A).1 !! "A" = Some r' ∧
        same_identity row_A r' ∧ Rec.AttemptCount r' = 2.
Proof.
  apply (every_call_is_counted one_day (env_at (t0 + 3)) db_A req_A row_A);
    by vm_compute.
Defined.


(** X10. A call on a live row that is processing or failed, with
    parameters whose fingerprint differs from the stored one, is answered
    422 "parameters mismatch"; the store keeps the upsert's bump and
    nothing else (no reset, the status and payment id stay). *)
Theorem mismatch_is_rejected (ttl : Time) (e : Env) (db : DB) (req : PaymentRequest)
    (r : IdempotencyRecord) :
  validateRequest req = None → upsert_fails e = false →
  rows db !! Req.IdempotencyKey req = Some r →
  Rec.AttemptCount r ≠ 0 →
  now_check e <= Rec.ExpiresAt r →
  Rec.Status r = StatusProcessing ∨ Rec.Status r = StatusFailed →
  Rec.RequestHash r ≠ Hash req →
  ProcessPayment ttl e db req
  = (bumped_db db (Req.IdempotencyKey req) r (now_upsert e),
     (None, 422, Some ErrParamsMismatch)).
Proof.
  intros Hv Hu Hr Ha Hx Hs Hh. rewrite (ProcessPayment_existing ttl e db req r Hv Hu Hr Ha).
  branch_eval. replace (Rec.ExpiresAt r <? now_check e) with false
    by (symmetry; apply Z.ltb_ge; lia).
  destruct Hs as [Hs|Hs]; rewrite Hs.
  - rewrite decide_True by done. by rewrite decide_True by done.
  - rewrite decide_False by done. rewrite decide_False by done.
    rewrite decide_True by done. by rewrite decide_True by done.
Qed.

Lemma mismatch_is_rejected_witness :
  ProcessPayment one_day (env_at (t0 + 9)) db_A_failed req_A_other
  = (bumped_db db_A_failed "A" (completed_row row_A StatusFailed None (t0 + 5)) (t0 + 9),
     (None, 422, Some ErrParamsMismatch)).
Proof.
  apply (mismatch_is_rejected one_day (env_at (t0 + 9)) db_A_failed req_A_other
           (completed_row row_A StatusFailed None (t0 + 5)));
    try (by vm_compute).
  by right.
Defined.

(** X11. A live succeeded row is replayed to every valid request that
    carries its key: the answer is 200 with the stored payment id and
    payload, and the request's parameters are not compared with the
    stored fingerprint. *)
Theorem replay_ignores_parameters (ttl : Time) (e : Env) (db : DB) (req : PaymentRequest)
    (r : IdempotencyRecord) :
  validateRequest req = None → upsert_fails e = false →
  rows db !! Req.IdempotencyKey req = Some r →
  Rec.AttemptCount r ≠ 0 →
  now_check e <= Rec.ExpiresAt r →
  Rec.Status r = StatusSucceeded →
  ProcessPayment ttl e db req
  = (bumped_db db (Req.IdempotencyKey req) r (now_upsert e),
     (Some (Resp.mk (Rec.PaymentID r) (Rec.IdempotencyKey r) StatusSucceeded
              "payment already succeeded" (Rec.AttemptCount r + 1) (Rec.ResponseBody r)),
      200, None)).
Proof.
  intros Hv Hu Hr Ha Hx Hs. rewrite (ProcessPayment_existing ttl e db req r Hv Hu Hr Ha).
  branch_eval. replace (Rec.ExpiresAt r <? now_check e) with false
    by (symmetry; apply Z.ltb_ge; lia).
  rewrite Hs. rewrite decide_False by done. by rewrite decide_True by done.
Qed.

Lemma replay_ignores_parameters_witness :
  Hash req_A_other ≠ Hash req_A ∧
  (ProcessPayment one_day (env_at (t0 + 9)) db_A_succeeded req_A_other).2
  = (Some (Resp.mk (generatePaymentID t0) "A" StatusSucceeded
             "payment already succeeded" 2 (Some "[17]")), 200, None).
Proof.
  split; [by vm_compute|].
  rewrite (replay_ignores_parameters one_day (env_at (t0 + 9)) db_A_succeeded req_A_other
             (completed_row row_A StatusSucceeded (Some "[17]") (t0 + 5)));
    by vm_compute.
Defined.

(** X12. A first call on an absent key is accepted as new; the same
    request again, before the row expires, is answered 409 "already being
    processed" with the payment id of the first call and attempt count 2. *)
Theorem duplicate_after_first_call (ttl : Time) (e1 e2 : Env) (db : DB)
    (req : PaymentRequest) :
  validateRequest req = None → upsert_fails e1 = false → upsert_fails e2 = false →
  rows db !! Req.IdempotencyKey req = None →
  now_check e2 <= now_ttl e1 + ttl →
  outcome (ProcessPayment ttl e1 db req).2 = Some Accepted_new ∧
  (ProcessPayment ttl e2 (ProcessPayment ttl e1 db req).1 req).2
  = (Some (Resp.mk (generatePaymentID (now_id e1)) (Req.IdempotencyKey req)
             StatusProcessing "payment is already being processed" 2 None), 409, None).
Proof.
  intros Hv Hu1 Hu2 Hr Hx. rewrite (ProcessPayment_fresh ttl e1 db req Hv Hu1 Hr).
  split; [done|]. cbn [fst].
  erewrite (ProcessPayment_existing ttl e2 _ req);
    [|done|done|cbn [rows]; apply lookup_insert_eq|done].
  branch_eval. cbn [inserted_row Rec.ExpiresAt Rec.Status Rec.RequestHash Rec.PaymentID
                    Rec.IdempotencyKey Rec.AttemptCount snd].
  replace (now_ttl e1 + ttl <? now_check e2) with false
    by (symmetry; apply Z.ltb_ge; lia).
  rewrite decide_True by done. rewrite decide_False by (intros H; by apply H). done.
Qed.

Lemma duplicate_after_first_call_witness :
  (ProcessPayment one_day (env_at (t0 + ten_ms))
     (ProcessPayment one_day (env_at t0) empty_db req_A).1 req_A).2
  = (Some (Resp.mk (generatePaymentID t0) "A" StatusProcessing
             "payment is already being processed" 2 None), 409, None).
Proof.
  apply (duplicate_after_first_call one_day (env_at t0) (env_at (t0 + ten_ms)) empty_db req_A);
    by vm_compute.
Defined.


(** X13. A retry re-opens the payment under a new payment id: after a
    call that retries a live failed row, the same request again is
    answered 409 with the retry's payment id, not the one of the failed
    attempt, and each of the two calls has been counted. *)
Theorem retry_then_duplicate (ttl : Time) (e1 e2 : Env) (db : DB) (req : PaymentRequest)
    (r : IdempotencyRecord) :
  validateRequest req = None →
  upsert_fails e1 = false → reset_fails e1 = false → upsert_fails e2 = false →
  rows db !! Req.IdempotencyKey req = Some r →
  Rec.IdempotencyKey r = Req.IdempotencyKey req →
  1 <= Rec.AttemptCount r →
  Rec.Status r = StatusFailed → Rec.RequestHash r = Hash req →
  now_check e1 <= Rec.ExpiresAt r →
  now_check e2 <= now_ttl e1 + ttl →
  (ProcessPayment ttl e1 db req).2
  = (Some (Resp.mk (generatePaymentID (now_id e1)) (Req.IdempotencyKey req)
             StatusProcessing "previous attempt failed, retrying"
             (Rec.AttemptCount r + 1) None), 201, None) ∧
  (ProcessPayment ttl e2 (ProcessPayment ttl e1 db req).1 req).2
  = (Some (Resp.mk (generatePaymentID (now_id e1)) (Req.IdempotencyKey req)
             StatusProcessing "payment is already being processed"
             (Rec.AttemptCount r + 2) None), 409, None).
Proof.
  intros Hv Hu1 Hf1 Hu2 Hr Hk Ha Hs Hh Hx1 Hx2.
  assert (Hfirst : ProcessPayment ttl e1 db req
    = (with_rows (bumped_db db (Req.IdempotencyKey req) r (now_upsert e1))
         (<[Req.IdempotencyKey req :=
              reset_row (bumped_row r (now_upsert e1)) (generatePaymentID (now_id e1))
                        (now_ttl e1 + ttl) (now_reset e1)]>
            (rows (bumped_db db (Req.IdempotencyKey req) r (now_upsert e1)))),
       (Some (Resp.mk (generatePaymentID (now_id e1)) (Req.IdempotencyKey req)
                StatusProcessing "previous attempt failed, retrying"
                (Rec.AttemptCount r + 1) None), 201, None))).
  { rewrite (ProcessPayment_existing ttl e1 db req r Hv Hu1 Hr) by lia.
    branch_eval. replace (Rec.ExpiresAt r <? now_check e1) with false
      by (symmetry; apply Z.ltb_ge; lia).
    rewrite Hs, Hh, Hk, Hf1. rewrite decide_False by done. rewrite decide_False by done.
    rewrite decide_True by done. rewrite decide_False by (intros H; by apply H).
    erewrite ResetToProcessing_failed;
      [done | cbn [rows bumped_db]; apply lookup_insert_eq | by cbn; rewrite Hs]. }
  rewrite Hfirst. split; [done|]. cbn [fst].
  erewrite (ProcessPayment_existing ttl e2 _ req);
    [|done|done|cbn [rows with_rows]; apply lookup_insert_eq|cbn; lia].
  branch_eval. cbn [reset_row bumped_row Rec.ExpiresAt Rec.Status Rec.RequestHash
                    Rec.PaymentID Rec.IdempotencyKey Rec.AttemptCount snd].
  replace (now_ttl e1 + ttl <? now_check e2) with false
    by (symmetry; apply Z.ltb_ge; lia).
  rewrite decide_True by done. rewrite Hh, Hk.
  rewrite decide_False by (intros H; by apply H).
  by replace (Rec.AttemptCount r + 1 + 1) with (Rec.AttemptCount r + 2) by lia.
Qed.

Lemma retry_then_duplicate_witness :
  (ProcessPayment one_day (env_at (t0 + 2 * ten_ms))
     (ProcessPayment one_day (env_at (t0 + ten_ms)) db_A_failed req_A).1 req_A).2
  = (Some (Resp.mk (generatePaymentID (t0 + ten_ms)) "A" StatusProcessing
             "payment is already being processed" 3 None), 409, None).
Proof.
  apply (retry_then_duplicate one_day (env_at (t0 + ten_ms)) (env_at (t0 + 2 * ten_ms))
           db_A_failed req_A (completed_row row_A StatusFailed None (t0 + 5)));
    by vm_compute.
Defined.

(** X14. When a database statement fails the call answers 500 without a
    response.  A failed upsert leaves the store as it was; a failed reset
    (on an expired row, or on the retry of a failed one) leaves the
    upsert's bump behind: the attempt has been counted although the row
    was not re-opened. *)
Theorem store_failures_answer_500 (ttl : Time) (e : Env) (db : DB) (req : PaymentRequest) :
  validateRequest req = None →
  (upsert_fails e = true →
   ProcessPayment ttl e db req = (db, (None, 500, Some (ErrWrapped "insert or get")))) ∧
  (∀ r, upsert_fails e = false → reset_fails e = true →
     rows db !! Req.IdempotencyKey req = Some r →
     Rec.AttemptCount r ≠ 0 →
     Rec.ExpiresAt r < now_check e
     ∨ (Rec.Status r = StatusFailed ∧ Rec.RequestHash r = Hash req) →
     (ProcessPayment ttl e db req).1 = bumped_db db (Req.IdempotencyKey req) r (now_upsert e) ∧
     ∃ msg, (ProcessPayment ttl e db req).2 = (None, 500, Some (ErrWrapped msg))).
Proof.
  intros Hv. split.
  - intros Hu. unfold ProcessPayment, ProcessPayment_upsert, InsertOrGet. by rewrite Hv, Hu.
  - intros r Hu Hf Hr Ha Hcase.
    rewrite (ProcessPayment_existing ttl e db req r Hv Hu Hr Ha).
    branch_eval. unfold ResetToProcessing. rewrite Hf.
    destruct (Rec.ExpiresAt r <? now_check e) eqn:Hx; [by eauto|].
    destruct Hcase as [Hlt | [Hs Hh]]; [apply Z.ltb_ge in Hx; lia|].
    rewrite Hs, Hh. rewrite decide_False by done. rewrite decide_False by done.
    rewrite decide_True by done. rewrite decide_False by (intros H; by apply H).
    by eauto.
Qed.

Lemma store_failures_answer_500_witness :
  (ProcessPayment one_day (env_reset_down (t0 + ten_ms)) db_A_failed req_A).1
  = bumped_db db_A_failed "A" (completed_row row_A StatusFailed None (t0 + 5)) (t0 + ten_ms).
Proof.
  destruct (store_failures_answer_500 one_day (env_reset_down (t0 + ten_ms)) db_A_failed req_A)
    as [_ H]; [by vm_compute|].
  apply (H (completed_row row_A StatusFailed None (t0 + 5))); try (by vm_compute).
  right. by vm_compute.
Defined.


(** ** The metrics *)

Lemma record_all_snoc evs te m :
  record_all (evs ++ [te]) m = record te.1 te.2 (record_all evs m).
Proof. unfold record_all. by rewrite fold_left_app. Qed.

Lemma counters_step now ev m :
  Monitor.TotalRequests (record now ev m) = Int64.wrap (Monitor.TotalRequests m + 1) ∧
  Int64.wrap (counter_sum (record now ev m)) = Int64.wrap (counter_sum m + 1).
Proof.
  split; [by destruct ev|].
  destruct ev; unfold counter_sum; cbn; unfold Int64.add;
    match goal with
    | |- context [Int64.wrap (?c + 1)] =>
        destruct (wrap_decompose (c + 1)) as [k ->];
        match goal with
        | |- _ = Int64.wrap ?rhs => rewrite <- (wrap_shift rhs k)
        end
    end; f_equal; lia.
Qed.

(** X15. However many calls are recorded, in whatever order and mix, the
    total request counter is the number of calls and equals the sum of
    the five per-kind counters (in int64 arithmetic, as the counters
    are): every recorder bumps the total and exactly one kind. *)
Theorem counters_add_up (evs : list (Time * Event)) :
  Monitor.TotalRequests (record_all evs Monitor.NewMetrics)
  = Int64.wrap (Z.of_nat (length evs)) ∧
  Int64.wrap (counter_sum (record_all evs Monitor.NewMetrics))
  = Monitor.TotalRequests (record_all evs Monitor.NewMetrics).
Proof.
  induction evs as [|te evs [IH1 IH2]] using rev_ind; [by vm_compute|].
  rewrite record_all_snoc.
  destruct (counters_step te.1 te.2 (record_all evs Monitor.NewMetrics)) as [H1 H2].
  rewrite H1, H2. split.
  - rewrite IH1, wrap_add_l, length_app. cbn [length]. f_equal. lia.
  - by rewrite <- IH2, wrap_add_l.
Qed.


Lemma nondecreasing_filter {A} (key : A → Z) (f : A → bool) (l : list A) :
  nondecreasing key l → nondecreasing key (List.filter f l).
Proof.
  induction l as [|a l IH]; cbn; [done|]. intros [Ha Hl].
  destruct (f a); cbn; [split; [by apply Forall_filter_bool | by apply IH] | by apply IH].
Qed.

Lemma nondecreasing_snoc {A} (key : A → Z) (l : list A) (x : A) :
  nondecreasing key (l ++ [x]) →
  nondecreasing key l ∧ Forall (fun y => key y <= key x) l.
Proof.
  induction l as [|a l IH]; cbn; [done|]. intros [Ha Hl].
  apply Forall_app in Ha as [Ha Hx]. destruct (IH Hl) as [Hl' Hlx].
  split; [done|]. constructor; [by inversion Hx | done].
Qed.

Lemma nondecreasing_entries evs :
  nondecreasing fst evs → nondecreasing Monitor.ts (map to_entry evs).
Proof.
  induction evs as [|te evs IH]; cbn; [done|]. intros [Ha Hl].
  split; [by apply Forall_map | by apply IH].
Qed.

(** On a window in clock order the loop of [pruneWindow] keeps exactly
    the entries at or after the cutoff. *)
Lemma drop_before_sorted cutoff w :
  nondecreasing Monitor.ts w →
  Monitor.drop_before cutoff w = List.filter (fun en => cutoff <=? Monitor.ts en) w.
Proof.
  induction w as [|en w IH]; cbn; [done|]. intros [Ha Hl].
  destruct (Monitor.ts en <? cutoff) eqn:Hc.
  - apply Z.ltb_lt in Hc. replace (cutoff <=? Monitor.ts en) with false
      by (symmetry; apply Z.leb_gt; lia). by apply IH.
  - apply Z.ltb_ge in Hc. replace (cutoff <=? Monitor.ts en) with true
      by (symmetry; apply Z.leb_le; lia).
    f_equal. clear IH Hl. induction Ha as [|b w Hb _ IH]; cbn; [done|].
    replace (cutoff <=? Monitor.ts b) with true by (symmetry; apply Z.leb_le; lia).
    by f_equal.
Qed.

Lemma window_record now ev m :
  Monitor.window (record now ev m)
  = Monitor.addWindow now (Monitor.isDuplicate (to_entry (now, ev))) (Monitor.window m).
Proof. by destruct ev. Qed.

(** With clock readings that never go down, the window after a recorder
    call at [t] holds the entries of the calls made since [t] minus five
    minutes, all of them and no other. *)
Lemma window_after_record (evs : list (Time * Event)) (t : Time) (k : Event) :
  nondecreasing fst (evs ++ [(t, k)]) →
  Monitor.window (record_all (evs ++ [(t, k)]) Monitor.NewMetrics)
  = List.filter (fun en => t - Monitor.windowDuration <=? Monitor.ts en)
                (map to_entry (evs ++ [(t, k)])).
Proof.
  revert t k. induction evs as [|[t' k'] evs IH] using rev_ind; intros t k Hs.
  - cbn [app record_all fold_left fst snd map List.filter]. rewrite window_record.
    unfold Monitor.addWindow, Monitor.pruneWindow.
    cbn [Monitor.window Monitor.NewMetrics app Monitor.drop_before Monitor.ts to_entry fst].
    replace (t <? t - Monitor.windowDuration) with false
      by (symmetry; apply Z.ltb_ge; unfold Monitor.windowDuration; lia).
    by replace (t - Monitor.windowDuration <=? t) with true
      by (symmetry; apply Z.leb_le; unfold Monitor.windowDuration; lia).
  - rewrite record_all_snoc. cbn [fst snd]. rewrite window_record.
    destruct (nondecreasing_snoc _ _ _ Hs) as [Hs' Hle].
    assert (Ht : t' <= t).
    { apply Forall_app in Hle as [_ Hle]. by inversion Hle. }
    rewrite (IH t' k' Hs'). unfold Monitor.addWindow, Monitor.pruneWindow.
    set (all := evs ++ [(t', k')]) in *.
    assert (Hw : List.filter (fun en => t' - Monitor.windowDuration <=? Monitor.ts en)
                   (map to_entry all) ++ [Monitor.mkEntry t (Monitor.isDuplicate (to_entry (t, k)))]
                 = List.filter (fun en => t' - Monitor.windowDuration <=? Monitor.ts en)
                     (map to_entry (all ++ [(t, k)]))).
    { rewrite map_app, List.filter_app. f_equal. cbn.
      by replace (t' - Monitor.windowDuration <=? t) with true
        by (symmetry; apply Z.leb_le; unfold Monitor.windowDuration; lia). }
    etransitivity; [apply (f_equal (Monitor.drop_before _)), Hw|].
    rewrite drop_before_sorted
      by (apply nondecreasing_filter, nondecreasing_entries, Hs).
    rewrite filter_filter. apply filter_ext_Forall. intros en.
    destruct (t - Monitor.windowDuration <=? Monitor.ts en) eqn:Hc;
      [|by rewrite andb_false_r].
    rewrite andb_true_r. apply Z.leb_le in Hc. apply Z.leb_le. lia.
Qed.

(** X16. With clock readings that never go down, no call of the last
    five minutes is lost to pruning and no older one is counted: a
    snapshot taken at or after the last recorder call counts exactly the
    calls recorded less than five minutes before it, and among them
    those recorded as duplicate, cached or mismatch. *)
Theorem snapshot_counts_last_five_minutes (evs : list (Time * Event)) (t : Time)
    (k : Event) (now : Time) :
  nondecreasing fst (evs ++ [(t, k)]) → t <= now →
  Monitor.WindowRequests (Monitor.Snapshot now (record_all (evs ++ [(t, k)]) Monitor.NewMetrics))
  = Z.of_nat (countb (in_window now) (map to_entry (evs ++ [(t, k)]))) ∧
  Monitor.WindowDuplicates (Monitor.Snapshot now (record_all (evs ++ [(t, k)]) Monitor.NewMetrics))
  = Z.of_nat (countb (dup_in_window now) (map to_entry (evs ++ [(t, k)]))).
Proof.
  intros Hs Ht.
  destruct (Snapshot_window now (record_all (evs ++ [(t, k)]) Monitor.NewMetrics))
    as (-> & -> & _).
  rewrite (window_after_record evs t k Hs). unfold countb. rewrite !filter_filter.
  split; do 2 f_equal; apply filter_ext_Forall; intros en;
    unfold dup_in_window, in_window;
    (destruct (now - Monitor.windowDuration <? Monitor.ts en) eqn:Hc;
     [|by rewrite andb_false_r]);
    apply Z.ltb_lt in Hc;
    by replace (t - Monitor.windowDuration <=? Monitor.ts en) with true
      by (symmetry; apply Z.leb_le; lia).
Qed.

Lemma snapshot_counts_last_five_minutes_witness :
  Monitor.WindowRequests
    (Monitor.Snapshot (t0 + Monitor.windowDuration + 2)
       (record_all [(t0, EvNew); (t0 + 1, EvDuplicate); (t0 + 5, EvCached)]
                   Monitor.NewMetrics)) = 1.
Proof.
  apply (snapshot_counts_last_five_minutes [(t0, EvNew); (t0 + 1, EvDuplicate)] (t0 + 5)
           EvCached (t0 + Monitor.windowDuration + 2)).
  - cbn. repeat split; repeat constructor; cbn; lia.
  - unfold Monitor.windowDuration. lia.
Defined.


(** X17. A window without an entry of the last five minutes (an empty
    one included) gives a snapshot with zero window requests, rate 0 and
    no anomaly: the rate is not computed by a division by zero. *)
Theorem stale_window_raises_nothing (now : Time) (m : Monitor.Metrics) :
  Forall (fun en => Monitor.ts en <= now - Monitor.windowDuration) (Monitor.window m) →
  Monitor.WindowRequests (Monitor.Snapshot now m) = 0 ∧
  Monitor.WindowDuplicates (Monitor.Snapshot now m) = 0 ∧
  Monitor.WindowDupRate (Monitor.Snapshot now m) = Float64.zero ∧
  Monitor.AnomalyDetected (Monitor.Snapshot now m) = false.
Proof.
  intros Hold.
  assert (Hfold : fold_left (Monitor.count_entry (now - Monitor.windowDuration))
                    (Monitor.window m) (0, 0) = (0, 0)).
  { induction Hold as [|en w Hen _ IH]; cbn [fold_left]; [done|].
    unfold Monitor.count_entry at 2.
    by replace (now - Monitor.windowDuration <? Monitor.ts en) with false
      by (symmetry; apply Z.ltb_ge; lia). }
  unfold Monitor.Snapshot. rewrite Hfold.
  cbn [Monitor.WindowRequests Monitor.WindowDuplicates Monitor.WindowDupRate
       Monitor.AnomalyDetected].
  split; [done|]. split; [done|]. split; by vm_compute.
Qed.

Lemma stale_window_raises_nothing_witness :
  Monitor.AnomalyDetected
    (Monitor.Snapshot (t0 + Monitor.windowDuration)
       (Monitor.RecordDuplicate t0 Monitor.NewMetrics)) = false.
Proof.
  destruct (stale_window_raises_nothing (t0 + Monitor.windowDuration)
              (Monitor.RecordDuplicate t0 Monitor.NewMetrics)) as (_ & _ & _ & H);
    [|exact H].
  replace (Monitor.window (Monitor.RecordDuplicate t0 Monitor.NewMetrics))
    with [Monitor.mkEntry t0 true] by (by vm_compute).
  repeat constructor. cbn [Monitor.ts]. lia.
Defined.

(** X18. The server never calls [RecordRetry]: whatever the request,
    the retry counter stays as it was (a retry answers 201 and is
    recorded as a new payment); and a request that is not a POST, or
    whose body does not decode, changes neither the store nor the
    metrics. *)
Theorem server_never_records_a_retry (ttl : Time) (e : Env) (now : Time) (db : DB)
    (m : Monitor.Metrics) (r : Server.HttpRequest) :
  Monitor.RetryAllowed (Server.withMetrics ttl e now (db, m) r).2 = Monitor.RetryAllowed m ∧
  (Server.http_method r ≠ "POST" ∨ Server.http_body r = None →
   Server.withMetrics ttl e now (db, m) r = (db, m)) ∧
  (∀ req, r = post req →
     outcome (ProcessPayment ttl e db req).2 = Some Accepted_retry →
     (Server.withMetrics ttl e now (db, m) r).2 = Monitor.RecordNew now m).
Proof.
  split; [|split].
  - unfold Server.withMetrics. destruct (Server.HandleProcessPayment _ _ _ _) as [db' status].
    cbn [snd]. unfold Server.record_status.
    destruct status as [|[p|p|]|]; try done;
      repeat (destruct p as [p|p|]; try done).
  - unfold Server.withMetrics, Server.HandleProcessPayment. cbn [fst snd]. intros [Hm|Hb].
    + by rewrite decide_True by done.
    + rewrite Hb. by destruct (decide (Server.http_method r ≠ "POST")).
  - intros req -> Ho. by rewrite (recorder_by_outcome ttl e now db m req _ Ho).
Qed.


(** ** The duplicate report, continued *)

Lemma nondecreasing_map {A B} (key : B → Z) (f : A → B) (l : list A) :
  nondecreasing (fun a => key (f a)) l → nondecreasing key (map f l).
Proof.
  induction l as [|a l IH]; cbn; [done|]. intros [Ha Hl].
  split; [by apply Forall_map | by apply IH].
Qed.

Lemma insert_desc_sorted r l :
  nondecreasing (fun x => - Rec.AttemptCount x) l →
  nondecreasing (fun x => - Rec.AttemptCount x) (insert_desc r l).
Proof.
  induction l as [|x l IH]; cbn [insert_desc]; [by cbn|]. intros [Hx Hl].
  destruct (Rec.AttemptCount x <? Rec.AttemptCount r) eqn:Hc.
  - apply Z.ltb_lt in Hc. cbn. split; [|done].
    constructor; [lia|]. eapply Forall_impl; [exact Hx|]. cbn. intros b Hb. lia.
  - apply Z.ltb_ge in Hc. cbn. split; [|by apply IH].
    rewrite insert_desc_perm. constructor; [lia | done].
Qed.

Lemma order_by_attempts_desc_sorted l :
  nondecreasing (fun x => - Rec.AttemptCount x) (order_by_attempts_desc l).
Proof. induction l as [|x l IH]; cbn; [done|]. by apply insert_desc_sorted. Qed.

(** X19. The suspicious keys of a report come in the order of the
    query, by attempt count from the highest down: the loop keeps the
    order in which it filters them. *)
Theorem suspicious_keys_are_ranked (fail_dups fail_stats : bool) (db : DB)
    (merchantID : string) (from to : Time) :
  ranked (Reporting.GetDuplicateReport fail_dups fail_stats db merchantID from to).
Proof.
  unfold Reporting.GetDuplicateReport.
  destruct fail_dups; [done|]. destruct fail_stats; [done|].
  rewrite GetMerchantStats_eq. cbn [ranked rep_SuspiciousKeys].
  rewrite loop_suspicious. cbn [Reporting.suspicious app].
  apply (nondecreasing_map (fun sk => - sk_AttemptCount sk) Reporting.to_suspicious).
  cbn [Reporting.to_suspicious sk_AttemptCount].
  apply nondecreasing_filter. unfold GetDuplicates. apply order_by_attempts_desc_sorted.
Qed.

(** X20. A merchant without a row first seen in the range (an unknown
    merchant, or a range whose end is before its start) gets the empty
    report, not an error: all counts zero, rate 0 without a division, no
    suspicious key and an empty breakdown. *)
Theorem report_on_nothing_is_empty (db : DB) (merchantID : string) (from to : Time) :
  rows_in_range db merchantID from to = [] →
  Reporting.GetDuplicateReport false false db merchantID from to
  = inr (empty_report merchantID from to).
Proof.
  intros Hrows.
  assert (Hdup : GetDuplicates db merchantID from to = []).
  { apply Permutation_nil. symmetry. rewrite GetDuplicates_perm.
    unfold duplicate_rows. by rewrite Hrows. }
  unfold Reporting.GetDuplicateReport. rewrite Hdup, GetMerchantStats_eq, Hrows.
  cbn [fold_left total_attempts map sumZ length Z.of_nat Reporting.suspicious
       Reporting.amountAtRisk Reporting.currencyBreakdown].
  unfold empty_report. f_equal.
Qed.

Lemma report_on_nothing_is_empty_witness :
  Reporting.GetDuplicateReport false false sample_store "m1" (t0 + 1) (t0 - 1)
  = inr (empty_report "m1" (t0 + 1) (t0 - 1)).
Proof.
  apply (report_on_nothing_is_empty sample_store "m1" (t0 + 1) (t0 - 1)).
  by vm_compute.
Defined.


(** ** The advisory lock id *)

(** The sum agrees with the reference values of FNV-1a. *)
Lemma fnv_vectors :
  Fnv.Sum64a (Fmt.bytes_of_string EmptyString) = 14695981039346656037 ∧
  Fnv.Sum64a (Fmt.bytes_of_string "a") = 12638187200555641996 ∧
  Fnv.Sum64a (Fmt.bytes_of_string "foobar") = 9625390261332436968 ∧
  Repository.advisoryLockKey "payment-abc-123" = -7611361607021964755.
Proof. split; [by vm_compute|]. split; [by vm_compute|]. split; by vm_compute. Qed.

Lemma mul_prime64_inj x y :
  (x * Fnv.prime64) mod 2 ^ 64 = (y * Fnv.prime64) mod 2 ^ 64 → x mod 2 ^ 64 = y mod 2 ^ 64.
Proof.
  intros H.
  assert (Hinv : (Fnv.prime64 * 14886173955864302971) mod 2 ^ 64 = 1) by (by vm_compute).
  assert (Hback : ∀ z, ((z * Fnv.prime64) mod 2 ^ 64 * 14886173955864302971) mod 2 ^ 64
                       = z mod 2 ^ 64).
  { intros z. rewrite Z.mul_mod_idemp_l by lia. rewrite <- Z.mul_assoc.
    rewrite <- Z.mul_mod_idemp_r by lia. rewrite Hinv. by rewrite Z.mul_1_r. }
  by rewrite <- (Hback x), <- (Hback y), H.
Qed.

Lemma log2_lt_64 x : 0 <= x < 2 ^ 64 → Z.log2 x < 64.
Proof.
  intros Hx. destruct (decide (x = 0)) as [->|Hne]; [by vm_compute|].
  apply Z.log2_lt_pow2; lia.
Qed.

Lemma lxor_range h c : 0 <= h < 2 ^ 64 → 0 <= c < 2 ^ 64 → 0 <= Z.lxor h c < 2 ^ 64.
Proof.
  intros Hh Hc. assert (H0 : 0 <= Z.lxor h c) by (apply Z.lxor_nonneg; lia).
  split; [done|]. destruct (decide (Z.lxor h c = 0)) as [->|Hne]; [lia|].
  apply Z.log2_lt_pow2; [lia|].
  pose proof (Z.log2_lxor h c ltac:(lia) ltac:(lia)).
  pose proof (log2_lt_64 h Hh). pose proof (log2_lt_64 c Hc). lia.
Qed.

Lemma step_range h c : 0 <= Fnv.step h c < 2 ^ 64.
Proof. unfold Fnv.step. apply Z.mod_pos_bound. lia. Qed.

Lemma step_lxor_inj h c h' c' :
  0 <= h < 2 ^ 64 → 0 <= c < 2 ^ 64 → 0 <= h' < 2 ^ 64 → 0 <= c' < 2 ^ 64 →
  Fnv.step h c = Fnv.step h' c' → Z.lxor h c = Z.lxor h' c'.
Proof.
  intros Hh Hc Hh' Hc' H. apply mul_prime64_inj in H.
  by rewrite !Z.mod_small in H by by apply lxor_range.
Qed.

Lemma fold_step_range bs h : 0 <= h < 2 ^ 64 → 0 <= fold_left Fnv.step bs h < 2 ^ 64.
Proof.
  revert h. induction bs as [|b bs IH]; intros h Hh; cbn [fold_left]; [done|].
  apply IH, step_range.
Qed.

Lemma fold_step_inj bs h h' :
  0 <= h < 2 ^ 64 → 0 <= h' < 2 ^ 64 → Forall (fun b => 0 <= b < 2 ^ 64) bs →
  fold_left Fnv.step bs h = fold_left Fnv.step bs h' → h = h'.
Proof.
  intros Hh Hh' Hbs. revert h h' Hh Hh'.
  induction Hbs as [|b bs Hb _ IH]; intros h h' Hh Hh' H; cbn [fold_left] in H; [done|].
  apply IH in H; [|apply step_range..].
  apply step_lxor_inj in H; [|done..].
  transitivity (Z.lxor (Z.lxor h b) b);
    [by rewrite Z.lxor_assoc, Z.lxor_nilpotent, Z.lxor_0_r|].
  rewrite H. by rewrite Z.lxor_assoc, Z.lxor_nilpotent, Z.lxor_0_r.
Qed.

Lemma bytes_of_string_app s t :
  Fmt.bytes_of_string (s +:+ t) = Fmt.bytes_of_string s ++ Fmt.bytes_of_string t.
Proof.
  unfold Fmt.bytes_of_string. induction s as [|c s IH]; [done|].
  change (String c s +:+ t) with (String c (s +:+ t)).
  cbn [list_ascii_of_string map app]. by f_equal.
Qed.

Lemma bytes_of_string_range s :
  Forall (fun b => 0 <= b < 2 ^ 64) (Fmt.bytes_of_string s).
Proof.
  unfold Fmt.bytes_of_string. induction s as [|c s IH]; cbn; [done|].
  constructor; [|done]. pose proof (N_ascii_bounded c). lia.
Qed.

Lemma wrap_inj_uint64 x y :
  0 <= x < 2 ^ 64 → 0 <= y < 2 ^ 64 → Int64.wrap x = Int64.wrap y → x = y.
Proof.
  intros Hx Hy H. destruct (wrap_decompose x) as [k Hk], (wrap_decompose y) as [k' Hk'].
  pose proof (wrap_range x) as Rx. pose proof (wrap_range y) as Ry.
  unfold Int64.in_range, Int64.min_int, Int64.max_int in *. lia.
Qed.

(** X21. The advisory lock id is an int64, and two keys that differ in
    one byte only never share it: requests for such keys are never
    serialised against each other by the lock. *)
Theorem lock_id_separates_neighbouring_keys (p s : string) (a b : ascii) :
  a ≠ b →
  Int64.in_range (Repository.advisoryLockKey (p +:+ String a s)) ∧
  Repository.advisoryLockKey (p +:+ String a s)
  ≠ Repository.advisoryLockKey (p +:+ String b s).
Proof.
  intros Hab. split; [apply wrap_range|]. unfold Repository.advisoryLockKey. intros H.
  apply wrap_inj_uint64 in H;
    [|apply fold_step_range; by vm_compute..].
  unfold Fnv.Sum64a in H. rewrite !bytes_of_string_app, !fold_left_app in H.
  cbn [Fmt.bytes_of_string list_ascii_of_string map fold_left] in H.
  fold (Fmt.bytes_of_string s) in H.
  assert (Hp : 0 <= fold_left Fnv.step (Fmt.bytes_of_string p) Fnv.offset64 < 2 ^ 64)
    by (apply fold_step_range; by vm_compute).
  pose proof (N_ascii_bounded a) as Ha. pose proof (N_ascii_bounded b) as Hb.
  apply fold_step_inj in H; [|apply step_range..|apply bytes_of_string_range].
  apply step_lxor_inj in H; [|done|lia|done|lia].
  apply (f_equal (Z.lxor (fold_left Fnv.step (Fmt.bytes_of_string p) Fnv.offset64))) in H.
  rewrite <- !Z.lxor_assoc, Z.lxor_nilpotent, !Z.lxor_0_l in H.
  apply Hab. rewrite <- (ascii_N_embedding a), <- (ascii_N_embedding b). f_equal. lia.
Qed.

Lemma lock_id_separates_neighbouring_keys_witness :
  Repository.advisoryLockKey "payment-abc-123" ≠ Repository.advisoryLockKey "payment-abc-223".
Proof.
  apply (lock_id_separates_neighbouring_keys "payment-abc-" "23" "1" "2").
  by vm_compute.
Defined.


(** ** The grouped statistics *)

Lemma group_fold l (g : gmap string (Z * Z)) m :
  fold_left Repository.group_step l g !! m
  = match List.filter (fun r => bool_decide (Rec.MerchantID r = m)) l with
    | [] => g !! m
    | sel => Some ((default (0, 0) (g !! m)).1 + sumZ (map Rec.AttemptCount sel),
                   (default (0, 0) (g !! m)).2 + Z.of_nat (length sel))
    end.
Proof.
  revert g. induction l as [|r l IH]; intros g; cbn [fold_left List.filter]; [done|].
  rewrite IH. unfold Repository.group_step at 1 2 3.
  destruct (bool_decide (Rec.MerchantID r = m)) eqn:Hm.
  - apply bool_decide_eq_true in Hm. rewrite Hm, lookup_insert_eq.
    cbn [default from_option id fst snd].
    destruct (List.filter _ l) as [|x sel]; cbn [map sumZ length]; f_equal; f_equal; lia.
  - apply bool_decide_eq_false in Hm. by rewrite lookup_insert_ne.
Qed.

(** X22. The grouped query agrees with the query for one merchant: a
    merchant with a row first seen in the range has the entry (total
    attempts, number of rows) that [GetMerchantStats] returns for it, and
    a merchant without such a row has no entry (where [GetMerchantStats]
    returns two zeros). *)
Theorem grouped_stats_agree (db : DB) (from to : Time) (merchantID : string) :
  Repository.GetAllMerchantStats db from to !! merchantID
  = if decide (rows_in_range db merchantID from to = []) then None
    else Some (GetMerchantStats db merchantID from to).
Proof.
  unfold Repository.GetAllMerchantStats. rewrite group_fold, lookup_empty, filter_filter.
  rewrite GetMerchantStats_eq. unfold rows_in_range, total_attempts.
  rewrite (filter_ext_Forall
             (fun x => Repository.in_time_range from to x
                       && bool_decide (Rec.MerchantID x = merchantID))
             (in_range merchantID from to))
    by (intros x; unfold Repository.in_time_range, in_range;
        by destruct (bool_decide _), (from <=? _), (_ <=? to)).
  destruct (List.filter (in_range merchantID from to) (all_rows db)) as [|x sel]; [done|].
  rewrite decide_False by done. cbn [default from_option id fst snd]. by f_equal.
Qed.


(** ** Paths and the completion endpoint *)

Lemma append_cons c s t : String c s +:+ t = String c (s +:+ t).
Proof. reflexivity. Qed.

Lemma append_assoc s t u : (s +:+ t) +:+ u = s +:+ (t +:+ u).
Proof. induction s as [|c s IH]; [done|]. rewrite !append_cons. by f_equal. Qed.

Lemma TrimRight_keeps s t :
  Handler.TrimRight t = t ∧ t ≠ EmptyString →
  Handler.TrimRight (s +:+ t) = s +:+ t ∧ s +:+ t ≠ EmptyString.
Proof.
  intros [Ht Hne]. induction s as [|c s [IH1 IH2]]; [done|].
  rewrite append_cons. cbn [Handler.TrimRight]. rewrite IH1.
  split; [|done]. by destruct (s +:+ t).
Qed.

Lemma Split_nonempty s : Handler.Split s ≠ [].
Proof.
  induction s as [|c s IH]; cbn; [done|].
  destruct (decide (c = "/"%char)); [done|]. by destruct (Handler.Split s).
Qed.

Lemma Split_segment s t :
  slash_free s → Handler.Split (s +:+ String "/" t) = s :: Handler.Split t.
Proof.
  induction s as [|c s IH]; intros Hs.
  - reflexivity.
  - destruct Hs as [Hc Hs]. rewrite append_cons. cbn [Handler.Split].
    rewrite decide_False by done. by rewrite IH.
Qed.

(** The parts of a path [/a/b/k/rest], for segments without a separator
    and a rest that does not end in one. *)
Lemma path_parts_third a b k rest :
  slash_free a → a ≠ EmptyString → slash_free b → slash_free k →
  Handler.TrimRight rest = rest ∧ rest ≠ EmptyString →
  Handler.path_parts (String "/" (a +:+ String "/" (b +:+ String "/" (k +:+ String "/" rest))))
  = a :: b :: k :: Handler.Split rest.
Proof.
  intros Ha Hane Hb Hk Hrest. unfold Handler.path_parts, Handler.Trim.
  cbn [Handler.TrimLeft]. rewrite decide_True by done.
  assert (Hl : Handler.TrimLeft (a +:+ String "/" (b +:+ String "/" (k +:+ String "/" rest)))
               = a +:+ String "/" (b +:+ String "/" (k +:+ String "/" rest))).
  { destruct a as [|c a]; [done|]. destruct Ha as [Hc _]. rewrite append_cons.
    cbn [Handler.TrimLeft]. by rewrite decide_False. }
  rewrite Hl.
  assert (Hr : Handler.TrimRight (a +:+ String "/" (b +:+ String "/" (k +:+ String "/" rest)))
               = a +:+ String "/" (b +:+ String "/" (k +:+ String "/" rest))).
  { apply TrimRight_keeps.
    apply (TrimRight_keeps (String "/" EmptyString)).
    apply TrimRight_keeps.
    apply (TrimRight_keeps (String "/" EmptyString)).
    apply TrimRight_keeps.
    apply (TrimRight_keeps (String "/" EmptyString)). exact Hrest. }
  rewrite Hr. by rewrite !Split_segment.
Qed.

(** X23. The completion endpoint completes the key named by the third
    segment of the path.  For a key without a [/] that is the key
    itself, with the status of [MarkComplete] mapped to 200, 404, 409,
    422 or 500; for a key [k/more] it is [k]: the record of a key that
    contains a [/] is not reachable through the endpoint. *)
Theorem completion_addresses_third_segment (fail : bool) (db : DB) (k more : string)
    (req : CompleteRequest) (now : Time) :
  slash_free k →
  Handler.CompletePayment fail db (patch_complete k req) now
  = ((Service.MarkComplete fail db k req now).1,
     Handler.complete_status (Service.MarkComplete fail db k req now).2) ∧
  Handler.CompletePayment fail db (patch_complete (k +:+ "/" +:+ more) req) now
  = Handler.CompletePayment fail db (patch_complete k req) now.
Proof.
  intros Hk.
  assert (Hc : Handler.TrimRight "complete" = "complete" ∧ "complete" ≠ EmptyString)
    by (split; [by vm_compute | done]).
  assert (H1 : Handler.path_parts ("/v1/payments/" +:+ k +:+ "/complete")
               = ["v1"; "payments"; k; "complete"]).
  { apply (path_parts_third "v1" "payments" k "complete"); try done;
      cbn; repeat split; done. }
  assert (H2 : ∃ x l, Handler.path_parts
                        ("/v1/payments/" +:+ (k +:+ "/" +:+ more) +:+ "/complete")
                      = "v1" :: "payments" :: k :: x :: l).
  { replace ("/v1/payments/" +:+ (k +:+ "/" +:+ more) +:+ "/complete")
      with (String "/" ("v1" +:+ String "/" ("payments" +:+ String "/"
              (k +:+ String "/" (more +:+ "/complete")))))
      by (by rewrite !append_assoc).
    rewrite (path_parts_third "v1" "payments" k (more +:+ "/complete"));
      [|try done; cbn; repeat split; done..|].
    - pose proof (Split_nonempty (more +:+ "/complete")).
      destruct (Handler.Split _) as [|x l]; [done|]. by exists x, l.
    - by apply (TrimRight_keeps more), (TrimRight_keeps (String "/" EmptyString)). }
  unfold Handler.CompletePayment, patch_complete.
  cbn [Handler.method Handler.path Handler.body].
  rewrite decide_False by (intros H; by apply H). rewrite H1.
  destruct H2 as (x & l & ->).
  cbn [length Nat.ltb Nat.leb lookup list_lookup default from_option id].
  by destruct (Service.MarkComplete fail db k req now).
Qed.

Lemma completion_addresses_third_segment_witness :
  Handler.CompletePayment false db_A
    (patch_complete "A/x" {| creq_Status := StatusFailed; creq_ResponseBody := None |}) (t0 + 5)
  = Handler.CompletePayment false db_A
      (patch_complete "A" {| creq_Status := StatusFailed; creq_ResponseBody := None |}) (t0 + 5).
Proof.
  apply (completion_addresses_third_segment false db_A "A" "x").
  by vm_compute.
Defined.


(** ** The policy endpoint *)

Lemma policy_path_parts m :
  slash_free m → Handler.path_parts (policy_path m) = ["v1"; "merchants"; m; "policy"].
Proof.
  intros Hm. apply (path_parts_third "v1" "merchants" m "policy"); try done;
    cbn; repeat split; done.
Qed.

(** X24. A PUT of a valid policy is answered 200, and a GET for the
    same merchant then returns it: the retry policy and expiry hours of
    the body, under the merchant id of the path (the one in the body is
    ignored), updated now, and created when the merchant's first policy
    was. *)
Theorem policy_put_then_get (tbl : Policy.Table) (m : string) (p : Policy.MerchantPolicy)
    (now now' : Time) :
  slash_free m →
  Policy.validPolicies (Policy.RetryPolicy p) = true →
  Policy.validHours (Policy.ExpiryHours p) = true →
  (Policy.UpdatePolicy false tbl (put_policy m p) now).1.2 = 200 ∧
  Policy.UpdatePolicy false (Policy.UpdatePolicy false tbl (put_policy m p) now).1.1
    (get_policy m) now'
  = ((Policy.UpdatePolicy false tbl (put_policy m p) now).1.1, 200,
     Some (Policy.mkPolicy m (Policy.RetryPolicy p) (Policy.ExpiryHours p)
             (from_option Policy.CreatedAt now (tbl !! m)) now)).
Proof.
  intros Hm Hr Hh.
  assert (Hc : Policy.check_constraints
                 (Policy.mkPolicy m (Policy.RetryPolicy p) (Policy.ExpiryHours p)
                    (Policy.CreatedAt p) (Policy.UpdatedAt p)) = true).
  { unfold Policy.check_constraints, Policy.validPolicies, Policy.validHours in *.
    cbn [Policy.RetryPolicy Policy.ExpiryHours].
    apply andb_true_iff. split; apply bool_decide_eq_true, list_elem_of_In; cbn.
    - repeat (apply orb_true_iff in Hr as [Hr|Hr]);
        apply bool_decide_eq_true in Hr; auto.
    - repeat (apply orb_true_iff in Hh as [Hh|Hh]); apply Z.eqb_eq in Hh; auto. }
  unfold Policy.UpdatePolicy, put_policy, get_policy.
  cbn [Handler.method Handler.path Handler.body].
  rewrite !policy_path_parts by done.
  cbn [length Nat.ltb Nat.leb lookup list_lookup default from_option id
       Policy.RetryPolicy Policy.ExpiryHours].
  rewrite decide_False by (intros [H _]; by apply H).
  rewrite decide_False by done. rewrite Hr, Hh. cbn [negb].
  unfold Policy.UpsertPolicy. rewrite Hc. cbn [negb fst snd Policy.MerchantID].
  split; [done|].
  rewrite decide_False by (intros [_ H]; by apply H).
  rewrite decide_True by done. unfold Policy.GetPolicy. rewrite lookup_insert_eq.
  by destruct (tbl !! m).
Qed.

Lemma policy_put_then_get_witness :
  (Policy.UpdatePolicy false ∅ (put_policy "m1" lenient_48) t0).1.2 = 200.
Proof.
  apply (policy_put_then_get ∅ "m1" lenient_48 t0 t0); by vm_compute.
Defined.

(** X25. A PUT whose retry policy is not one of strict_no_retry,
    standard and lenient, or whose expiry hours are not 24, 48 or 72, is
    answered 422 and the table stays as it was; and whatever the
    request, the endpoint answers 500 only when the database fails: a
    policy that passes the validation satisfies the constraints of the
    table. *)
Theorem invalid_policy_is_rejected (fail : bool) (tbl : Policy.Table) (m : string)
    (r : Handler.Request Policy.MerchantPolicy) (p : Policy.MerchantPolicy) (now : Time) :
  slash_free m →
  (Policy.validPolicies (Policy.RetryPolicy p) && Policy.validHours (Policy.ExpiryHours p)
   = false →
   Policy.UpdatePolicy fail tbl (put_policy m p) now = (tbl, 422, None)) ∧
  ((Policy.UpdatePolicy fail tbl r now).1.2 = 500 → fail = true).
Proof.
  intros Hm. split.
  - intros Hv. unfold Policy.UpdatePolicy, put_policy.
    cbn [Handler.method Handler.path Handler.body].
    rewrite policy_path_parts by done.
    cbn [length Nat.ltb Nat.leb lookup list_lookup default from_option id
         Policy.RetryPolicy Policy.ExpiryHours].
    rewrite decide_False by (intros [H _]; by apply H).
    rewrite decide_False by done.
    destruct (Policy.validPolicies _); [|done]. cbn [andb] in Hv. by rewrite Hv.
  - unfold Policy.UpdatePolicy.
    destruct (decide (_ ∧ _)); [done|].
    destruct (length _ <? 4)%nat; [done|].
    destruct (decide (Handler.method r = "GET")).
    + unfold Policy.GetPolicy. destruct fail; [done|].
      by destruct (tbl !! _).
    + destruct (Handler.body r) as [decoded|]; [|done].
      cbn [Policy.RetryPolicy Policy.ExpiryHours].
      destruct (Policy.validPolicies (Policy.RetryPolicy decoded)) eqn:Hr; [|done].
      destruct (Policy.validHours (Policy.ExpiryHours decoded)) eqn:Hh; [|done].
      cbn [negb]. unfold Policy.UpsertPolicy. destruct fail; [done|].
      replace (Policy.check_constraints _) with true; [done|].
      symmetry. unfold Policy.check_constraints, Policy.validPolicies, Policy.validHours in *.
      cbn [Policy.RetryPolicy Policy.ExpiryHours].
      apply andb_true_iff. split; apply bool_decide_eq_true, list_elem_of_In; cbn.
      * repeat (apply orb_true_iff in Hr as [Hr|Hr]);
          apply bool_decide_eq_true in Hr; auto.
      * repeat (apply orb_true_iff in Hh as [Hh|Hh]); apply Z.eqb_eq in Hh; auto.
Qed.

Lemma invalid_policy_is_rejected_witness :
  Policy.UpdatePolicy false ∅ (put_policy "m1" (Policy.mkPolicy "m1" "standard" 12 0 0)) t0
  = (∅, 422, None).
Proof.
  destruct (invalid_policy_is_rejected false ∅ "m1" (get_policy "m1")
              (Policy.mkPolicy "m1" "standard" 12 0 0) t0) as [H _]; [by vm_compute|].
  apply H. by vm_compute.
Defined.


(** ** The configured retention *)

Lemma digit_pretty_N_char (k : N) :
  (k < 10)%N → Config.digit (pretty_N_char k) = Some (Z.of_N k).
Proof.
  intros Hk.
  assert (k = 0 ∨ k = 1 ∨ k = 2 ∨ k = 3 ∨ k = 4 ∨ k = 5 ∨ k = 6 ∨ k = 7 ∨ k = 8 ∨ k = 9)%N
    as Hcases by lia.
  repeat (destruct Hcases as [-> | Hcases]; [reflexivity|]). by subst.
Qed.

Lemma digits_pretty_N_go (x : N) (s : string) :
  Config.digits 0 (pretty_N_go x s) = Config.digits (Z.of_N x) s.
Proof.
  revert s. induction (N.lt_wf_0 x) as [x _ IH]; intros s.
  assert (x = 0 ∨ 0 < x)%N as [->|Hx] by lia.
  - by rewrite pretty_N_go_0.
  - rewrite pretty_N_go_step by done. rewrite IH by (by apply N.div_lt).
    cbn [Config.digits]. rewrite digit_pretty_N_char by (apply N.mod_lt; lia).
    f_equal. rewrite (N.div_mod x 10) at 3 by lia. lia.
Qed.

Lemma unsigned_pretty_pos (p : positive) :
  pretty_N_go (Npos p) EmptyString ≠ EmptyString ∧
  Config.unsigned (pretty_N_go (Npos p) EmptyString) = Some (Zpos p).
Proof.
  pose proof (digits_pretty_N_go (Npos p) EmptyString) as H. cbn [Config.digits] in H.
  assert (Hne : pretty_N_go (Npos p) EmptyString ≠ EmptyString).
  { intros He. rewrite He in H. cbn in H. discriminate. }
  split; [done|]. unfold Config.unsigned.
  destruct (pretty_N_go (Npos p) EmptyString); [done | exact H].
Qed.

(** [Atoi] reads back what [%d] prints: every int64 is parsed from its
    decimal form, the negative ones included. *)
Lemma Atoi_reads_decimal (h : Z) :
  Int64.in_range h → Config.Atoi (Fmt.d h) = Some h.
Proof.
  intros Hh.
  assert (Hrange : (Int64.min_int <=? h) && (h <=? Int64.max_int) = true).
  { unfold Int64.in_range in Hh. apply andb_true_iff. split; apply Z.leb_le; lia. }
  unfold Fmt.d, pretty, pretty_Z. destruct h as [|p|p].
  - by vm_compute.
  - unfold pretty_positive, pretty, pretty_N. rewrite decide_False by done.
    destruct (unsigned_pretty_pos p) as [Hne Hu]. unfold Config.Atoi.
    destruct (pretty_N_go (N.pos p) EmptyString) as [|c s] eqn:Hs; [done|].
    destruct (decide (c = "-"%char)) as [->|Hm].
    { unfold Config.unsigned in Hu. cbn in Hu. discriminate. }
    destruct (decide (c = "+"%char)) as [->|Hp].
    { unfold Config.unsigned in Hu. cbn in Hu. discriminate. }
    by rewrite Hu, Hrange.
  - unfold pretty_positive, pretty, pretty_N. rewrite decide_False by done.
    destruct (unsigned_pretty_pos p) as [Hne Hu].
    change ("-" +:+ ?s) with (String "-" s). unfold Config.Atoi.
    rewrite decide_True by done.
    rewrite Hu. cbn [fmap option_fmap option_map].
    change (- Z.pos p) with (Z.neg p). by rewrite Hrange.
Qed.



Lemma decimal_nonempty (h : Z) : Int64.in_range h → Fmt.d h ≠ EmptyString.
Proof. intros Hh He. pose proof (Atoi_reads_decimal h Hh) as H. by rewrite He in H. Qed.

Lemma Load_hours (v : string) :
  v ≠ EmptyString →
  Config.KeyExpiryTTL (Config.Load (env_hours v)) = Config.parseDurationHours v.
Proof.
  intros Hv. unfold Config.Load, env_hours. cbn [Config.KeyExpiryTTL].
  rewrite decide_True by done. unfold Config.envOrDefault. by rewrite decide_True.
Qed.

(** X26. The retention is the configured number of hours, exactly, for
    every number of hours an int64 of nanoseconds can hold, zero and
    negative ones included (they are not rejected); a value that is not
    a number, like an unset variable, gives 24 hours. *)
Theorem retention_from_environment (h : Z) :
  - max_hours <= h <= max_hours →
  Config.KeyExpiryTTL (Config.Load (env_hours (Fmt.d h))) = h * Config.Hour ∧
  (∀ s, Config.Atoi s = None →
        Config.KeyExpiryTTL (Config.Load (env_hours s)) = 24 * Config.Hour).
Proof.
  unfold max_hours. intros Hh.
  assert (Hr : Int64.in_range h)
    by (unfold Int64.in_range, Int64.min_int, Int64.max_int; lia).
  split.
  - rewrite Load_hours by by apply decimal_nonempty.
    unfold Config.parseDurationHours. rewrite (Atoi_reads_decimal h Hr).
    cbn [default from_option id]. unfold Int64.mul. apply wrap_in_range.
    unfold Int64.in_range, Int64.min_int, Int64.max_int, Config.Hour. lia.
  - intros s Hs. destruct (decide (s = EmptyString)) as [->|Hne]; [by vm_compute|].
    rewrite Load_hours by done. unfold Config.parseDurationHours. rewrite Hs.
    by vm_compute.
Qed.

Lemma retention_from_environment_witness :
  Config.KeyExpiryTTL (Config.Load (env_hours (Fmt.d 48))) = 48 * Config.Hour.
Proof. apply (retention_from_environment 48). by vm_compute. Defined.

(** X27. A configured retention just above that bound is accepted too,
    and wraps: the duration is [h] hours minus 2^64 nanoseconds, a
    negative one. *)
Theorem retention_overflow_wraps (h : Z) :
  max_hours < h <= 2 * max_hours + 1 →
  Config.KeyExpiryTTL (Config.Load (env_hours (Fmt.d h))) = h * Config.Hour - 2 ^ 64 ∧
  Config.KeyExpiryTTL (Config.Load (env_hours (Fmt.d h))) < 0.
Proof.
  unfold max_hours. intros Hh.
  assert (Hr : Int64.in_range h)
    by (unfold Int64.in_range, Int64.min_int, Int64.max_int; lia).
  rewrite Load_hours by by apply decimal_nonempty.
  unfold Config.parseDurationHours. rewrite (Atoi_reads_decimal h Hr).
  cbn [default from_option id]. unfold Int64.mul.
  rewrite <- (wrap_shift (h * Config.Hour) (-1)).
  rewrite wrap_in_range;
    unfold Int64.in_range, Int64.min_int, Int64.max_int, Config.Hour; lia.
Qed.

Lemma retention_overflow_wraps_witness :
  Config.KeyExpiryTTL (Config.Load (env_hours (Fmt.d 3000000))) < 0.
Proof. apply (retention_overflow_wraps 3000000). by vm_compute. Defined.


(** ** Calls on different keys, and calls after a sweep *)

Lemma ResetToProcessing_error fail db key pid exp now :
  (ResetToProcessing fail db key pid exp now).2
  = if fail then Some (ErrWrapped "reset") else None.
Proof. destruct fail; [done|]. apply ResetToProcessing_no_error. Qed.

Lemma branch_response_db e db db' req p :
  (ProcessPayment_branch e db req p).2 = (ProcessPayment_branch e db' req p).2.
Proof.
  unfold ProcessPayment_branch.
  repeat match goal with
         | |- context [ResetToProcessing ?f ?d ?k ?i ?x ?n] =>
             let H := fresh "H" in
             pose proof (ResetToProcessing_error f d k i x n) as H;
             destruct (ResetToProcessing f d k i x n) as [? ?]; cbn [snd] in H; subst
         | |- context [if ?b then _ else _] => destruct b
         end; done.
Qed.

(** The answer of a call is read off the row of its key. *)
Lemma response_depends_on_row ttl e db db' req :
  rows db !! Req.IdempotencyKey req = rows db' !! Req.IdempotencyKey req →
  (ProcessPayment ttl e db req).2 = (ProcessPayment ttl e db' req).2.
Proof.
  intros H. unfold ProcessPayment, ProcessPayment_upsert.
  destruct (validateRequest req); [done|]. unfold InsertOrGet.
  destruct (upsert_fails e); [done|]. cbn zeta. rewrite H.
  destruct (rows db' !! Req.IdempotencyKey req) as [r|]; [apply branch_response_db|].
  by unfold ProcessPayment_branch.
Qed.

(** X28. Calls on different keys do not influence each other's
    answers: what a call returns for its key is the same whether or not
    a call for another key has gone before it. *)
Theorem answers_are_independent_across_keys (ttl : Time) (e e' : Env) (db : DB)
    (req other : PaymentRequest) :
  consistent db →
  Req.IdempotencyKey req ≠ Req.IdempotencyKey other →
  (ProcessPayment ttl e (ProcessPayment ttl e' db other).1 req).2
  = (ProcessPayment ttl e db req).2.
Proof.
  intros Hdb Hne. apply response_depends_on_row.
  by apply (ProcessPayment_frame ttl e' db other Hdb).
Qed.

Lemma answers_are_independent_across_keys_witness :
  (ProcessPayment one_day (env_at (t0 + 7))
     (ProcessPayment one_day (env_at (t0 + 3)) db_A req_B).1 req_A).2
  = (ProcessPayment one_day (env_at (t0 + 7)) db_A req_A).2.
Proof.
  apply (answers_are_independent_across_keys one_day (env_at (t0 + 7)) (env_at (t0 + 3))
           db_A req_A req_B consistent_db_A).
  by vm_compute.
Defined.

Lemma DeleteExpired_lookup db now k r :
  rows (DeleteExpired db now).1 !! k = Some r
  ↔ rows db !! k = Some r ∧ now <= Rec.ExpiresAt r.
Proof.
  unfold DeleteExpired. cbn [fst rows with_rows]. rewrite map_lookup_filter_Some.
  cbn [snd]. split; intros [H1 H2]; (split; [done|lia]).
Qed.

(** X29. Once the sweep has removed the expired row of a key, the next
    call on the key is accepted as a new payment, not as the reuse of an
    expired key: it answers 201 with attempt count 1, and the new row
    starts its history (attempt count, first seen) afresh. *)
Theorem swept_key_is_new_again (ttl : Time) (e : Env) (db : DB) (req : PaymentRequest)
    (now : Time) (r : IdempotencyRecord) :
  validateRequest req = None → upsert_fails e = false →
  rows db !! Req.IdempotencyKey req = Some r →
  Rec.ExpiresAt r < now →
  (ProcessPayment ttl e (DeleteExpired db now).1 req).2
  = (Some (Resp.mk (generatePaymentID (now_id e)) (Req.IdempotencyKey req) StatusProcessing
             "payment accepted for processing" 1 None), 201, None) ∧
  ∃ r', rows (ProcessPayment ttl e (DeleteExpired db now).1 req).1 !! Req.IdempotencyKey req
        = Some r' ∧
        Rec.AttemptCount r' = 1 ∧ Rec.FirstSeenAt r' = now_upsert e.
Proof.
  intros Hv Hu Hr Hx.
  assert (Hgone : rows (DeleteExpired db now).1 !! Req.IdempotencyKey req = None).
  { destruct (rows (DeleteExpired db now).1 !! Req.IdempotencyKey req) as [r'|] eqn:Hr';
      [|done].
    apply DeleteExpired_lookup in Hr' as [Hr' Hlive]. rewrite Hr in Hr'.
    injection Hr' as <-. lia. }
  rewrite (ProcessPayment_fresh ttl e _ req Hv Hu Hgone). cbn [fst snd rows].
  split; [done|]. rewrite lookup_insert_eq. by eexists.
Qed.

Lemma swept_key_is_new_again_witness :
  outcome (ProcessPayment one_day (env_at (t0 + 2 * one_day))
             (DeleteExpired db_A (t0 + 2 * one_day)).1 req_A).2
  = Some Accepted_new.
Proof.
  destruct (swept_key_is_new_again one_day (env_at (t0 + 2 * one_day)) db_A req_A
              (t0 + 2 * one_day) row_A) as [H _]; [by vm_compute..|].
  by rewrite H.
Defined.


